(** * Orchestration workbench: a functional model of
      [Python/tools/orchestration_tools.py] and the properties of its tools.

    Every tool of the module runs its whole body under one reentrant lock
    ([with _orchestration_state["lock"]]).  A tool is therefore modelled as a
    function from the shared state to a response and a new state; the lock
    itself is modelled further down ([thread_step], [sched_step]), where two
    threads that run [claim_workflow_task] are interleaved step by step:
    acquire the lock, check, set, release the lock.  The three tools that
    parse JSON catch [JSONDecodeError] only: whatever else [json.loads]
    raises leaves them, and their model says so ([Outcome]).

    The environment of a call is explicit: [datetime.now().isoformat()] is a
    per-call clock (the k-th reading made by the call), [int(time.time() *
    1000)] is an integer argument, and [json.loads] is a parameter of the
    development, as is the value it returns for [null], Python's [None]. *)

From stdpp Require Import base option list strings pretty sorting relations.
From Stdlib Require Import Ascii ZArith Permutation Sorted.

Set Warnings "-register-all".

Open Scope Z_scope.

(** ** Python values and helpers *)

(** [datetime.now().isoformat()] returns a string. *)
Abbreviation timestamp := string (only parsing).

(** The readings of [datetime.now()] made by one call: [now k] is the k-th
    reading (counted from 0) of that call. *)
Abbreviation Clock := (nat → string) (only parsing).

(** Truth value of a Python [str]: the empty string is falsy. *)
Definition truthy (s : string) : bool := negb (String.eqb s EmptyString).

(** Truth value of an [Optional[str]]: [None] and the empty string are falsy. *)
Definition truthy_opt (o : option string) : bool :=
  match o with
  | None => false
  | Some s => truthy s
  end.

(** [s.split(sep)] for a one-character separator. *)
Fixpoint split (sep : ascii) (s : string) : list string :=
  match s with
  | EmptyString => [EmptyString]
  | String a s' =>
      if decide (a = sep) then EmptyString :: split sep s'
      else match split sep s' with
           | [] => [String a EmptyString]
           | w :: ws => String a w :: ws
           end
  end.

(** A Python string is modelled by its UTF-8 encoding: a character of more
    than one byte takes more than one [ascii].  The comma is one byte, and
    this byte is part of no other character, so that [split] cuts where
    Python cuts. *)

(** The string of the bytes [l]. *)
Definition bytes (l : list nat) : string :=
  String.string_of_list_ascii (ascii_of_nat <$> l).

(** The characters that [str.isspace] accepts, which are those that
    [str.strip()] removes: U+0009 to U+000D, U+001C to U+0020, U+0085,
    U+00A0, U+1680, U+2000 to U+200A, U+2028, U+2029, U+202F, U+205F and
    U+3000. *)
Definition whitespace : list string :=
  ((λ b, bytes [b]%nat) <$> [9; 10; 11; 12; 13; 28; 29; 30; 31; 32]%nat)
  ++ [bytes [194; 133]%nat; bytes [194; 160]%nat; bytes [225; 154; 128]%nat]
  ++ ((λ b, bytes [226; 128; b]%nat)
        <$> [128; 129; 130; 131; 132; 133; 134; 135; 136; 137; 138]%nat)
  ++ [bytes [226; 128; 168]%nat; bytes [226; 128; 169]%nat; bytes [226; 128; 175]%nat;
      bytes [226; 129; 159]%nat; bytes [227; 128; 128]%nat].

(** [s] without the prefix [p], when [s] starts with [p]. *)
Fixpoint drop_prefix (p s : string) : option string :=
  match p, s with
  | EmptyString, _ => Some s
  | String a p', String b s' => if decide (a = b) then drop_prefix p' s' else None
  | String _ _, EmptyString => None
  end.

(** [s] without its first character, when this is one of [chars]. *)
Fixpoint skip_char (chars : list string) (s : string) : option string :=
  match chars with
  | [] => None
  | c :: chars' =>
      match drop_prefix c s with
      | Some s' => Some s'
      | None => skip_char chars' s
      end
  end.

(** The loop of [lstrip]: characters of [chars] are skipped as long as
    there is one at the front.  It makes at most [fuel] turns, and is run
    with as many turns as the string has bytes. *)
Fixpoint strip_loop (chars : list string) (fuel : nat) (s : string) : string :=
  match fuel with
  | O => s
  | S fuel' =>
      match skip_char chars s with
      | Some s' => strip_loop chars fuel' s'
      | None => s
      end
  end.

(** [s.lstrip()] *)
Definition lstrip (s : string) : string :=
  strip_loop whitespace (String.length s) s.

(** [s.rstrip()]: the same loop from the other end. *)
Definition rstrip (s : string) : string :=
  String.rev (strip_loop (String.rev <$> whitespace) (String.length s) (String.rev s)).

(** [s.strip()] *)
Definition strip (s : string) : string := rstrip (lstrip s).

(** A Python [dict] with string keys: insertion ordered, one entry per key.
    Assigning to a key that is present keeps its place. *)
Abbreviation dict V := (list (string * V)) (only parsing).

Fixpoint dict_get {V} (d : dict V) (k : string) : option V :=
  match d with
  | [] => None
  | (k', v) :: d' => if decide (k' = k) then Some v else dict_get d' k
  end.

Fixpoint dict_set {V} (d : dict V) (k : string) (v : V) : dict V :=
  match d with
  | [] => [(k, v)]
  | (k', v') :: d' =>
      if decide (k' = k) then (k, v) :: d' else (k', v') :: dict_set d' k v
  end.

(** What [json.loads] does: it returns a value, or raises [JSONDecodeError]
    with the message [str(e)], or raises another exception, named here by
    its class.  CPython raises [RecursionError] for a document that is
    nested too deeply, and [ValueError] for an integer of more than 4300
    digits; [JSONDecodeError] is a subclass of [ValueError], not the other
    way round. *)
Inductive Loaded (Json : Type) :=
  | Value (v : Json)
  | JSONDecodeError (e : string)
  | Raised (exc : string).
Arguments Value {Json} v.
Arguments JSONDecodeError {Json} e.
Arguments Raised {Json} exc.

(** Python's [None] among the values of type [Json]: it is what
    [json.loads] returns for the document [null]. *)
Class JsonNull (Json : Type) := json_null : Json.

(** The values the tools build and return ([Dict[str, Any]]). *)
Inductive Val (Json : Type) :=
  | VNone
  | VBool (b : bool)
  | VInt (z : Z)
  | VStr (s : string)
  | VList (l : list (Val Json))
  | VDict (l : list (string * Val Json))
  | VJson (j : Json).
Arguments VNone {Json}.
Arguments VBool {Json} b.
Arguments VInt {Json} z.
Arguments VStr {Json} s.
Arguments VList {Json} l.
Arguments VDict {Json} l.
Arguments VJson {Json} j.

(** How a call of a tool ends: the tool returns a dictionary, or an
    exception that the tool does not catch leaves it. *)
Inductive Outcome (Json : Type) :=
  | Returns (response : Val Json)
  | Raises (exc : string).
Arguments Returns {Json} response.
Arguments Raises {Json} exc.

(** An [Optional[str]] attribute as a value. *)
Definition VOptStr {Json} (o : option string) : Val Json :=
  match o with
  | None => VNone
  | Some s => VStr s
  end.

(** [d[k]] on a returned dictionary. *)
Definition field {Json} (k : string) (v : Val Json) : option (Val Json) :=
  match v with
  | VDict l => dict_get l k
  | _ => None
  end.

(** ** The three classes *)

Inductive AgentStatus := Active | Inactive.

Definition AgentStatus_str (s : AgentStatus) : string :=
  match s with
  | Active => "active"
  | Inactive => "inactive"
  end.

Inductive TaskStatus := Pending | Claimed | Completed | Failed.

Definition TaskStatus_str (s : TaskStatus) : string :=
  match s with
  | Pending => "pending"
  | Claimed => "claimed"
  | Completed => "completed"
  | Failed => "failed"
  end.

Global Instance AgentStatus_eq_dec : EqDecision AgentStatus.
Proof. solve_decision. Defined.

Global Instance TaskStatus_eq_dec : EqDecision TaskStatus.
Proof. solve_decision. Defined.

Module AgentSession.
Record t (Json : Type) := mk {
  agent_id : string;
  agent_type : string;
  capabilities : list string;
  created_at : timestamp;
  last_active : timestamp;
  status : AgentStatus;
  task_count : nat;
  metadata : dict Json
}.
Arguments mk {Json}.
Arguments agent_id {Json}.
Arguments agent_type {Json}.
Arguments capabilities {Json}.
Arguments created_at {Json}.
Arguments last_active {Json}.
Arguments status {Json}.
Arguments task_count {Json}.
Arguments metadata {Json}.

(** [__init__]: [capabilities or []], two clock readings. *)
Definition init {Json} (now : Clock) (agent_id agent_type : string)
    (capabilities : option (list string)) : t Json :=
  {| agent_id := agent_id;
     agent_type := agent_type;
     capabilities := default [] capabilities;
     created_at := now 0%nat;
     last_active := now 1%nat;
     status := Active;
     task_count := 0;
     metadata := [] |}.

(** [agent.last_active = ts] *)
Definition set_last_active {Json} (ts : timestamp) (a : t Json) : t Json :=
  {| agent_id := agent_id a;
     agent_type := agent_type a;
     capabilities := capabilities a;
     created_at := created_at a;
     last_active := ts;
     status := status a;
     task_count := task_count a;
     metadata := metadata a |}.

(** [agent.status = s] *)
Definition set_status {Json} (s : AgentStatus) (a : t Json) : t Json :=
  {| agent_id := agent_id a;
     agent_type := agent_type a;
     capabilities := capabilities a;
     created_at := created_at a;
     last_active := last_active a;
     status := s;
     task_count := task_count a;
     metadata := metadata a |}.

(** [agent.task_count += 1] *)
Definition incr_task_count {Json} (a : t Json) : t Json :=
  {| agent_id := agent_id a;
     agent_type := agent_type a;
     capabilities := capabilities a;
     created_at := created_at a;
     last_active := last_active a;
     status := status a;
     task_count := S (task_count a);
     metadata := metadata a |}.
End AgentSession.

Module KnowledgeAtom.
(** [metadata] is the attribute [share_knowledge] adds to the object after
    building it; the constructor does not set it. *)
Record t (Json : Type) := mk {
  atom_type : string;
  content : Json;
  source_agent : option string;
  created_at : timestamp;
  access_count : nat;
  last_accessed : option timestamp;
  metadata : option Json
}.
Arguments mk {Json}.
Arguments atom_type {Json}.
Arguments content {Json}.
Arguments source_agent {Json}.
Arguments created_at {Json}.
Arguments access_count {Json}.
Arguments last_accessed {Json}.
Arguments metadata {Json}.

(** [__init__]: one clock reading. *)
Definition init {Json} (now : Clock) (atom_type : string) (content : Json)
    (source_agent : option string) : t Json :=
  {| atom_type := atom_type;
     content := content;
     source_agent := source_agent;
     created_at := now 0%nat;
     access_count := 0;
     last_accessed := None;
     metadata := None |}.

(** [atom.metadata = meta] *)
Definition set_metadata {Json} (meta : Json) (a : t Json) : t Json :=
  {| atom_type := atom_type a;
     content := content a;
     source_agent := source_agent a;
     created_at := created_at a;
     access_count := access_count a;
     last_accessed := last_accessed a;
     metadata := Some meta |}.

(** [atom.access_count += 1; atom.last_accessed = ts] *)
Definition touch {Json} (ts : timestamp) (a : t Json) : t Json :=
  {| atom_type := atom_type a;
     content := content a;
     source_agent := source_agent a;
     created_at := created_at a;
     access_count := S (access_count a);
     last_accessed := Some ts;
     metadata := metadata a |}.
End KnowledgeAtom.

Module WorkflowTask.
(** [oid] stands for the identity of the Python object (what [is] and
    [id()] observe): the number of task objects built before this one.
    No tool reads it; it only lets a statement follow one task object
    through the re-sorting of the queue. *)
Record t (Json : Type) := mk {
  oid : nat;
  task_id : string;
  task_type : string;
  params : Json;
  assigned_agent : option string;
  priority : Z;
  status : TaskStatus;
  created_at : timestamp;
  started_at : option timestamp;
  completed_at : option timestamp;
  result : Json
}.
Arguments mk {Json}.
Arguments oid {Json}.
Arguments task_id {Json}.
Arguments task_type {Json}.
Arguments params {Json}.
Arguments assigned_agent {Json}.
Arguments priority {Json}.
Arguments status {Json}.
Arguments created_at {Json}.
Arguments started_at {Json}.
Arguments completed_at {Json}.
Arguments result {Json}.

(** [__init__]: one clock reading; the task starts [pending], and its
    [result] is [None]. *)
Definition init `{JsonNull Json} (oid : nat) (now : Clock) (task_id task_type : string)
    (params : Json) (assigned_agent : option string) (priority : Z) : t Json :=
  {| oid := oid;
     task_id := task_id;
     task_type := task_type;
     params := params;
     assigned_agent := assigned_agent;
     priority := priority;
     status := Pending;
     created_at := now 0%nat;
     started_at := None;
     completed_at := None;
     result := json_null |}.

(** The three assignments of a claim:
    [assigned_agent = agent_id; status = "claimed"; started_at = ts]. *)
Definition claim {Json} (agent_id : string) (ts : timestamp) (k : t Json) : t Json :=
  {| oid := oid k;
     task_id := task_id k;
     task_type := task_type k;
     params := params k;
     assigned_agent := Some agent_id;
     priority := priority k;
     status := Claimed;
     created_at := created_at k;
     started_at := Some ts;
     completed_at := completed_at k;
     result := result k |}.

(** The three assignments of a completion:
    [status = "completed" if success else "failed"; completed_at = ts;
     result = result_data]. *)
Definition complete {Json} (success : bool) (ts : timestamp) (result_data : Json)
    (k : t Json) : t Json :=
  {| oid := oid k;
     task_id := task_id k;
     task_type := task_type k;
     params := params k;
     assigned_agent := assigned_agent k;
     priority := priority k;
     status := if success then Completed else Failed;
     created_at := created_at k;
     started_at := started_at k;
     completed_at := Some ts;
     result := result_data |}.
End WorkflowTask.

(** ** The shared state and the tools *)

Section Tools.
Context {Json : Type} `{!JsonNull Json}.

(** [json.loads], from Python's standard library. *)
Variable json_loads : string → Loaded Json.

(** The empty dictionary [{}] a tool substitutes for an empty payload. *)
Variable empty_dict : Json.

(** [_orchestration_state] (the lock apart).  [next_oid] counts the task
    objects built so far, see [WorkflowTask.oid]. *)
Record State := mkState {
  agents : dict (AgentSession.t Json);
  knowledge_base : dict (KnowledgeAtom.t Json);
  task_queue : list (WorkflowTask.t Json);
  workflow_history : list (Val Json);
  next_oid : nat
}.

Definition set_agents (v : dict (AgentSession.t Json)) (st : State) : State :=
  {| agents := v;
     knowledge_base := knowledge_base st;
     task_queue := task_queue st;
     workflow_history := workflow_history st;
     next_oid := next_oid st |}.

Definition set_knowledge_base (v : dict (KnowledgeAtom.t Json)) (st : State) : State :=
  {| agents := agents st;
     knowledge_base := v;
     task_queue := task_queue st;
     workflow_history := workflow_history st;
     next_oid := next_oid st |}.

Definition set_task_queue (v : list (WorkflowTask.t Json)) (st : State) : State :=
  {| agents := agents st;
     knowledge_base := knowledge_base st;
     task_queue := v;
     workflow_history := workflow_history st;
     next_oid := next_oid st |}.

Definition set_workflow_history (v : list (Val Json)) (st : State) : State :=
  {| agents := agents st;
     knowledge_base := knowledge_base st;
     task_queue := task_queue st;
     workflow_history := v;
     next_oid := next_oid st |}.

(** The state of a freshly imported module. *)
Definition initial_state : State :=
  {| agents := [];
     knowledge_base := [];
     task_queue := [];
     workflow_history := [];
     next_oid := 0 |}.

(** [{"status": "error", "error": msg}] *)
Definition error (msg : string) : Val Json :=
  VDict [("status", VStr "error"); ("error", VStr msg)].

(** [json.loads(s) if s else {}] *)
Definition loads_or_empty (s : string) : Loaded Json :=
  if truthy s then json_loads s else Value empty_dict.

(** *** Agents *)

Definition register_agent (now : Clock) (agent_id agent_type capabilities : string)
    (st : State) : Val Json * State :=
  let cap_list :=
    if truthy capabilities then strip <$> split "," capabilities else [] in
  match dict_get (agents st) agent_id with
  | Some agent =>
      let agent := AgentSession.set_last_active (now 0%nat) agent in
      let agent := AgentSession.set_status Active agent in
      (VDict [("status", VStr "success");
              ("message", VStr ("Agent " +:+ agent_id +:+ " re-activated"));
              ("agent", VDict [
                 ("id", VStr (AgentSession.agent_id agent));
                 ("type", VStr (AgentSession.agent_type agent));
                 ("capabilities", VList (VStr <$> AgentSession.capabilities agent));
                 ("task_count", VInt (Z.of_nat (AgentSession.task_count agent)))])],
       set_agents (dict_set (agents st) agent_id agent) st)
  | None =>
      let agent := AgentSession.init now agent_id agent_type (Some cap_list) in
      (VDict [("status", VStr "success");
              ("message", VStr ("Agent " +:+ agent_id +:+ " registered successfully"));
              ("agent", VDict [
                 ("id", VStr (AgentSession.agent_id agent));
                 ("type", VStr (AgentSession.agent_type agent));
                 ("capabilities", VList (VStr <$> AgentSession.capabilities agent));
                 ("created_at", VStr (AgentSession.created_at agent))])],
       set_agents (dict_set (agents st) agent_id agent) st)
  end.

Definition list_active_agents (st : State) : Val Json * State :=
  let agents :=
    (λ '(_, agent),
       VDict [("id", VStr (AgentSession.agent_id agent));
              ("type", VStr (AgentSession.agent_type agent));
              ("status", VStr (AgentStatus_str (AgentSession.status agent)));
              ("capabilities", VList (VStr <$> AgentSession.capabilities agent));
              ("task_count", VInt (Z.of_nat (AgentSession.task_count agent)));
              ("created_at", VStr (AgentSession.created_at agent));
              ("last_active", VStr (AgentSession.last_active agent))])
    <$> agents st in
  (VDict [("status", VStr "success");
          ("total_agents", VInt (Z.of_nat (length agents)));
          ("agents", VList agents)],
   st).

Definition deregister_agent (agent_id : string) (st : State) : Val Json * State :=
  match dict_get (agents st) agent_id with
  | None => (error ("Agent " +:+ agent_id +:+ " not found"), st)
  | Some agent =>
      let agent := AgentSession.set_status Inactive agent in
      (VDict [("status", VStr "success");
              ("message", VStr ("Agent " +:+ agent_id +:+ " deregistered successfully"))],
       set_agents (dict_set (agents st) agent_id agent) st)
  end.

(** *** Knowledge *)

Definition share_knowledge (now : Clock) (time_ms : Z)
    (knowledge_type knowledge_content source_agent metadata : string)
    (st : State) : Outcome Json * State :=
  match loads_or_empty knowledge_content with
  | JSONDecodeError e =>
      (Returns (error ("Invalid JSON in content or metadata: " +:+ e)), st)
  | Raised exc => (Raises exc, st)
  | Value content =>
      match loads_or_empty metadata with
      | JSONDecodeError e =>
          (Returns (error ("Invalid JSON in content or metadata: " +:+ e)), st)
      | Raised exc => (Raises exc, st)
      | Value meta =>
          let atom_id := knowledge_type +:+ "_" +:+ pretty time_ms in
          let atom := KnowledgeAtom.init now knowledge_type content (Some source_agent) in
          let atom := KnowledgeAtom.set_metadata meta atom in
          (Returns
             (VDict [("status", VStr "success");
                     ("atom_id", VStr atom_id);
                     ("knowledge_type", VStr knowledge_type);
                     ("created_at", VStr (KnowledgeAtom.created_at atom))]),
           set_knowledge_base (dict_set (knowledge_base st) atom_id atom) st)
      end
  end.

(** The two filters of [query_knowledge]; [true] means [continue]. *)
Definition query_skips (knowledge_type source_agent : string)
    (atom : KnowledgeAtom.t Json) : bool :=
  (truthy knowledge_type
     && negb (bool_decide (KnowledgeAtom.atom_type atom = knowledge_type)))
  || (truthy source_agent
     && negb (bool_decide (KnowledgeAtom.source_agent atom = Some source_agent))).

(** One entry of the ["atoms"] list, built after the access count was
    incremented. *)
Definition atom_entry (atom_id : string) (atom : KnowledgeAtom.t Json) : Val Json :=
  VDict [("atom_id", VStr atom_id);
         ("type", VStr (KnowledgeAtom.atom_type atom));
         ("content", VJson (KnowledgeAtom.content atom));
         ("source_agent", VOptStr (KnowledgeAtom.source_agent atom));
         ("created_at", VStr (KnowledgeAtom.created_at atom));
         ("access_count", VInt (Z.of_nat (KnowledgeAtom.access_count atom)))].

(** The [for] loop of [query_knowledge] over the items that remain, with
    the [results] collected so far.  Each atom that passes the filters is
    updated in place (one clock reading each) and appended; the length test
    comes after the append and ends the loop ([break]). *)
Fixpoint query_loop (now : Clock) (knowledge_type source_agent : string) (limit : Z)
    (items : dict (KnowledgeAtom.t Json)) (results : list (Val Json))
    : dict (KnowledgeAtom.t Json) * list (Val Json) :=
  match items with
  | [] => ([], results)
  | (atom_id, atom) :: rest =>
      if query_skips knowledge_type source_agent atom then
        let '(rest', results') :=
          query_loop now knowledge_type source_agent limit rest results in
        ((atom_id, atom) :: rest', results')
      else
        let atom := KnowledgeAtom.touch (now (length results)) atom in
        let results := results ++ [atom_entry atom_id atom] in
        if Z.of_nat (length results) >=? limit then
          ((atom_id, atom) :: rest, results)
        else
          let '(rest', results') :=
            query_loop now knowledge_type source_agent limit rest results in
          ((atom_id, atom) :: rest', results')
  end.

Definition query_knowledge (now : Clock) (knowledge_type source_agent : string)
    (limit : Z) (st : State) : Val Json * State :=
  let '(kb, results) :=
    query_loop now knowledge_type source_agent limit (knowledge_base st) [] in
  (VDict [("status", VStr "success");
          ("total_results", VInt (Z.of_nat (length results)));
          ("atoms", VList results)],
   set_knowledge_base kb st).

(** *** Tasks *)

(** [queue.sort(key=lambda t: t.priority, reverse=True)].  [list.sort] is
    stable, also with [reverse=True]: the result is the one arrangement of
    the list by non-increasing priority that keeps tasks of equal priority
    in their previous order ([sort_by_priority_descending] and
    [sort_by_priority_stable] below), so any stable sort computes it.  This
    one is an insertion sort: the head goes in front of the first task of
    the sorted tail whose priority is not higher. *)
Fixpoint insert_by_priority (t : WorkflowTask.t Json) (l : list (WorkflowTask.t Json))
    : list (WorkflowTask.t Json) :=
  match l with
  | [] => [t]
  | x :: l' =>
      if WorkflowTask.priority x <=? WorkflowTask.priority t
      then t :: x :: l'
      else x :: insert_by_priority t l'
  end.

Fixpoint sort_by_priority (l : list (WorkflowTask.t Json)) : list (WorkflowTask.t Json) :=
  match l with
  | [] => []
  | t :: l' => insert_by_priority t (sort_by_priority l')
  end.

Definition create_workflow_task (now : Clock) (time_ms : Z)
    (task_type task_params assigned_agent : string) (priority : Z)
    (st : State) : Outcome Json * State :=
  match loads_or_empty task_params with
  | JSONDecodeError e =>
      (Returns (error ("Invalid JSON in task_params: " +:+ e)), st)
  | Raised exc => (Raises exc, st)
  | Value params =>
      let task_id := "task_" +:+ pretty time_ms in
      let task :=
        WorkflowTask.init (next_oid st) now task_id task_type params
          (Some assigned_agent) priority in
      (Returns
         (VDict [("status", VStr "success");
                 ("task_id", VStr task_id);
                 ("task_type", VStr task_type);
                 ("priority", VInt priority);
                 ("assigned_agent",
                  VStr (if truthy assigned_agent then assigned_agent else "unassigned"))]),
       {| agents := agents st;
          knowledge_base := knowledge_base st;
          task_queue := sort_by_priority (task_queue st ++ [task]);
          workflow_history := workflow_history st;
          next_oid := S (next_oid st) |})
  end.

(** The test of the loop that looks for the task named by [task_id]. *)
Definition claimable_by_id (task_id : string) (task : WorkflowTask.t Json) : Prop :=
  WorkflowTask.task_id task = task_id ∧ WorkflowTask.status task = Pending.

(** The test of the loop that selects a task for the caller. *)
Definition claimable_auto (task : WorkflowTask.t Json) : Prop :=
  WorkflowTask.status task = Pending
  ∧ truthy_opt (WorkflowTask.assigned_agent task) = false.

Global Instance claimable_by_id_dec task_id task : Decision (claimable_by_id task_id task).
Proof. unfold claimable_by_id. apply _. Defined.

Global Instance claimable_auto_dec task : Decision (claimable_auto task).
Proof. unfold claimable_auto. apply _. Defined.

(** "Find task to claim": the first task of the queue that passes the
    test, with its position, or [None]. *)
Definition find_task_to_claim (task_id : string) (queue : list (WorkflowTask.t Json))
    : option (nat * WorkflowTask.t Json) :=
  if truthy task_id then list_find (claimable_by_id task_id) queue
  else list_find claimable_auto queue.

Definition claim_workflow_task (now : Clock) (agent_id task_id : string)
    (st : State) : Val Json * State :=
  match dict_get (agents st) agent_id with
  | None => (error ("Agent " +:+ agent_id +:+ " not registered"), st)
  | Some agent =>
      match find_task_to_claim task_id (task_queue st) with
      | None => (error "No available tasks to claim", st)
      | Some (i, task_to_claim) =>
          let task_to_claim := WorkflowTask.claim agent_id (now 0%nat) task_to_claim in
          let agent := AgentSession.incr_task_count agent in
          let agent := AgentSession.set_last_active (now 1%nat) agent in
          (VDict [("status", VStr "success");
                  ("task_id", VStr (WorkflowTask.task_id task_to_claim));
                  ("task_type", VStr (WorkflowTask.task_type task_to_claim));
                  ("params", VJson (WorkflowTask.params task_to_claim));
                  ("priority", VInt (WorkflowTask.priority task_to_claim))],
           set_agents (dict_set (agents st) agent_id agent)
             (set_task_queue (<[i := task_to_claim]> (task_queue st)) st))
      end
  end.

Definition complete_workflow_task (now : Clock) (task_id result : string)
    (success : bool) (st : State) : Outcome Json * State :=
  match list_find (λ t, WorkflowTask.task_id t = task_id) (task_queue st) with
  | None => (Returns (error ("Task " +:+ task_id +:+ " not found")), st)
  | Some (i, task) =>
      match loads_or_empty result with
      | JSONDecodeError e =>
          (Returns (error ("Invalid JSON in result: " +:+ e)), st)
      | Raised exc => (Raises exc, st)
      | Value result_data =>
          let task := WorkflowTask.complete success (now 0%nat) result_data task in
          let entry :=
            VDict [("task_id", VStr task_id);
                   ("task_type", VStr (WorkflowTask.task_type task));
                   ("agent", VOptStr (WorkflowTask.assigned_agent task));
                   ("status", VStr (TaskStatus_str (WorkflowTask.status task)));
                   ("completed_at", VOptStr (WorkflowTask.completed_at task));
                   ("result", VJson result_data)] in
          (Returns
             (VDict [("status", VStr "success");
                     ("task_id", VStr task_id);
                     ("task_status", VStr (TaskStatus_str (WorkflowTask.status task)))]),
           set_workflow_history (workflow_history st ++ [entry])
             (set_task_queue (<[i := task]> (task_queue st)) st))
      end
  end.

(** The two filters of [list_workflow_tasks]; [true] means [continue]. *)
Definition list_skips (status assigned_agent : string) (task : WorkflowTask.t Json) : bool :=
  (truthy status
     && negb (bool_decide (TaskStatus_str (WorkflowTask.status task) = status)))
  || (truthy assigned_agent
     && negb (bool_decide (WorkflowTask.assigned_agent task = Some assigned_agent))).

Definition task_entry (task : WorkflowTask.t Json) : Val Json :=
  VDict [("task_id", VStr (WorkflowTask.task_id task));
         ("task_type", VStr (WorkflowTask.task_type task));
         ("status", VStr (TaskStatus_str (WorkflowTask.status task)));
         ("assigned_agent",
          if truthy_opt (WorkflowTask.assigned_agent task)
          then VOptStr (WorkflowTask.assigned_agent task)
          else VStr "unassigned");
         ("priority", VInt (WorkflowTask.priority task));
         ("created_at", VStr (WorkflowTask.created_at task));
         ("params", VJson (WorkflowTask.params task))].

Definition list_workflow_tasks (status assigned_agent : string) (st : State)
    : Val Json * State :=
  let results :=
    task_entry <$>
      filter (λ task, list_skips status assigned_agent task = false) (task_queue st) in
  (VDict [("status", VStr "success");
          ("total_tasks", VInt (Z.of_nat (length results)));
          ("tasks", VList results)],
   st).

(** *** Status and reset *)

(** [sum(1 for x in xs if test(x))] *)
Definition count_if {A} (test : A → bool) (xs : list A) : Z :=
  Z.of_nat (length (filter (λ x, test x = true) xs)).

Definition get_orchestration_status (st : State) : Val Json * State :=
  let active_agents :=
    count_if (λ '(_, a), bool_decide (AgentSession.status a = Active)) (agents st) in
  let pending_tasks :=
    count_if (λ t, bool_decide (WorkflowTask.status t = Pending)) (task_queue st) in
  let claimed_tasks :=
    count_if (λ t, bool_decide (WorkflowTask.status t = Claimed)) (task_queue st) in
  let completed_tasks := Z.of_nat (length (workflow_history st)) in
  (VDict [("status", VStr "success");
          ("orchestration", VDict [
             ("active_agents", VInt active_agents);
             ("total_agents", VInt (Z.of_nat (length (agents st))));
             ("pending_tasks", VInt pending_tasks);
             ("claimed_tasks", VInt claimed_tasks);
             ("completed_tasks", VInt completed_tasks);
             ("knowledge_atoms", VInt (Z.of_nat (length (knowledge_base st))))])],
   st).

Definition clear_orchestration_state (confirm : bool) (st : State) : Val Json * State :=
  if negb confirm then
    (error "Must set confirm=True to clear orchestration state", st)
  else
    (VDict [("status", VStr "success");
            ("message", VStr "Orchestration state cleared successfully")],
     {| agents := [];
        knowledge_base := [];
        task_queue := [];
        workflow_history := [];
        next_oid := next_oid st |}).

(** *** Calls

    One constructor per tool, with the arguments of the tool. *)
Inductive Call :=
  | RegisterAgent (agent_id agent_type capabilities : string)
  | ListActiveAgents
  | DeregisterAgent (agent_id : string)
  | ShareKnowledge (knowledge_type knowledge_content source_agent metadata : string)
  | QueryKnowledge (knowledge_type source_agent : string) (limit : Z)
  | CreateWorkflowTask (task_type task_params assigned_agent : string) (priority : Z)
  | ClaimWorkflowTask (agent_id task_id : string)
  | CompleteWorkflowTask (task_id result : string) (success : bool)
  | ListWorkflowTasks (status assigned_agent : string)
  | GetOrchestrationStatus
  | ClearOrchestrationState (confirm : bool).

(** What a call reads from its environment: the clock readings and the value
    of [int(time.time() * 1000)]. *)
Record Env := mkEnv {
  now : Clock;
  time_ms : Z
}.

(** A tool that raises nothing. *)
Definition returns (end_of_call : Val Json * State) : Outcome Json * State :=
  (Returns (fst end_of_call), snd end_of_call).

(** One call, run to its end under the lock: the tool returns or raises;
    either way the [with] block gives the lock back. *)
Definition exec (env : Env) (c : Call) (st : State) : Outcome Json * State :=
  match c with
  | RegisterAgent agent_id agent_type capabilities =>
      returns (register_agent (now env) agent_id agent_type capabilities st)
  | ListActiveAgents => returns (list_active_agents st)
  | DeregisterAgent agent_id => returns (deregister_agent agent_id st)
  | ShareKnowledge knowledge_type knowledge_content source_agent metadata =>
      share_knowledge (now env) (time_ms env)
        knowledge_type knowledge_content source_agent metadata st
  | QueryKnowledge knowledge_type source_agent limit =>
      returns (query_knowledge (now env) knowledge_type source_agent limit st)
  | CreateWorkflowTask task_type task_params assigned_agent priority =>
      create_workflow_task (now env) (time_ms env)
        task_type task_params assigned_agent priority st
  | ClaimWorkflowTask agent_id task_id =>
      returns (claim_workflow_task (now env) agent_id task_id st)
  | CompleteWorkflowTask task_id result success =>
      complete_workflow_task (now env) task_id result success st
  | ListWorkflowTasks status assigned_agent =>
      returns (list_workflow_tasks status assigned_agent st)
  | GetOrchestrationStatus => returns (get_orchestration_status st)
  | ClearOrchestrationState confirm => returns (clear_orchestration_state confirm st)
  end.

(** A sequence of calls, one after the other, whether they return or
    raise; the state after the last. *)
Fixpoint run (calls : list (Env * Call)) (st : State) : State :=
  match calls with
  | [] => st
  | (env, c) :: calls' => run calls' (snd (exec env c st))
  end.
End Tools.

Arguments State Json : clear implicits.

(** ** A concrete instance for the examples

    JSON documents as a datatype, and [json.loads] on the handful of
    documents the examples use.  [sample_loads] is only ever applied to the
    strings of its table and to strings that are not JSON. *)

(** [n] times the string [s]: [s * n]. *)
Fixpoint repeat_string (n : nat) (s : string) : string :=
  match n with
  | O => EmptyString
  | S n' => s +:+ repeat_string n' s
  end.

(** A thousand opening brackets, which is not a JSON document and is
    nested too deeply for the parser, and a number of 4301 digits, which is
    a JSON document. *)
Definition deep_brackets : string := repeat_string 1000 "[".

Definition long_number : string := repeat_string 4301 "1".

Inductive json :=
  | JNull
  | JBool (b : bool)
  | JNum (z : Z)
  | JStr (s : string)
  | JArr (l : list json)
  | JObj (l : list (string * json)).

Definition sample_loads (s : string) : Loaded json :=
  if String.eqb s "{}" then Value (JObj [])
  else if String.eqb s "true" then Value (JBool true)
  else if String.eqb s "[1, 2]" then Value (JArr [JNum 1; JNum 2])
  else if String.eqb s "null" then Value JNull
  else if String.eqb s deep_brackets then Raised "RecursionError"
  else if String.eqb s long_number then Raised "ValueError"
  else JSONDecodeError "Expecting value: line 1 column 1 (char 0)".

Global Instance json_JsonNull : JsonNull json := JNull.

(** ** What the statements below talk about *)

(** *** Responses and the states they come with *)

Section Responses.
Context {Json : Type} `{!JsonNull Json}.
Implicit Types (st : State Json) (agent : AgentSession.t Json)
  (task : WorkflowTask.t Json) (response entry : Val Json).

(** The response of a successful claim. *)
Definition claimed_response task : Val Json :=
  VDict [("status", VStr "success");
         ("task_id", VStr (WorkflowTask.task_id task));
         ("task_type", VStr (WorkflowTask.task_type task));
         ("params", VJson (WorkflowTask.params task));
         ("priority", VInt (WorkflowTask.priority task))].

(** The state that the claim of the task at position [i] leaves: the task
    is assigned to the caller, [claimed] and started at the first clock
    reading; the caller has one more task and is active at the second
    reading.  Nothing else differs from [st]. *)
Definition claimed_state (now : Clock) (agent_id : string) (i : nat)
    task agent st : State Json :=
  {| agents :=
       dict_set (agents st) agent_id
         {| AgentSession.agent_id := AgentSession.agent_id agent;
            AgentSession.agent_type := AgentSession.agent_type agent;
            AgentSession.capabilities := AgentSession.capabilities agent;
            AgentSession.created_at := AgentSession.created_at agent;
            AgentSession.last_active := now 1%nat;
            AgentSession.status := AgentSession.status agent;
            AgentSession.task_count := S (AgentSession.task_count agent);
            AgentSession.metadata := AgentSession.metadata agent |};
     knowledge_base := knowledge_base st;
     task_queue :=
       <[i := {| WorkflowTask.oid := WorkflowTask.oid task;
                 WorkflowTask.task_id := WorkflowTask.task_id task;
                 WorkflowTask.task_type := WorkflowTask.task_type task;
                 WorkflowTask.params := WorkflowTask.params task;
                 WorkflowTask.assigned_agent := Some agent_id;
                 WorkflowTask.priority := WorkflowTask.priority task;
                 WorkflowTask.status := Claimed;
                 WorkflowTask.created_at := WorkflowTask.created_at task;
                 WorkflowTask.started_at := Some (now 0%nat);
                 WorkflowTask.completed_at := WorkflowTask.completed_at task;
                 WorkflowTask.result := WorkflowTask.result task |}]>
         (task_queue st);
     workflow_history := workflow_history st;
     next_oid := next_oid st |}.

(** The ["atom_id"] of an entry of the ["atoms"] list. *)
Definition entry_atom_id entry : option string :=
  match field "atom_id" entry with
  | Some (VStr atom_id) => Some atom_id
  | _ => None
  end.

(** The ["atoms"] list of a response, and the ids it holds, in order. *)
Definition returned_atoms response : list (Val Json) :=
  match field "atoms" response with
  | Some (VList atoms) => atoms
  | _ => []
  end.

Definition returned_ids response : list string :=
  omap entry_atom_id (returned_atoms response).

(** The ["total_results"] of a response. *)
Definition total_results response : option Z :=
  match field "total_results" response with
  | Some (VInt n) => Some n
  | _ => None
  end.

(** The responses to a payload that is not JSON: the three
    "Invalid JSON in ..." errors. *)
Definition MalformedPayload response : Prop :=
  ∃ what e, response = error ("Invalid JSON in " +:+ what +:+ ": " +:+ e).

(** The response of [complete_workflow_task] to a task id it does not
    find. *)
Definition TaskNotFound (task_id : string) response : Prop :=
  response = error ("Task " +:+ task_id +:+ " not found").

(** The call is a completion of a task id that no task of the queue has. *)
Definition names_unknown_task (c : Call) st : Prop :=
  match c with
  | CompleteWorkflowTask task_id _ _ =>
      ∀ task, task ∈ task_queue st → WorkflowTask.task_id task ≠ task_id
  | _ => False
  end.
End Responses.

Section Payloads.
Context {Json : Type} `{!JsonNull Json}.
Variable json_loads : string → Loaded Json.

(** The payloads of a call, in the order in which the tool parses them. *)
Definition payloads (c : Call) : list string :=
  match c with
  | ShareKnowledge _ knowledge_content _ metadata => [knowledge_content; metadata]
  | CreateWorkflowTask _ task_params _ _ => [task_params]
  | CompleteWorkflowTask _ result _ => [result]
  | _ => []
  end.

(** A payload that is not taken: it is not empty, and [json.loads] returns
    no value for it. *)
Definition rejected (payload : string) : Prop :=
  payload ≠ EmptyString ∧ ∀ v, json_loads payload ≠ Value v.

(** The call carries a payload that is not taken. *)
Definition has_rejected_payload (c : Call) : Prop :=
  match c with
  | ShareKnowledge _ knowledge_content _ metadata =>
      rejected knowledge_content ∨ rejected metadata
  | CreateWorkflowTask _ task_params _ _ => rejected task_params
  | CompleteWorkflowTask _ result _ => rejected result
  | _ => False
  end.

(** The call returns one of the "Invalid JSON in ..." errors, for a payload
    on which [json.loads] raises [JSONDecodeError]. *)
Definition reports_malformed (c : Call) (outcome : Outcome Json) : Prop :=
  ∃ response payload e,
    outcome = Returns response
    ∧ MalformedPayload response
    ∧ payload ∈ payloads c
    ∧ payload ≠ EmptyString
    ∧ json_loads payload = JSONDecodeError e.

(** The call returns nothing: the exception that [json.loads] raises on one
    of its payloads, and that is no [JSONDecodeError], leaves the tool. *)
Definition raises_from_loads (c : Call) (outcome : Outcome Json) : Prop :=
  ∃ exc payload,
    outcome = Raises exc
    ∧ payload ∈ payloads c
    ∧ payload ≠ EmptyString
    ∧ json_loads payload = Raised exc.
End Payloads.

(** *** The order of the queue and the life of a task *)

(** Forward order of the statuses: pending, then claimed, then the two final
    statuses. *)
Definition status_rank (s : TaskStatus) : nat :=
  match s with
  | Pending => 0
  | Claimed => 1
  | Completed => 2
  | Failed => 2
  end.

Section QueueOrder.
Context {Json : Type} `{!JsonNull Json}.
Implicit Types (st : State Json) (t x y : WorkflowTask.t Json).

(** The order of the queue: by priority, highest first; among tasks of the
    same priority, the one built first comes first. *)
Definition task_before x y : Prop :=
  WorkflowTask.priority y < WorkflowTask.priority x
  ∨ (WorkflowTask.priority x = WorkflowTask.priority y
     ∧ (WorkflowTask.oid x < WorkflowTask.oid y)%nat).

(** Tasks of equal priority stand in the order they were built. *)
Definition ties_in_order x y : Prop :=
  WorkflowTask.priority x = WorkflowTask.priority y →
  (WorkflowTask.oid x < WorkflowTask.oid y)%nat.

(** What one call can do to the queue: nothing, empty it, add a new pending
    task and sort, or update one task in place, without touching its
    identity and priority, from pending to claimed or from any status to
    completed or failed. *)
Inductive queue_step st st' : Prop :=
  | queue_kept :
      task_queue st' = task_queue st →
      next_oid st' = next_oid st →
      queue_step st st'
  | queue_cleared :
      task_queue st' = [] →
      next_oid st' = next_oid st →
      queue_step st st'
  | queue_created t :
      task_queue st' = sort_by_priority (task_queue st ++ [t]) →
      WorkflowTask.oid t = next_oid st →
      WorkflowTask.status t = Pending →
      next_oid st' = S (next_oid st) →
      queue_step st st'
  | queue_updated i t t' :
      task_queue st !! i = Some t →
      task_queue st' = <[i := t']> (task_queue st) →
      next_oid st' = next_oid st →
      WorkflowTask.oid t' = WorkflowTask.oid t →
      WorkflowTask.priority t' = WorkflowTask.priority t →
      (WorkflowTask.status t = Pending ∧ WorkflowTask.status t' = Claimed)
      ∨ WorkflowTask.status t' = Completed
      ∨ WorkflowTask.status t' = Failed →
      queue_step st st'.

(** The queue is in order, its tasks are distinct objects, and all were
    built before the next one. *)
Definition queue_inv st : Prop :=
  StronglySorted task_before (task_queue st)
  ∧ NoDup (WorkflowTask.oid <$> task_queue st)
  ∧ Forall (λ t, (WorkflowTask.oid t < next_oid st)%nat) (task_queue st).
End QueueOrder.

(** *** Threads under the lock

    [claim_workflow_task] as the steps of a thread: enter the [with] block
    (acquire the lock), look for the agent and the task (the check), write
    the claim (the set), leave the block (release the lock), return. *)

(** The program points of a thread that runs [claim_workflow_task]. *)
Inductive Pc := AtAcquire | AtCheck | AtClaim | AtRelease | Returned.

(** [threading.RLock]: free, or held by a thread at a recursion level. *)
Abbreviation RLock := (option (nat * nat)) (only parsing).

(** [lock.acquire()] by thread [tid]; [None] when the thread must wait. *)
Definition acquire (tid : nat) (lock : RLock) : option RLock :=
  match lock with
  | None => Some (Some (tid, 1%nat))
  | Some (owner, level) =>
      if decide (owner = tid) then Some (Some (tid, S level)) else None
  end.

(** [lock.release()] by thread [tid]; [None] when the thread does not hold
    the lock. *)
Definition release (tid : nat) (lock : RLock) : option RLock :=
  match lock with
  | Some (owner, S level) =>
      if decide (owner = tid)
      then Some (match level with
                 | O => None
                 | S _ => Some (owner, level)
                 end)
      else None
  | _ => None
  end.

Section Threads.
Context {Json : Type} `{!JsonNull Json}.

(** A thread: the arguments of its call, its program point and its local
    variables.  [th_task_to_claim] refers to a task object by its place in
    the queue, which a claim does not change. *)
Record Thread := mkThread {
  th_agent_id : string;
  th_task_id : string;
  th_now : Clock;
  th_pc : Pc;
  th_task_to_claim : option nat;
  th_response : option (Val Json)
}.

(** A thread about to call [claim_workflow_task(agent_id, task_id)]. *)
Definition spawn (agent_id task_id : string) (now : Clock) : Thread :=
  mkThread agent_id task_id now AtAcquire None None.

Definition goto (pc : Pc) (th : Thread) : Thread :=
  mkThread (th_agent_id th) (th_task_id th) (th_now th) pc
    (th_task_to_claim th) (th_response th).

Definition set_task_to_claim (i : nat) (th : Thread) : Thread :=
  mkThread (th_agent_id th) (th_task_id th) (th_now th) (th_pc th)
    (Some i) (th_response th).

Definition set_response (r : Val Json) (th : Thread) : Thread :=
  mkThread (th_agent_id th) (th_task_id th) (th_now th) (th_pc th)
    (th_task_to_claim th) (Some r).

(** One step of thread [tid]; [None] when it waits for the lock or has
    returned. *)
Definition thread_step (tid : nat) (th : Thread) (lock : RLock) (st : State Json)
    : option (Thread * RLock * State Json) :=
  match th_pc th with
  | AtAcquire =>
      match acquire tid lock with
      | Some lock' => Some (goto AtCheck th, lock', st)
      | None => None
      end
  | AtCheck =>
      match dict_get (agents st) (th_agent_id th) with
      | None =>
          Some (goto AtRelease
                  (set_response
                     (error ("Agent " +:+ th_agent_id th +:+ " not registered")) th),
                lock, st)
      | Some _ =>
          match find_task_to_claim (th_task_id th) (task_queue st) with
          | None =>
              Some (goto AtRelease
                      (set_response (error "No available tasks to claim") th),
                    lock, st)
          | Some (i, _) => Some (goto AtClaim (set_task_to_claim i th), lock, st)
          end
      end
  | AtClaim =>
      match th_task_to_claim th with
      | Some i =>
          match task_queue st !! i, dict_get (agents st) (th_agent_id th) with
          | Some task, Some agent =>
              Some (goto AtRelease (set_response (claimed_response task) th),
                    lock,
                    claimed_state (th_now th) (th_agent_id th) i task agent st)
          | _, _ => None
          end
      | None => None
      end
  | AtRelease =>
      match release tid lock with
      | Some lock' => Some (goto Returned th, lock', st)
      | None => None
      end
  | Returned => None
  end.

(** The shared state, the lock and the threads. *)
Record Config := mkConfig {
  shared : State Json;
  lock : RLock;
  threads : list Thread
}.

(** The scheduler lets thread [tid] take one step. *)
Definition sched_step (tid : nat) (cfg : Config) : option Config :=
  match threads cfg !! tid with
  | None => None
  | Some th =>
      match thread_step tid th (lock cfg) (shared cfg) with
      | None => None
      | Some (th', lock', st') =>
          Some (mkConfig st' lock' (<[tid := th']> (threads cfg)))
      end
  end.

Definition step (cfg cfg' : Config) : Prop :=
  ∃ tid, sched_step tid cfg = Some cfg'.

(** A schedule: the thread to run at each step. *)
Fixpoint run_schedule (schedule : list nat) (cfg : Config) : option Config :=
  match schedule with
  | [] => Some cfg
  | tid :: schedule' =>
      match sched_step tid cfg with
      | None => None
      | Some cfg' => run_schedule schedule' cfg'
      end
  end.

(** Every thread has returned. *)
Definition terminal (cfg : Config) : Prop :=
  Forall (λ th, th_pc th = Returned) (threads cfg).

(** Two concurrent calls against a state. *)
Definition two_claims (st : State Json) (a b : Thread) : Config :=
  mkConfig st None [a; b].

(** The call of a thread, run without interruption. *)
Definition call_of (th : Thread) (st : State Json) : Val Json * State Json :=
  claim_workflow_task (th_now th) (th_agent_id th) (th_task_id th) st.
End Threads.
Arguments Thread Json : clear implicits.
Arguments Config Json : clear implicits.

(** *** Where two threads can be *)

Section Phases.
Context {Json : Type} `{!JsonNull Json}.
Implicit Types (th a b : Thread Json) (st s sb : State Json) (cfg : Config Json).

(** The position of the task that the call of the thread claims when it
    enters the [with] block in state [sb]; [None] when it claims none. *)
Definition claim_target th sb : option nat :=
  match dict_get (agents sb) (th_agent_id th) with
  | None => None
  | Some _ => fst <$> find_task_to_claim (th_task_id th) (task_queue sb)
  end.

(** The thread has not entered the [with] block yet. *)
Definition waiting th : Prop :=
  th_pc th = AtAcquire ∧ th_task_to_claim th = None.

(** The thread is inside the [with] block, entered in state [sb], and the
    shared state is now [s]. *)
Definition in_body th sb s : Prop :=
  match th_pc th with
  | AtCheck => s = sb ∧ th_task_to_claim th = None
  | AtClaim =>
      s = sb
      ∧ ∃ i task agent,
          th_task_to_claim th = Some i
          ∧ dict_get (agents sb) (th_agent_id th) = Some agent
          ∧ find_task_to_claim (th_task_id th) (task_queue sb) = Some (i, task)
  | AtRelease =>
      ∃ r, th_response th = Some r
        ∧ call_of th sb = (r, s)
        ∧ th_task_to_claim th = claim_target th sb
  | _ => False
  end.

(** The thread has returned; it entered the block in state [sb] and left it
    in state [s], with the response the uninterrupted call gives, having
    claimed the task this call claims. *)
Definition finished th sb s : Prop :=
  th_pc th = Returned
  ∧ ∃ r, th_response th = Some r
      ∧ call_of th sb = (r, s)
      ∧ th_task_to_claim th = claim_target th sb.

(** Same call arguments. *)
Definition same_call th th' : Prop :=
  th_agent_id th = th_agent_id th'
  ∧ th_task_id th = th_task_id th'
  ∧ th_now th = th_now th'.

(** The configurations two threads started in state [st0] can be in: the
    shared state, the lock and the two threads. *)
Inductive phase (st0 : State Json) : State Json → option (nat * nat) →
    Thread Json → Thread Json → Prop :=
  | ph_idle a b :
      waiting a → waiting b → phase st0 st0 None a b
  | ph_body_l a b s :
      in_body a st0 s → waiting b →
      phase st0 s (Some (0%nat, 1%nat)) a b
  | ph_body_r a b s :
      waiting a → in_body b st0 s →
      phase st0 s (Some (1%nat, 1%nat)) a b
  | ph_done_l a b s :
      finished a st0 s → waiting b → phase st0 s None a b
  | ph_done_r a b s :
      waiting a → finished b st0 s → phase st0 s None a b
  | ph_done_body_lr a b sa s :
      finished a st0 sa → in_body b sa s →
      phase st0 s (Some (1%nat, 1%nat)) a b
  | ph_done_body_rl a b sb s :
      finished b st0 sb → in_body a sb s →
      phase st0 s (Some (0%nat, 1%nat)) a b
  | ph_done_lr a b sa s :
      finished a st0 sa → finished b sa s → phase st0 s None a b
  | ph_done_rl a b sb s :
      finished b st0 sb → finished a sb s → phase st0 s None a b.

Definition inv (st0 : State Json) (a0 b0 : Thread Json) cfg : Prop :=
  ∃ a b, threads cfg = [a; b]
    ∧ same_call a0 a ∧ same_call b0 b
    ∧ phase st0 (shared cfg) (lock cfg) a b.

(** The number of steps a thread still has to take, at most. *)
Definition pc_weight (pc : Pc) : nat :=
  match pc with
  | AtAcquire => 4
  | AtCheck => 3
  | AtClaim => 2
  | AtRelease => 1
  | Returned => 0
  end.

Definition weight cfg : nat := sum_list (pc_weight ∘ th_pc <$> threads cfg).

(** One of two threads got the claim of [task], and the other the answer
    that there is nothing to claim. *)
Definition one_claims_other_none (task : WorkflowTask.t Json) cfg : Prop :=
  ∃ th1 th2,
    threads cfg = [th1; th2]
    ∧ ((th_response th1 = Some (claimed_response task)
        ∧ th_response th2 = Some (error "No available tasks to claim"))
       ∨ (th_response th2 = Some (claimed_response task)
          ∧ th_response th1 = Some (error "No available tasks to claim"))).
End Phases.

(** *** Sample runs *)

(** A clock whose readings are told apart: the k-th reading of the call
    labelled [label]. *)
Definition sample_clock (label : string) : Clock :=
  λ k, label +:+ "#" +:+ pretty k.

Definition sample_env (label : string) (ms : Z) : Env :=
  mkEnv (sample_clock label) ms.

Definition sample_exec := exec sample_loads (JObj []).
Definition sample_run := run sample_loads (JObj []).

(** Two agents and one task that nobody has claimed. *)
Definition sample_one_task : State json :=
  sample_run
    [(sample_env "t1" 1001, RegisterAgent "alice" "cursor" "blueprint_creation, level_design");
     (sample_env "t2" 1002, RegisterAgent "bob" "windsurf" EmptyString);
     (sample_env "t3" 1003, CreateWorkflowTask "create_actor" "{}" EmptyString 5)]
    initial_state.


(** One task and no agent. *)
Definition sample_no_agent : State json :=
  sample_run
    [(sample_env "t3" 1003, CreateWorkflowTask "create_actor" "{}" EmptyString 5)]
    initial_state.

(** Three atoms of two kinds. *)
Definition sample_atoms : State json :=
  sample_run
    [(sample_env "t1" 1001, ShareKnowledge "actor" "{}" "alice" EmptyString);
     (sample_env "t2" 1002, ShareKnowledge "blueprint" "[1, 2]" "bob" EmptyString);
     (sample_env "t3" 1003, ShareKnowledge "actor" "null" "bob" "{}")]
    initial_state.

(** The task of [sample_one_task], as [create_workflow_task] built it: the
    tool passes the empty string it was given for [assigned_agent] on to the
    constructor. *)
Definition sample_task : WorkflowTask.t json :=
  {| WorkflowTask.oid := 0;
     WorkflowTask.task_id := "task_1003";
     WorkflowTask.task_type := "create_actor";
     WorkflowTask.params := JObj [];
     WorkflowTask.assigned_agent := Some EmptyString;
     WorkflowTask.priority := 5;
     WorkflowTask.status := Pending;
     WorkflowTask.created_at := "t3#0";
     WorkflowTask.started_at := None;
     WorkflowTask.completed_at := None;
     WorkflowTask.result := JNull |}.

(** The sample task, claimed by alice and then completed. *)
Definition sample_task_done : WorkflowTask.t json :=
  WorkflowTask.complete true "c2#0" (JBool true)
    (WorkflowTask.claim "alice" "c1#0" sample_task).

(** The tasks A (priority 1), B (10), C (5) and D (5), created in this
    order. *)
Definition sample_four_tasks : list (Env * Call) :=
  [(sample_env "t1" 1001, CreateWorkflowTask "A" "{}" EmptyString 1);
   (sample_env "t2" 1002, CreateWorkflowTask "B" "{}" EmptyString 10);
   (sample_env "t3" 1003, CreateWorkflowTask "C" EmptyString EmptyString 5);
   (sample_env "t4" 1004, CreateWorkflowTask "D" "{}" "bob" 5)].

(** *** Reading the other responses, and measures of a state *)

(** The number of times a character occurs in a string. *)
Fixpoint count_char (c : ascii) (s : string) : nat :=
  match s with
  | EmptyString => 0
  | String a s' => (if decide (a = c) then 1 else 0) + count_char c s'
  end.

(** A string made of characters of [chars] only. *)
Inductive made_of (chars : list string) : string → Prop :=
  | made_of_nil : made_of chars EmptyString
  | made_of_cons c s : c ∈ chars → made_of chars s → made_of chars (c +:+ s).

(** The string starts, or ends, with a whitespace character. *)
Definition starts_with_space (s : string) : Prop :=
  ∃ c rest, c ∈ whitespace ∧ s = c +:+ rest.

Definition ends_with_space (s : string) : Prop :=
  ∃ c rest, c ∈ whitespace ∧ s = rest +:+ c.

(** [stripped] is [piece] without the whitespace at its two ends: what is
    left out on either side is whitespace, and what is kept neither starts
    nor ends with a whitespace character. *)
Definition stripped_of (piece stripped : string) : Prop :=
  ∃ left right,
    piece = left +:+ stripped +:+ right
    ∧ made_of whitespace left
    ∧ made_of whitespace right
    ∧ ¬ starts_with_space stripped
    ∧ ¬ ends_with_space stripped.

(** A completed or failed task. *)
Definition is_finished (s : TaskStatus) : bool :=
  match s with
  | Completed | Failed => true
  | _ => false
  end.

Section Observers.
Context {Json : Type} `{!JsonNull Json}.
Implicit Types (st : State Json) (response entry : Val Json).

(** The ["status"] of a response. *)
Definition response_status response : option string :=
  match field "status" response with
  | Some (VStr s) => Some s
  | _ => None
  end.

(** A field of a response that holds an integer. *)
Definition int_field (name : string) response : option Z :=
  match field name response with
  | Some (VInt n) => Some n
  | _ => None
  end.

(** A field of a response that holds a list. *)
Definition list_field (name : string) response : list (Val Json) :=
  match field name response with
  | Some (VList l) => l
  | _ => []
  end.

(** A count of the ["orchestration"] dictionary that
    [get_orchestration_status] returns. *)
Definition orchestration_count (name : string) response : option Z :=
  match field "orchestration" response with
  | Some counts => int_field name counts
  | None => None
  end.

(** The ["id"] and the ["status"] of an entry of [list_active_agents]. *)
Definition agent_entry_id_status entry : option (string * string) :=
  match field "id" entry, field "status" entry with
  | Some (VStr id), Some (VStr status) => Some (id, status)
  | _, _ => None
  end.

(** The agents [list_active_agents] lists, each with its status. *)
Definition listed_agents response : list (string * string) :=
  omap agent_entry_id_status (list_field "agents" response).

(** The atoms of the store that pass the filters of a query, in the order
    of the store, and their ids. *)
Definition matching_items (knowledge_type source_agent : string)
    (kb : dict (KnowledgeAtom.t Json)) : dict (KnowledgeAtom.t Json) :=
  filter (λ item, query_skips knowledge_type source_agent item.2 = false) kb.

Definition matching_ids (knowledge_type source_agent : string)
    (kb : dict (KnowledgeAtom.t Json)) : list string :=
  (matching_items knowledge_type source_agent kb).*1.

(** The entries a query builds for the atoms [hits], the first of them
    being the [r]-th entry of its list: each atom is touched at the clock
    reading made for it. *)
Fixpoint hit_entries (now : Clock) (r : nat)
    (hits : dict (KnowledgeAtom.t Json)) : list (Val Json) :=
  match hits with
  | [] => []
  | (atom_id, atom) :: hits' =>
      atom_entry atom_id (KnowledgeAtom.touch (now r) atom)
        :: hit_entries now (S r) hits'
  end.

(** The number of atoms a query with this limit returns at most: the limit,
    and one when the limit is lower. *)
Definition query_bound (limit : Z) : nat := Z.to_nat (Z.max 1 limit).

(** The tasks of the queue that are completed or failed, and those that
    were claimed at some time. *)
Definition finished_tasks st : list (WorkflowTask.t Json) :=
  filter (λ task, is_finished (WorkflowTask.status task) = true) (task_queue st).

Definition started_tasks st : list (WorkflowTask.t Json) :=
  filter (λ task, is_Some (WorkflowTask.started_at task)) (task_queue st).

(** The sum of the task counts of the agents. *)
Definition total_task_count st : nat :=
  sum_list ((λ item, AgentSession.task_count item.2) <$> agents st).

(** A call that empties the stores. *)
Definition clears (c : Call) : Prop := c = ClearOrchestrationState true.

(** What the attributes of a task have to do with its status.  The result
    says nothing about a completed or failed task: it is [None] before the
    completion, and the result that is given can be [None] too. *)
Definition task_fields_fit st (task : WorkflowTask.t Json) : Prop :=
  match WorkflowTask.status task with
  | Pending =>
      WorkflowTask.started_at task = None
      ∧ WorkflowTask.completed_at task = None
      ∧ WorkflowTask.result task = json_null
  | Claimed =>
      is_Some (WorkflowTask.started_at task)
      ∧ WorkflowTask.completed_at task = None
      ∧ WorkflowTask.result task = json_null
      ∧ ∃ agent_id,
          WorkflowTask.assigned_agent task = Some agent_id
          ∧ is_Some (dict_get (agents st) agent_id)
  | Completed | Failed =>
      is_Some (WorkflowTask.completed_at task)
  end.

(** The thread is inside the [with] block. *)
Definition inside (th : Thread Json) : Prop :=
  th_pc th = AtCheck ∨ th_pc th = AtClaim ∨ th_pc th = AtRelease.
End Observers.

Global Instance clears_dec (c : Call) : Decision (clears c).
Proof. unfold clears. solve_decision. Defined.

(** *** What a call does to the state *)

Section Updates.
Context {Json : Type} `{!JsonNull Json}.
Implicit Types (st : State Json) (agent : AgentSession.t Json)
  (task : WorkflowTask.t Json).

(** Two sessions of the same agent: only [last_active] and [status] may
    differ. *)
Definition same_session agent agent' : Prop :=
  AgentSession.agent_id agent' = AgentSession.agent_id agent
  ∧ AgentSession.agent_type agent' = AgentSession.agent_type agent
  ∧ AgentSession.capabilities agent' = AgentSession.capabilities agent
  ∧ AgentSession.created_at agent' = AgentSession.created_at agent
  ∧ AgentSession.task_count agent' = AgentSession.task_count agent
  ∧ AgentSession.metadata agent' = AgentSession.metadata agent.

(** The state after a confirmed [clear_orchestration_state]. *)
Definition cleared st : State Json :=
  {| agents := [];
     knowledge_base := [];
     task_queue := [];
     workflow_history := [];
     next_oid := next_oid st |}.

(** What one call other than a confirmed clear does to the state: nothing;
    a change of the knowledge base; a new session; a change of the status
    and the last activity of a session; a new pending task, sorted in; the
    claim of a pending task by a registered agent; the completion of a
    task, with its record in the history. *)
Inductive update st st' : Prop :=
  | update_none :
      st' = st → update st st'
  | update_knowledge kb :
      st' = set_knowledge_base kb st → update st st'
  | update_registered agent_id agent :
      dict_get (agents st) agent_id = None →
      AgentSession.agent_id agent = agent_id →
      AgentSession.task_count agent = 0%nat →
      st' = set_agents (dict_set (agents st) agent_id agent) st →
      update st st'
  | update_session agent_id agent agent' :
      dict_get (agents st) agent_id = Some agent →
      same_session agent agent' →
      st' = set_agents (dict_set (agents st) agent_id agent') st →
      update st st'
  | update_created (now : Clock) (task_id task_type : string) (params : Json)
      (assigned_agent : string) (priority : Z) :
      st' = {| agents := agents st;
               knowledge_base := knowledge_base st;
               task_queue :=
                 sort_by_priority
                   (task_queue st
                    ++ [WorkflowTask.init (next_oid st) now task_id task_type params
                          (Some assigned_agent) priority]);
               workflow_history := workflow_history st;
               next_oid := S (next_oid st) |} →
      update st st'
  | update_claimed (now : Clock) agent_id i task agent :
      dict_get (agents st) agent_id = Some agent →
      task_queue st !! i = Some task →
      WorkflowTask.status task = Pending →
      st' = claimed_state now agent_id i task agent st →
      update st st'
  | update_completed i task (success : bool) (ts : timestamp) (result_data : Json)
      (entry : Val Json) :
      task_queue st !! i = Some task →
      st' = set_workflow_history (workflow_history st ++ [entry])
              (set_task_queue
                 (<[i := WorkflowTask.complete success ts result_data task]>
                    (task_queue st)) st) →
      update st st'.

(** The state is consistent: every session is stored under its own id, one
    session per id; the attributes of every task fit its status; the task
    counts of the agents add up to the number of tasks that were claimed;
    and the history is at least as long as the list of completed and failed
    tasks. *)
Definition consistent st : Prop :=
  Forall (λ item, AgentSession.agent_id item.2 = item.1) (agents st)
  ∧ NoDup (agents st).*1
  ∧ Forall (task_fields_fit st) (task_queue st)
  ∧ total_task_count st = length (started_tasks st)
  ∧ (length (finished_tasks st) ≤ length (workflow_history st))%nat.

(** The same task object at two times: what a claim or a completion never
    changes. *)
Definition same_identity task task' : Prop :=
  WorkflowTask.oid task' = WorkflowTask.oid task
  ∧ WorkflowTask.task_id task' = WorkflowTask.task_id task
  ∧ WorkflowTask.task_type task' = WorkflowTask.task_type task
  ∧ WorkflowTask.params task' = WorkflowTask.params task
  ∧ WorkflowTask.priority task' = WorkflowTask.priority task
  ∧ WorkflowTask.created_at task' = WorkflowTask.created_at task.

(** The same session at two times: what no call changes, and a task count
    that has not gone down. *)
Definition session_continues agent agent' : Prop :=
  AgentSession.agent_id agent' = AgentSession.agent_id agent
  ∧ AgentSession.agent_type agent' = AgentSession.agent_type agent
  ∧ AgentSession.capabilities agent' = AgentSession.capabilities agent
  ∧ AgentSession.created_at agent' = AgentSession.created_at agent
  ∧ AgentSession.metadata agent' = AgentSession.metadata agent
  ∧ (AgentSession.task_count agent ≤ AgentSession.task_count agent')%nat.

(** A sequence of calls with no confirmed clear among them. *)
Definition no_clear (calls : list (Env * Call)) : Prop :=
  Forall (λ call, ¬ clears call.2) calls.
End Updates.

(** *** More sample runs *)

(** The calls that build [sample_one_task]. *)
Definition sample_setup : list (Env * Call) :=
  [(sample_env "t1" 1001, RegisterAgent "alice" "cursor" "blueprint_creation, level_design");
   (sample_env "t2" 1002, RegisterAgent "bob" "windsurf" EmptyString);
   (sample_env "t3" 1003, CreateWorkflowTask "create_actor" "{}" EmptyString 5)].

(** Alice claims the sample task and completes it; she is deregistered in
    between. *)
Definition sample_work : list (Env * Call) :=
  [(sample_env "c1" 2001, ClaimWorkflowTask "alice" EmptyString);
   (sample_env "c2" 2002, DeregisterAgent "alice");
   (sample_env "c3" 2003, CompleteWorkflowTask "task_1003" "true" true)].

(** What follows: one more task, which bob claims and fails. *)
Definition sample_more_work : list (Env * Call) :=
  [(sample_env "d1" 3001, CreateWorkflowTask "create_level" "{}" EmptyString 7);
   (sample_env "d2" 3002, ClaimWorkflowTask "bob" "task_3001");
   (sample_env "d3" 3003, CompleteWorkflowTask "task_3001" "null" false)].

(** The state after the work of alice. *)
Definition sample_worked : State json := sample_run sample_work sample_one_task.

(** The four sample tasks, and alice registered after them. *)
Definition sample_four_tasks_one_agent : list (Env * Call) :=
  sample_four_tasks ++ [(sample_env "t5" 1005, RegisterAgent "alice" "cursor" EmptyString)].

(** The session of alice in [sample_one_task]. *)
Definition sample_alice : AgentSession.t json :=
  {| AgentSession.agent_id := "alice";
     AgentSession.agent_type := "cursor";
     AgentSession.capabilities := ["blueprint_creation"; "level_design"];
     AgentSession.created_at := "t1#0";
     AgentSession.last_active := "t1#1";
     AgentSession.status := Active;
     AgentSession.task_count := 0;
     AgentSession.metadata := [] |}.

(** * Properties *)

(** ** Dictionaries and truth values *)

Section DictFacts.
Context {V : Type}.
Implicit Types (d : list (string * V)) (k : string) (v : V).

Lemma dict_get_set_eq d k v : dict_get (dict_set d k v) k = Some v.
Proof.
  induction d as [|[k' v'] d IH]; simpl.
  - by rewrite decide_True.
  - destruct (decide (k' = k)) as [->|Hne]; simpl.
    + by rewrite decide_True.
    + by rewrite decide_False.
Qed.

Lemma dict_get_set_ne d k k' v : k ≠ k' → dict_get (dict_set d k v) k' = dict_get d k'.
Proof.
  intros Hne. induction d as [|[k0 v0] d IH]; simpl.
  - by rewrite decide_False.
  - destruct (decide (k0 = k)) as [->|Hne0]; simpl.
    + by rewrite !decide_False.
    + by rewrite IH.
Qed.

(** Assigning to a key that is present keeps the keys and their order. *)
Lemma dict_set_keys d k v : is_Some (dict_get d k) → (dict_set d k v).*1 = d.*1.
Proof.
  induction d as [|[k0 v0] d IH]; simpl.
  - by intros [? ?].
  - destruct (decide (k0 = k)) as [->|Hne]; simpl; [done|].
    intros H. f_equal. by apply IH.
Qed.

(** Assigning to a new key puts it last. *)
Lemma dict_set_keys_new d k v : dict_get d k = None → (dict_set d k v).*1 = d.*1 ++ [k].
Proof.
  induction d as [|[k0 v0] d IH]; simpl; [done|].
  destruct (decide (k0 = k)) as [->|Hne]; simpl; [done|].
  intros H. f_equal. by apply IH.
Qed.

Lemma dict_get_Some_elem d k v : dict_get d k = Some v → (k, v) ∈ d.
Proof.
  induction d as [|[k0 v0] d IH]; simpl; [done|].
  destruct (decide (k0 = k)) as [->|Hne].
  - intros [= ->]. left.
  - intros H. right. auto.
Qed.

Lemma dict_get_None d k : dict_get d k = None ↔ k ∉ d.*1.
Proof.
  induction d as [|[k0 v0] d IH]; simpl.
  - split; [intros _; apply not_elem_of_nil | done].
  - destruct (decide (k0 = k)) as [->|Hne].
    + split; [done|]. intros H. exfalso. apply H. left.
    + rewrite IH, not_elem_of_cons. intuition congruence.
Qed.

(** A dictionary has one entry per key, and assignments keep it so. *)
Lemma dict_set_NoDup d k v : NoDup d.*1 → NoDup (dict_set d k v).*1.
Proof.
  intros Hnd. destruct (dict_get d k) as [v0|] eqn:Hget.
  - rewrite dict_set_keys; [done|]. by rewrite Hget.
  - rewrite dict_set_keys_new by done.
    apply NoDup_app. split_and!; [done| |apply NoDup_singleton].
    intros x Hx ->%list_elem_of_singleton. by apply dict_get_None in Hget.
Qed.

Lemma dict_set_length_present d k v :
  is_Some (dict_get d k) → length (dict_set d k v) = length d.
Proof.
  intros H. rewrite <- (length_fmap fst (dict_set d k v)), <- (length_fmap fst d).
  by rewrite dict_set_keys.
Qed.
End DictFacts.

Lemma truthy_empty : truthy EmptyString = false.
Proof. reflexivity. Qed.

Lemma truthy_true s : truthy s = true ↔ s ≠ EmptyString.
Proof.
  unfold truthy. destruct (String.eqb_spec s EmptyString); simpl; naive_solver.
Qed.

(** ** Re-registration *)

Section RegisterFacts.
Context {Json : Type} `{!JsonNull Json}.
Implicit Types (st : State Json) (agent : AgentSession.t Json).

(** C9.  Registering an [agent_id] that is in the registry keeps the
    session's agent type, capabilities, creation time, task count and
    metadata, whatever agent type and capabilities the call supplies; the
    session gets the clock reading of the call as [last_active] and the
    status [active].  The other sessions, the order of the registry and the
    other stores are unchanged. *)
Theorem register_agent_existing (now : Clock)
    (agent_id agent_type capabilities : string) st agent :
  dict_get (agents st) agent_id = Some agent →
  let st' := snd (register_agent now agent_id agent_type capabilities st) in
  dict_get (agents st') agent_id =
    Some {| AgentSession.agent_id := AgentSession.agent_id agent;
            AgentSession.agent_type := AgentSession.agent_type agent;
            AgentSession.capabilities := AgentSession.capabilities agent;
            AgentSession.created_at := AgentSession.created_at agent;
            AgentSession.last_active := now 0%nat;
            AgentSession.status := Active;
            AgentSession.task_count := AgentSession.task_count agent;
            AgentSession.metadata := AgentSession.metadata agent |}
  ∧ (∀ other, other ≠ agent_id →
       dict_get (agents st') other = dict_get (agents st) other)
  ∧ (agents st').*1 = (agents st).*1
  ∧ knowledge_base st' = knowledge_base st
  ∧ task_queue st' = task_queue st
  ∧ workflow_history st' = workflow_history st.
Proof.
  intros Hget st'. subst st'. unfold register_agent. rewrite Hget. simpl.
  split_and!; try done.
  - by rewrite dict_get_set_eq.
  - intros other Hne. by rewrite dict_get_set_ne.
  - apply dict_set_keys. by rewrite Hget.
Qed.
End RegisterFacts.

(** ** Claims *)

Section ClaimFacts.
Context {Json : Type} `{!JsonNull Json}.
Implicit Types (st : State Json) (agent : AgentSession.t Json)
  (task : WorkflowTask.t Json) (queue : list (WorkflowTask.t Json)).

Lemma claim_workflow_task_found now agent_id task_id st agent i task :
  dict_get (agents st) agent_id = Some agent →
  find_task_to_claim task_id (task_queue st) = Some (i, task) →
  claim_workflow_task now agent_id task_id st =
    (claimed_response task, claimed_state now agent_id i task agent st).
Proof.
  intros Hagent Hfind. unfold claim_workflow_task. by rewrite Hagent, Hfind.
Qed.

Lemma claim_workflow_task_none now agent_id task_id st agent :
  dict_get (agents st) agent_id = Some agent →
  find_task_to_claim task_id (task_queue st) = None →
  claim_workflow_task now agent_id task_id st =
    (error "No available tasks to claim", st).
Proof.
  intros Hagent Hfind. unfold claim_workflow_task. by rewrite Hagent, Hfind.
Qed.

Lemma claim_workflow_task_unregistered now agent_id task_id st :
  dict_get (agents st) agent_id = None →
  claim_workflow_task now agent_id task_id st =
    (error ("Agent " +:+ agent_id +:+ " not registered"), st).
Proof. intros Hagent. unfold claim_workflow_task. by rewrite Hagent. Qed.

(** C7.  A claim with no task id by a registered agent takes the first
    task of the queue that is pending and has no assigned agent: the
    response is that of a success for this task, and the state is
    [claimed_state], in which the task is claimed, assigned to the caller
    and started at the clock reading of the call, and the caller's task
    count is one higher.  When the queue has no such task, the response is
    the error "No available tasks to claim" and the state is unchanged. *)
Theorem claim_workflow_task_auto (now : Clock) (agent_id : string) st agent :
  dict_get (agents st) agent_id = Some agent →
  (∀ i task,
     task_queue st !! i = Some task →
     claimable_auto task →
     (∀ j task', task_queue st !! j = Some task' → (j < i)%nat → ¬ claimable_auto task') →
     claim_workflow_task now agent_id EmptyString st =
       (claimed_response task, claimed_state now agent_id i task agent st))
  ∧ ((∀ task, task ∈ task_queue st → ¬ claimable_auto task) →
     claim_workflow_task now agent_id EmptyString st =
       (error "No available tasks to claim", st)).
Proof.
  intros Hagent. split.
  - intros i task Hi Htask Hfirst.
    apply claim_workflow_task_found; [done|].
    unfold find_task_to_claim. rewrite truthy_empty.
    by apply list_find_Some.
  - intros Hnone. eapply claim_workflow_task_none; [done|].
    unfold find_task_to_claim. rewrite truthy_empty.
    apply list_find_None, Forall_forall. done.
Qed.

End ClaimFacts.

(** ** Payloads *)

Section PayloadFacts.
Context {Json : Type} `{!JsonNull Json}.
Variable json_loads : string → Loaded Json.
Variable empty_dict : Json.

Lemma loads_or_empty_empty :
  loads_or_empty json_loads empty_dict EmptyString = Value empty_dict.
Proof. reflexivity. Qed.

Lemma loads_or_empty_truthy payload :
  payload ≠ EmptyString →
  loads_or_empty json_loads empty_dict payload = json_loads payload.
Proof. intros Hne. unfold loads_or_empty. apply truthy_true in Hne. by rewrite Hne. Qed.

(** A payload for which no value comes back is not empty, and [json.loads]
    has raised on it. *)
Lemma loads_or_empty_failed payload :
  (∀ v, loads_or_empty json_loads empty_dict payload ≠ Value v) →
  payload ≠ EmptyString
  ∧ loads_or_empty json_loads empty_dict payload = json_loads payload.
Proof.
  intros Hfail.
  assert (payload ≠ EmptyString) as Hne.
  { intros ->. by apply (Hfail empty_dict). }
  split; [done|]. by apply loads_or_empty_truthy.
Qed.

Lemma loads_or_empty_rejected payload :
  rejected json_loads payload →
  ∀ v, loads_or_empty json_loads empty_dict payload ≠ Value v.
Proof. intros [Hne Hno] v. rewrite loads_or_empty_truthy by done. apply Hno. Qed.

(** What a tool does with the payload it could not parse. *)
Lemma failed_payload_outcome (c : Call) payload what (st : State Json) :
  payload ∈ payloads c →
  (∀ v, loads_or_empty json_loads empty_dict payload ≠ Value v) →
  let outcome :=
    match loads_or_empty json_loads empty_dict payload with
    | Value _ => Raises EmptyString
    | JSONDecodeError e => Returns (error ("Invalid JSON in " +:+ what +:+ ": " +:+ e))
    | Raised exc => Raises exc
    end in
  reports_malformed json_loads c outcome ∨ raises_from_loads json_loads c outcome.
Proof.
  intros Hin Hfail. destruct (loads_or_empty_failed payload Hfail) as [Hne Heq].
  cbv zeta.
  destruct (loads_or_empty json_loads empty_dict payload) as [v|e|exc] eqn:Hload.
  - by destruct (Hfail v).
  - left. exists (error ("Invalid JSON in " +:+ what +:+ ": " +:+ e)), payload, e.
    split_and!; [done|by exists what, e|done|done|by rewrite <- Heq].
  - right. exists exc, payload. split_and!; [done|done|done|by rewrite <- Heq].
Qed.

(** C8, amended.  A share-knowledge, create-task or complete-task call
    with a payload that is not empty and for which [json.loads] returns no
    value leaves every store as it was.  A completion that names a task id
    the queue does not hold returns "Task ... not found": the task is looked
    up before the result is parsed.  Every other such call either returns
    one of the "Invalid JSON in ..." errors, when [json.loads] raises
    [JSONDecodeError] on a payload of the call, or returns nothing, when
    [json.loads] raises another exception on it: the tools catch
    [JSONDecodeError] only, and the other exception leaves the tool. *)
Theorem malformed_payload_rejected (env : Env) (c : Call) (st : State Json) :
  has_rejected_payload json_loads c →
  snd (exec json_loads empty_dict env c st) = st
  ∧ (¬ names_unknown_task c st →
     reports_malformed json_loads c (fst (exec json_loads empty_dict env c st))
     ∨ raises_from_loads json_loads c (fst (exec json_loads empty_dict env c st)))
  ∧ (names_unknown_task c st →
     ∃ task_id result success response,
       c = CompleteWorkflowTask task_id result success
       ∧ fst (exec json_loads empty_dict env c st) = Returns response
       ∧ TaskNotFound task_id response).
Proof.
  destruct c; cbn [has_rejected_payload names_unknown_task exec]; try done.
  - intros Hrej. unfold share_knowledge.
    destruct (loads_or_empty json_loads empty_dict knowledge_content)
      as [content|e|exc] eqn:Hkc.
    + destruct Hrej as [Hrej|Hrej].
      { pose proof (loads_or_empty_rejected _ Hrej) as Hno. by destruct (Hno content). }
      pose proof (loads_or_empty_rejected _ Hrej) as Hno.
      pose proof (failed_payload_outcome
        (ShareKnowledge knowledge_type knowledge_content source_agent metadata)
        metadata "content or metadata" st) as Hout.
      cbv zeta in Hout.
      destruct (loads_or_empty json_loads empty_dict metadata) as [meta|e|exc].
      * by destruct (Hno meta).
      * split_and!; [done| |done]. intros _. apply Hout; [|done].
        cbn [payloads]. repeat constructor.
      * split_and!; [done| |done]. intros _. apply Hout; [|done].
        cbn [payloads]. repeat constructor.
    + pose proof (failed_payload_outcome
        (ShareKnowledge knowledge_type knowledge_content source_agent metadata)
        knowledge_content "content or metadata" st) as Hout.
      cbv zeta in Hout. rewrite Hkc in Hout.
      split_and!; [done| |done]. intros _. apply Hout; [|done].
      cbn [payloads]. repeat constructor.
    + pose proof (failed_payload_outcome
        (ShareKnowledge knowledge_type knowledge_content source_agent metadata)
        knowledge_content "content or metadata" st) as Hout.
      cbv zeta in Hout. rewrite Hkc in Hout.
      split_and!; [done| |done]. intros _. apply Hout; [|done].
      cbn [payloads]. repeat constructor.
  - intros Hrej. unfold create_workflow_task.
    pose proof (loads_or_empty_rejected _ Hrej) as Hno.
    pose proof (failed_payload_outcome
      (CreateWorkflowTask task_type task_params assigned_agent priority)
      task_params "task_params" st) as Hout.
    cbv zeta in Hout.
    destruct (loads_or_empty json_loads empty_dict task_params) as [params|e|exc].
    + by destruct (Hno params).
    + split_and!; [done| |done]. intros _. apply Hout; [|done].
      cbn [payloads]. repeat constructor.
    + split_and!; [done| |done]. intros _. apply Hout; [|done].
      cbn [payloads]. repeat constructor.
  - intros Hrej. unfold complete_workflow_task.
    pose proof (loads_or_empty_rejected _ Hrej) as Hno.
    pose proof (failed_payload_outcome
      (CompleteWorkflowTask task_id result success) result "result" st) as Hout.
    cbv zeta in Hout.
    destruct (list_find _ _) as [[i task]|] eqn:Hfind.
    + apply list_find_Some in Hfind as (Hi & Hid & _).
      assert (¬ ∀ task', task' ∈ task_queue st → WorkflowTask.task_id task' ≠ task_id)
        as Hknown.
      { intros Hnone. eapply Hnone; [|done]. by eapply list_elem_of_lookup_2. }
      destruct (loads_or_empty json_loads empty_dict result) as [result_data|e|exc].
      * by destruct (Hno result_data).
      * split_and!; [done| |done]. intros _. apply Hout; [|done].
        cbn [payloads]. repeat constructor.
      * split_and!; [done| |done]. intros _. apply Hout; [|done].
        cbn [payloads]. repeat constructor.
    + split_and!; [done| |].
      * intros Hknown. exfalso. apply Hknown. intros task Hin.
        eapply list_find_None in Hfind. rewrite Forall_forall in Hfind.
        by apply Hfind.
      * intros _. by eexists task_id, result, success, _.
Qed.
End PayloadFacts.

(** ** Queries *)

Section QueryFacts.
Context {Json : Type} `{!JsonNull Json}.
Implicit Types (st : State Json) (atom : KnowledgeAtom.t Json)
  (items : list (string * KnowledgeAtom.t Json)) (results : list (Val Json)).

Lemma entry_atom_id_atom_entry atom_id atom :
  entry_atom_id (atom_entry atom_id atom) = Some atom_id.
Proof. reflexivity. Qed.

Lemma omap_entry_atom_id (hits : list (string * KnowledgeAtom.t Json)) :
  omap entry_atom_id ((λ hit, atom_entry hit.1 hit.2) <$> hits) = hits.*1.
Proof.
  induction hits as [|[id a] hits IH]; [done|].
  rewrite !fmap_cons. cbn [omap list_omap]. 
  rewrite entry_atom_id_atom_entry. simpl. f_equal. apply IH.
Qed.

Lemma lookup_fst_elem {A B} (l : list (A * B)) k x y :
  l !! k = Some (x, y) → x ∈ l.*1.
Proof.
  intros Hk. apply list_elem_of_fmap. exists (x, y).
  split; [done|]. by eapply list_elem_of_lookup_2.
Qed.

(** What the loop does, in terms of the atoms it hits: [hits] lists, in the
    order of the store, the atoms that were appended, as updated. *)
Lemma query_loop_spec now kt sa limit items : ∀ results items' results',
  NoDup items.*1 →
  query_loop now kt sa limit items results = (items', results') →
  ∃ hits : list (string * KnowledgeAtom.t Json),
    results' = results ++ ((λ hit, atom_entry hit.1 hit.2) <$> hits)
    ∧ items'.*1 = items.*1
    ∧ hits.*1 ⊆ items.*1
    ∧ NoDup hits.*1
    ∧ (∀ k atom_id atom', hits !! k = Some (atom_id, atom') →
         ∃ atom, dict_get items atom_id = Some atom
           ∧ query_skips kt sa atom = false
           ∧ atom' = KnowledgeAtom.touch (now (length results + k)%nat) atom
           ∧ dict_get items' atom_id = Some atom')
    ∧ (∀ atom_id, atom_id ∉ hits.*1 → dict_get items' atom_id = dict_get items atom_id).
Proof.
  induction items as [|[id a] items IH]; intros results items' results' Hnd Hloop.
  - simpl in Hloop. injection Hloop as <- <-. exists [].
    rewrite app_nil_r. split_and!; try done; try apply NoDup_nil_2.
  - rewrite fmap_cons in Hnd. apply NoDup_cons in Hnd as [Hid Hnd].
    cbn [query_loop] in Hloop.
    destruct (query_skips kt sa a) eqn:Hskip.
    + destruct (query_loop now kt sa limit items results) as [rest' res'] eqn:Hrec.
      injection Hloop as <- <-.
      destruct (IH _ _ _ Hnd Hrec) as (hits & -> & Hkeys & Hsub & Hndh & Hhit & Hmiss).
      exists hits. split_and!; try done.
      * rewrite !fmap_cons. by f_equal.
      * rewrite fmap_cons. intros x Hx. right. by apply Hsub.
      * intros k atom_id atom' Hk.
        assert (id ≠ atom_id) as Hne.
        { intros ->. apply Hid, Hsub. by eapply lookup_fst_elem. }
        destruct (Hhit _ _ _ Hk) as (atom & Hget & Hsk & -> & Hget').
        exists atom. cbn [dict_get]. rewrite !decide_False by done. done.
      * intros atom_id Hnot. cbn [dict_get].
        destruct (decide (id = atom_id)); [done|]. by apply Hmiss.
    + set (a' := KnowledgeAtom.touch (now (length results)) a) in *.
      destruct (Z.of_nat (length (results ++ [atom_entry id a'])) >=? limit) eqn:Hlim.
      * injection Hloop as <- <-. exists [(id, a')].
        split_and!; try done.
        -- rewrite fmap_cons. intros x Hx. apply list_elem_of_singleton in Hx as ->. left.
        -- apply NoDup_singleton.
        -- intros k atom_id atom' Hk. destruct k as [|k]; [|done].
           injection Hk as <- <-. exists a. cbn [dict_get].
           rewrite !decide_True by done. rewrite Nat.add_0_r. done.
        -- intros atom_id Hnot. cbn [dict_get].
           destruct (decide (id = atom_id)) as [->|Hne]; [|done].
           exfalso. apply Hnot. left.
      * destruct (query_loop now kt sa limit items (results ++ [atom_entry id a']))
          as [rest' res'] eqn:Hrec.
        injection Hloop as <- <-.
        destruct (IH _ _ _ Hnd Hrec) as (hits & -> & Hkeys & Hsub & Hndh & Hhit & Hmiss).
        exists ((id, a') :: hits). split_and!.
        -- by rewrite <- app_assoc.
        -- rewrite !fmap_cons. by f_equal.
        -- rewrite !fmap_cons. intros x Hx. apply elem_of_cons in Hx as [->|Hx]; apply elem_of_cons.
           ++ by left.
           ++ right. by apply Hsub.
        -- rewrite fmap_cons. apply NoDup_cons_2; [|done].
           intros Hin. by apply Hid, Hsub.
        -- intros k atom_id atom' Hk. destruct k as [|k].
           ++ injection Hk as <- <-. exists a. cbn [dict_get].
              rewrite !decide_True by done. rewrite Nat.add_0_r. done.
           ++ cbn in Hk.
              assert (id ≠ atom_id) as Hne.
              { intros ->. apply Hid, Hsub. by eapply lookup_fst_elem. }
              destruct (Hhit _ _ _ Hk) as (atom & Hget & Hsk & -> & Hget').
              exists atom. cbn [dict_get]. rewrite !decide_False by done.
              rewrite length_app in *. cbn [length] in *.
              replace (length results + S k)%nat with (length results + 1 + k)%nat by lia.
              done.
        -- intros atom_id Hnot. rewrite fmap_cons in Hnot.
           apply not_elem_of_cons in Hnot as [Hne Hnot].
           cbn [dict_get]. rewrite !decide_False by done. by apply Hmiss.
Qed.

(** The number of results is at most the limit, when the limit is at least
    one. *)
Lemma query_loop_length now kt sa limit items : ∀ results items' results',
  (Z.of_nat (length results) < limit) →
  query_loop now kt sa limit items results = (items', results') →
  Z.of_nat (length results') ≤ limit.
Proof.
  induction items as [|[id a] items IH]; intros results items' results' Hlt Hloop.
  - simpl in Hloop. injection Hloop as <- <-. lia.
  - cbn [query_loop] in Hloop.
    destruct (query_skips kt sa a).
    + destruct (query_loop now kt sa limit items results) as [rest' res'] eqn:Hrec.
      injection Hloop as <- <-. by eapply IH.
    + destruct (Z.of_nat (length (results ++ _)) >=? limit) eqn:Hlim.
      * injection Hloop as <- <-. rewrite length_app in *. simpl in *. lia.
      * destruct (query_loop now kt sa limit items (results ++ _)) as [rest' res'] eqn:Hrec.
        injection Hloop as <- <-. eapply IH; [|done]. lia.
Qed.
Lemma query_knowledge_unfold now kt sa limit st :
  query_knowledge now kt sa limit st =
    (VDict [("status", VStr "success");
            ("total_results",
             VInt (Z.of_nat (length (query_loop now kt sa limit (knowledge_base st) []).2)));
            ("atoms", VList (query_loop now kt sa limit (knowledge_base st) []).2)],
     set_knowledge_base (query_loop now kt sa limit (knowledge_base st) []).1 st).
Proof.
  unfold query_knowledge.
  by destruct (query_loop now kt sa limit (knowledge_base st) []).
Qed.

(** C5.  A query touches the atoms it returns and no other.  The store
    is a dictionary, with one atom per key ([run_knowledge_base_NoDup]
    below); the ids of the returned list are distinct, and the store keeps
    its keys in their order.  An atom returned at position [k] of the list has its access
    count one higher and [last_accessed] set to the clock reading the query
    made for it (the [k]-th one), its other attributes being unchanged; an
    atom that is not returned, because a filter excluded it or because the
    limit was reached before it, is unchanged. *)
Theorem query_knowledge_access_tracking (now : Clock)
    (knowledge_type source_agent : string) (limit : Z) st :
  NoDup (knowledge_base st).*1 →
  let response := fst (query_knowledge now knowledge_type source_agent limit st) in
  let st' := snd (query_knowledge now knowledge_type source_agent limit st) in
  NoDup (returned_ids response)
  ∧ (knowledge_base st').*1 = (knowledge_base st).*1
  ∧ (∀ atom_id atom,
       dict_get (knowledge_base st) atom_id = Some atom →
       (∀ k, returned_ids response !! k = Some atom_id →
          dict_get (knowledge_base st') atom_id =
            Some {| KnowledgeAtom.atom_type := KnowledgeAtom.atom_type atom;
                    KnowledgeAtom.content := KnowledgeAtom.content atom;
                    KnowledgeAtom.source_agent := KnowledgeAtom.source_agent atom;
                    KnowledgeAtom.created_at := KnowledgeAtom.created_at atom;
                    KnowledgeAtom.access_count := S (KnowledgeAtom.access_count atom);
                    KnowledgeAtom.last_accessed := Some (now k);
                    KnowledgeAtom.metadata := KnowledgeAtom.metadata atom |})
       ∧ (atom_id ∉ returned_ids response →
          dict_get (knowledge_base st') atom_id = Some atom)).
Proof.
  intros Hnd response st'. subst response st'.
  rewrite query_knowledge_unfold. cbn [fst snd].
  destruct (query_loop now knowledge_type source_agent limit (knowledge_base st) [])
    as [kb' results'] eqn:Hloop.
  destruct (query_loop_spec _ _ _ _ _ _ _ _ Hnd Hloop)
    as (hits & Hres & Hkeys & Hsub & Hndh & Hhit & Hmiss).
  cbn [app] in Hres. subst results'. cbn [fst snd].
  assert (returned_ids
            (VDict [("status", VStr "success");
                    ("total_results",
                     VInt (Z.of_nat (length ((λ hit, atom_entry hit.1 hit.2) <$> hits))));
                    ("atoms", VList ((λ hit, atom_entry hit.1 hit.2) <$> hits))])
          = hits.*1) as Hids.
  { unfold returned_ids, returned_atoms. cbn. apply omap_entry_atom_id. }
  rewrite Hids. clear Hids.
  split_and!; [done|done|].
  intros atom_id atom Hget. split.
  - intros k Hk. rewrite list_lookup_fmap in Hk.
    destruct (hits !! k) as [[id' atom']|] eqn:Hhk; [|done].
    injection Hk as ->.
    destruct (Hhit _ _ _ Hhk) as (atom0 & Hget0 & _ & -> & Hget').
    cbn [knowledge_base set_knowledge_base]. rewrite Hget'.
    rewrite Hget in Hget0. injection Hget0 as <-. done.
  - intros Hnot. cbn [knowledge_base set_knowledge_base].
    by rewrite Hmiss.
Qed.

(** The reported total is the length of the returned list, whatever the
    limit; from a limit of one on, the list is no longer than the limit. *)
Lemma query_knowledge_total now kt sa limit st :
  let response := fst (query_knowledge now kt sa limit st) in
  total_results response = Some (Z.of_nat (length (returned_atoms response)))
  ∧ (1 ≤ limit → Z.of_nat (length (returned_atoms response)) ≤ limit).
Proof.
  intros response. subst response. rewrite query_knowledge_unfold.
  cbn [fst]. split; [done|].
  intros Hlim. unfold returned_atoms. cbn.
  destruct (query_loop now kt sa limit (knowledge_base st) []) as [kb' results'] eqn:Hloop.
  cbn [snd]. eapply query_loop_length; [|done]. simpl. lia.
Qed.

(** With a limit of zero or less the loop still appends the first atom that
    passes the filters, and stops only then. *)
Lemma query_loop_nonpositive now kt sa limit items :
  limit ≤ 0 →
  (∃ atom_id atom, (atom_id, atom) ∈ items ∧ query_skips kt sa atom = false) →
  length (query_loop now kt sa limit items []).2 = 1%nat.
Proof.
  intros Hlim. induction items as [|[id a] items IH]; intros (atom_id & atom & Hin & Hsk).
  - by apply elem_of_nil in Hin.
  - cbn [query_loop]. destruct (query_skips kt sa a) eqn:Hskip.
    + destruct (query_loop now kt sa limit items []) as [rest' res'] eqn:Hrec.
      cbn [snd] in *. apply IH. exists atom_id, atom. split; [|done].
      apply elem_of_cons in Hin as [Heq|Hin]; [|done]. congruence.
    + cbn [app length].
      destruct (Z.of_nat 1 >=? limit) eqn:Hge; [done|].
      rewrite Z.geb_leb in Hge. apply Z.leb_gt in Hge. lia.
Qed.

(** C6.  The reported total is the length of the returned list, whatever
    the limit, and from a limit of one on the list is no longer than the
    limit.  With a limit of zero or less and a store that holds an atom
    passing the filters, the list holds one atom, which is more than the
    limit: the length is tested after the atom is appended. *)
Theorem query_knowledge_limit (now : Clock) (knowledge_type source_agent : string)
    (limit : Z) st :
  let response := fst (query_knowledge now knowledge_type source_agent limit st) in
  total_results response = Some (Z.of_nat (length (returned_atoms response)))
  ∧ (1 ≤ limit → Z.of_nat (length (returned_atoms response)) ≤ limit)
  ∧ (limit ≤ 0 →
     (∃ atom_id atom,
        (atom_id, atom) ∈ knowledge_base st
        ∧ query_skips knowledge_type source_agent atom = false) →
     length (returned_atoms response) = 1%nat
     ∧ limit < Z.of_nat (length (returned_atoms response))).
Proof.
  intros response.
  destruct (query_knowledge_total now knowledge_type source_agent limit st)
    as [Htotal Hle].
  split_and!; [done|done|].
  intros Hlim Hmatch.
  assert (length (returned_atoms response) = 1%nat) as Hone.
  { subst response. rewrite query_knowledge_unfold. cbn [fst].
    unfold returned_atoms. cbn. by apply query_loop_nonpositive. }
  split; [done|]. rewrite Hone. lia.
Qed.
End QueryFacts.

(** ** The order of the queue *)

Section QueueOrderFacts.
Context {Json : Type} `{!JsonNull Json}.
Implicit Types (t x y : WorkflowTask.t Json) (l s : list (WorkflowTask.t Json)).

Lemma insert_by_priority_perm t s : insert_by_priority t s ≡ₚ t :: s.
Proof.
  induction s as [|y s IH]; [done|]. cbn [insert_by_priority].
  destruct (WorkflowTask.priority y <=? WorkflowTask.priority t); [done|].
  rewrite IH. apply Permutation_swap.
Qed.

Lemma sort_by_priority_perm l : sort_by_priority l ≡ₚ l.
Proof.
  induction l as [|t l IH]; [done|]. cbn [sort_by_priority].
  by rewrite insert_by_priority_perm, IH.
Qed.

(** The sort orders the queue by priority, highest first ... *)
Lemma insert_by_priority_descending t s :
  StronglySorted (λ x y, WorkflowTask.priority y ≤ WorkflowTask.priority x) s →
  StronglySorted (λ x y, WorkflowTask.priority y ≤ WorkflowTask.priority x)
    (insert_by_priority t s).
Proof.
  induction s as [|y s IH]; intros Hs.
  - repeat constructor.
  - apply StronglySorted_inv in Hs as [Hs Hy].
    cbn [insert_by_priority].
    destruct (Z.leb_spec (WorkflowTask.priority y) (WorkflowTask.priority t)) as [Hle|Hgt].
    + constructor; [by constructor|].
      constructor; [done|].
      eapply Forall_impl; [done|]. intros b Hb. cbn in Hb. lia.
    + constructor; [by apply IH|].
      rewrite insert_by_priority_perm. constructor; [lia|done].
Qed.

Lemma sort_by_priority_descending l :
  StronglySorted (λ x y, WorkflowTask.priority y ≤ WorkflowTask.priority x)
    (sort_by_priority l).
Proof.
  induction l as [|t l IH]; [constructor|].
  cbn [sort_by_priority]. by apply insert_by_priority_descending.
Qed.

(** ... and keeps the tasks of each priority in the order they had. *)
Lemma insert_by_priority_stable p t s :
  filter (λ x, WorkflowTask.priority x = p) (insert_by_priority t s) =
  filter (λ x, WorkflowTask.priority x = p) (t :: s).
Proof.
  induction s as [|y s IH]; [done|]. cbn [insert_by_priority].
  destruct (Z.leb_spec (WorkflowTask.priority y) (WorkflowTask.priority t)) as [Hle|Hgt];
    [done|].
  rewrite (filter_cons _ y), IH, !filter_cons.
  repeat case_decide; try done. lia.
Qed.

Lemma sort_by_priority_stable p l :
  filter (λ x, WorkflowTask.priority x = p) (sort_by_priority l) =
  filter (λ x, WorkflowTask.priority x = p) l.
Proof.
  induction l as [|t l IH]; [done|]. cbn [sort_by_priority].
  by rewrite insert_by_priority_stable, !filter_cons, IH.
Qed.

Lemma insert_by_priority_sorted t s :
  StronglySorted task_before s →
  Forall (ties_in_order t) s →
  StronglySorted task_before (insert_by_priority t s).
Proof.
  induction s as [|y s IH]; intros Hs Hties.
  - repeat constructor.
  - apply StronglySorted_inv in Hs as [Hs Hy].
    apply Forall_cons in Hties as [Hty Hties].
    cbn [insert_by_priority].
    destruct (Z.leb_spec (WorkflowTask.priority y) (WorkflowTask.priority t)) as [Hle|Hgt].
    + constructor; [by constructor|].
      constructor.
      * unfold task_before, ties_in_order in *. lia.
      * rewrite Forall_forall in Hy, Hties |- *. intros b Hb.
        specialize (Hy b Hb). specialize (Hties b Hb).
        unfold task_before, ties_in_order in *. lia.
    + constructor; [by apply IH|].
      rewrite insert_by_priority_perm. constructor; [|done].
      unfold task_before. lia.
Qed.

Lemma sort_by_priority_sorted l :
  StronglySorted ties_in_order l →
  StronglySorted task_before (sort_by_priority l).
Proof.
  induction l as [|t l IH]; intros Hl; [constructor|].
  apply StronglySorted_inv in Hl as [Hl Ht].
  cbn [sort_by_priority]. apply insert_by_priority_sorted; [by apply IH|].
  by rewrite sort_by_priority_perm.
Qed.

Lemma task_before_ties x y : task_before x y → ties_in_order x y.
Proof. unfold task_before, ties_in_order. lia. Qed.

Lemma sorted_ties l : StronglySorted task_before l → StronglySorted ties_in_order l.
Proof.
  induction 1 as [|x l Hl IH Hx]; constructor; [done|].
  eapply Forall_impl; [done|]. intros y. apply task_before_ties.
Qed.

(** Appending a task built after all those of a sorted queue, then sorting. *)
Lemma sort_append_sorted l t :
  StronglySorted task_before l →
  Forall (λ x, (WorkflowTask.oid x < WorkflowTask.oid t)%nat) l →
  StronglySorted task_before (sort_by_priority (l ++ [t])).
Proof.
  intros Hl Hoid. apply sort_by_priority_sorted.
  apply StronglySorted_app_2; [|by apply sorted_ties|repeat constructor].
  intros x y Hx Hy. apply list_elem_of_singleton in Hy as ->.
  rewrite Forall_forall in Hoid. intros _. by apply Hoid.
Qed.
End QueueOrderFacts.

(** ** The queue through a run *)

Lemma StronglySorted_sublist {A} (R : relation A) (l' l : list A) :
  l' `sublist_of` l → StronglySorted R l → StronglySorted R l'.
Proof.
  induction 1 as [|x l1 l2 Hsub IH|x l1 l2 Hsub IH]; intros Hs; [done| |].
  - apply StronglySorted_inv in Hs as [Hs Hx]. constructor; [by apply IH|].
    rewrite Forall_forall in Hx |- *. intros y Hy. apply Hx.
    by eapply elem_of_sublist.
  - apply StronglySorted_inv in Hs as [Hs _]. by apply IH.
Qed.

Lemma StronglySorted_lookup {A} (R : relation A) (l : list A) i j x y :
  StronglySorted R l → l !! i = Some x → l !! j = Some y → (i < j)%nat → R x y.
Proof.
  intros Hs Hi Hj Hij.
  rewrite <- (take_drop_middle l j y Hj) in Hs.
  eapply StronglySorted_app_1_elem_of; [done| |left].
  apply list_elem_of_lookup. exists i. by rewrite lookup_take_lt.
Qed.

Section QueueSteps.
Context {Json : Type} `{!JsonNull Json}.
Variable json_loads : string → Loaded Json.
Variable empty_dict : Json.
Implicit Types (st : State Json) (t x y task : WorkflowTask.t Json)
  (l q : list (WorkflowTask.t Json)).

Lemma exec_queue_step env c st :
  queue_step st (snd (exec json_loads empty_dict env c st)).
Proof.
  destruct c; cbn [exec returns snd].
  - unfold register_agent. destruct (dict_get _ _); by apply queue_kept.
  - by apply queue_kept.
  - unfold deregister_agent. destruct (dict_get _ _); by apply queue_kept.
  - unfold share_knowledge.
    destruct (loads_or_empty _ _ knowledge_content); [|by apply queue_kept..].
    destruct (loads_or_empty _ _ metadata); by apply queue_kept.
  - rewrite query_knowledge_unfold. by apply queue_kept.
  - unfold create_workflow_task.
    destruct (loads_or_empty _ _ task_params); [|by apply queue_kept..].
    by eapply queue_created.
  - unfold claim_workflow_task.
    destruct (dict_get _ _); [|by apply queue_kept].
    destruct (find_task_to_claim _ _) as [[i tk]|] eqn:Hfind; [|by apply queue_kept].
    assert (task_queue st !! i = Some tk ∧ WorkflowTask.status tk = Pending) as [Hi Hp].
    { unfold find_task_to_claim in Hfind.
      destruct (truthy task_id); apply list_find_Some in Hfind as (? & Hc & _);
        destruct Hc; done. }
    eapply queue_updated; [done|done|done|done|done|]. left. done.
  - unfold complete_workflow_task.
    destruct (list_find _ _) as [[i tk]|] eqn:Hfind; [|by apply queue_kept].
    apply list_find_Some in Hfind as (Hi & _ & _).
    destruct (loads_or_empty _ _ result); [|by apply queue_kept..].
    eapply queue_updated; [done|done|done|done|done|].
    right. cbn. destruct success; auto.
  - by apply queue_kept.
  - by apply queue_kept.
  - unfold clear_orchestration_state. destruct confirm; cbn.
    + by apply queue_cleared.
    + by apply queue_kept.
Qed.

Lemma queue_inv_initial : queue_inv (@initial_state Json).
Proof. split_and!; cbn; constructor. Qed.

Lemma sorted_same_keys l l' :
  Forall2 (λ a b, WorkflowTask.priority a = WorkflowTask.priority b
                  ∧ WorkflowTask.oid a = WorkflowTask.oid b) l l' →
  StronglySorted task_before l → StronglySorted task_before l'.
Proof.
  induction 1 as [|a b l l' [Hp Ho] Hall IH]; [done|].
  intros [Hl Ha]%StronglySorted_inv. constructor; [by apply IH|].
  clear IH Hl. induction Hall as [|c d l l' [Hp' Ho'] Hall IH]; [done|].
  apply Forall_cons in Ha as [Hac Ha]. constructor; [|by apply IH].
  unfold task_before in *. lia.
Qed.

Lemma insert_same_keys q i t t' :
  q !! i = Some t →
  WorkflowTask.oid t' = WorkflowTask.oid t →
  WorkflowTask.priority t' = WorkflowTask.priority t →
  Forall2 (λ a b, WorkflowTask.priority a = WorkflowTask.priority b
                  ∧ WorkflowTask.oid a = WorkflowTask.oid b) q (<[i := t']> q).
Proof.
  intros Hi Ho Hp. rewrite <- (list_insert_id q i t Hi) at 1.
  apply Forall2_insert; [|done].
  apply Forall2_same_length_lookup_2; [done|].
  intros j a b Ha Hb. by simplify_eq.
Qed.

Lemma queue_step_inv st st' : queue_step st st' → queue_inv st → queue_inv st'.
Proof.
  intros Hstep (Hs & Hnd & Hlt). destruct Hstep as [Hq Hn|Hq Hn|t Hq Ho Hp Hn|i t t' Hi Hq Hn Ho Hp _].
  - unfold queue_inv. by rewrite Hq, Hn.
  - unfold queue_inv. rewrite Hq. split_and!; cbn; constructor.
  - unfold queue_inv. rewrite Hq, Hn. split_and!.
    + apply sort_append_sorted; [done|]. by rewrite Ho.
    + rewrite sort_by_priority_perm, fmap_app. cbn.
      apply NoDup_app. split_and!; [done| |apply NoDup_singleton].
      intros o Hin ->%list_elem_of_singleton.
      apply list_elem_of_fmap in Hin as (x & Hx & Hin).
      rewrite Forall_forall in Hlt. specialize (Hlt x Hin). lia.
    + rewrite sort_by_priority_perm. apply Forall_app. split.
      * eapply Forall_impl; [done|]. intros x. cbn. lia.
      * constructor; [|done]. lia.
  - pose proof (insert_same_keys _ _ _ _ Hi Ho Hp) as Hkeys.
    unfold queue_inv. rewrite Hq, Hn. split_and!.
    + by eapply sorted_same_keys.
    + rewrite list_fmap_insert, Ho. rewrite list_insert_id; [done|].
      by rewrite list_lookup_fmap, Hi.
    + apply Forall_insert; [done|]. rewrite Ho.
      rewrite Forall_forall in Hlt. apply Hlt. by eapply list_elem_of_lookup_2.
Qed.

Lemma elem_of_insert_inv q i t' x :
  x ∈ <[i := t']> q → x = t' ∨ x ∈ q.
Proof.
  intros [j Hj]%list_elem_of_lookup.
  apply list_lookup_insert_Some in Hj as [(-> & -> & _)|[_ Hj]]; [by left|].
  right. by eapply list_elem_of_lookup_2.
Qed.

(** Where a task of the queue after a call comes from: it is a task of the
    queue before the call, with a status that is the same or further on, or
    it was built by the call. *)
Lemma queue_step_origin st st' task' :
  queue_step st st' →
  task' ∈ task_queue st' →
  (∃ task, task ∈ task_queue st
     ∧ WorkflowTask.oid task = WorkflowTask.oid task'
     ∧ (status_rank (WorkflowTask.status task)
        ≤ status_rank (WorkflowTask.status task'))%nat)
  ∨ (next_oid st ≤ WorkflowTask.oid task')%nat.
Proof.
  intros [Hq Hn|Hq Hn|t Hq Ho Hp Hn|i t t' Hi Hq Hn Ho Hp Hst] Hin.
  - left. exists task'. by rewrite <- Hq.
  - rewrite Hq in Hin. by apply elem_of_nil in Hin.
  - rewrite Hq, sort_by_priority_perm in Hin.
    apply elem_of_app in Hin as [Hin| ->%list_elem_of_singleton].
    + left. by exists task'.
    + right. lia.
  - rewrite Hq in Hin. apply elem_of_insert_inv in Hin as [->|Hin].
    + left. exists t. split_and!; [by eapply list_elem_of_lookup_2|done|].
      destruct Hst as [[-> ->]|[->| ->]]; cbn; [lia| |];
        destruct (WorkflowTask.status t); cbn; lia.
    + left. by exists task'.
Qed.

Lemma queue_step_next_oid st st' : queue_step st st' → (next_oid st ≤ next_oid st')%nat.
Proof. intros [? Hn|? Hn|? ? ? ? Hn|? ? ? ? ? Hn]; rewrite Hn; lia. Qed.

Lemma run_inv calls : ∀ st,
  queue_inv st → queue_inv (run json_loads empty_dict calls st).
Proof.
  induction calls as [|[env c] calls IH]; intros st Hinv; [done|].
  cbn [run]. apply IH. eapply queue_step_inv; [apply exec_queue_step|done].
Qed.

Lemma run_origin calls : ∀ st task',
  task' ∈ task_queue (run json_loads empty_dict calls st) →
  (∃ task, task ∈ task_queue st
     ∧ WorkflowTask.oid task = WorkflowTask.oid task'
     ∧ (status_rank (WorkflowTask.status task)
        ≤ status_rank (WorkflowTask.status task'))%nat)
  ∨ (next_oid st ≤ WorkflowTask.oid task')%nat.
Proof.
  induction calls as [|[env c] calls IH]; intros st task' Hin.
  - left. by exists task'.
  - cbn [run] in Hin.
    pose proof (exec_queue_step env c st) as Hstep.
    destruct (IH _ _ Hin) as [(task1 & Hin1 & Ho1 & Hr1)|Hnew].
    + destruct (queue_step_origin _ _ _ Hstep Hin1) as [(task & Hin0 & Ho & Hr)|Hnew].
      * left. exists task. split_and!; [done|congruence|lia].
      * right. lia.
    + right. apply queue_step_next_oid in Hstep. lia.
Qed.

Lemma same_oid_same_task q (x y : WorkflowTask.t Json) :
  NoDup (WorkflowTask.oid <$> q) → x ∈ q → y ∈ q →
  WorkflowTask.oid x = WorkflowTask.oid y → x = y.
Proof.
  intros Hnd [i Hi]%list_elem_of_lookup [j Hj]%list_elem_of_lookup Ho.
  assert (i = j) as ->.
  { eapply NoDup_lookup; [done| |].
    - by rewrite list_lookup_fmap, Hi.
    - rewrite list_lookup_fmap, Hj. cbn. by rewrite Ho. }
  congruence.
Qed.

(** C3, amended.  Through every sequence of calls, the status of a task
    never moves backwards in the order pending, claimed, completed or
    failed: a task that is claimed, completed or failed is never pending
    again, and one that is completed or failed is never claimed again.
    The task is followed by its identity from any reachable state through
    any further calls.  (A completion does not look at the status: it may
    move a task from pending to a final status, and from one final status
    to the other.) *)
Theorem task_status_moves_forward (before calls : list (Env * Call))
    (task task' : WorkflowTask.t Json) :
  let st := run json_loads empty_dict before initial_state in
  let st' := run json_loads empty_dict calls st in
  task ∈ task_queue st →
  task' ∈ task_queue st' →
  WorkflowTask.oid task' = WorkflowTask.oid task →
  (status_rank (WorkflowTask.status task)
   ≤ status_rank (WorkflowTask.status task'))%nat.
Proof.
  intros st st' Hin Hin' Ho.
  assert (queue_inv st) as (_ & Hnd & Hlt).
  { apply run_inv, queue_inv_initial. }
  destruct (run_origin _ _ _ Hin') as [(task0 & Hin0 & Ho0 & Hr)|Hnew].
  - assert (task0 = task) as ->; [|done].
    eapply same_oid_same_task; [done|done|done|congruence].
  - rewrite Forall_forall in Hlt. specialize (Hlt _ Hin). lia.
Qed.

(** C4.  After every sequence of calls, so after every sequence of
    create-task calls, the listing gives the tasks of the queue that pass
    its filters (all of them when no filter is given) in the order of the
    queue: priorities do not increase along the list, and of two tasks of
    the same priority the one created first comes first. *)
Theorem task_queue_priority_order (calls : list (Env * Call))
    (status assigned_agent : string) :
  let st := run json_loads empty_dict calls initial_state in
  let listed :=
    filter (λ task, list_skips status assigned_agent task = false) (task_queue st) in
  fst (list_workflow_tasks status assigned_agent st) =
    VDict [("status", VStr "success");
           ("total_tasks", VInt (Z.of_nat (length listed)));
           ("tasks", VList (task_entry <$> listed))]
  ∧ (status = EmptyString → assigned_agent = EmptyString → listed = task_queue st)
  ∧ ∀ i j x y,
      listed !! i = Some x → listed !! j = Some y → (i < j)%nat →
      WorkflowTask.priority y < WorkflowTask.priority x
      ∨ (WorkflowTask.priority x = WorkflowTask.priority y
         ∧ (WorkflowTask.oid x < WorkflowTask.oid y)%nat).
Proof.
  intros st listed. split_and!.
  - unfold list_workflow_tasks. cbn. by rewrite length_fmap.
  - intros -> ->. subst listed.
    induction (task_queue st) as [|x q IH]; [done|].
    rewrite filter_cons_True by done. by rewrite IH.
  - assert (queue_inv st) as (Hs & _ & _).
    { apply run_inv, queue_inv_initial. }
    assert (StronglySorted task_before listed) as Hsl.
    { eapply StronglySorted_sublist; [apply sublist_filter|done]. }
    intros i j x y Hi Hj Hij. by eapply (StronglySorted_lookup task_before).
Qed.

(** The knowledge base of a reachable state has one atom per key, as a
    dictionary has. *)
Lemma exec_knowledge_base_NoDup env c st :
  NoDup (knowledge_base st).*1 →
  NoDup (knowledge_base (snd (exec json_loads empty_dict env c st))).*1.
Proof.
  intros Hnd. destruct c; cbn [exec returns snd]; try done.
  - unfold register_agent. by destruct (dict_get _ _).
  - unfold deregister_agent. by destruct (dict_get _ _).
  - unfold share_knowledge.
    destruct (loads_or_empty _ _ knowledge_content); [|done..].
    destruct (loads_or_empty _ _ metadata); [|done..].
    cbn. by apply dict_set_NoDup.
  - rewrite query_knowledge_unfold. cbn.
    destruct (query_loop (now env) knowledge_type source_agent limit (knowledge_base st) [])
      as [kb results] eqn:Hloop.
    destruct (query_loop_spec _ _ _ _ _ _ _ _ Hnd Hloop) as (_ & _ & Hkeys & _).
    cbn. by rewrite Hkeys.
  - unfold create_workflow_task. by destruct (loads_or_empty _ _ task_params).
  - unfold claim_workflow_task. destruct (dict_get _ _); [|done].
    by destruct (find_task_to_claim _ _) as [[i tk]|].
  - unfold complete_workflow_task.
    destruct (list_find _ _) as [[i tk]|]; [|done].
    by destruct (loads_or_empty _ _ result).
  - unfold clear_orchestration_state. destruct confirm; cbn; [constructor|done].
Qed.

Lemma run_knowledge_base_NoDup calls : ∀ st,
  NoDup (knowledge_base st).*1 →
  NoDup (knowledge_base (run json_loads empty_dict calls st)).*1.
Proof.
  induction calls as [|[env c] calls IH]; intros st Hnd; [done|].
  cbn [run]. by apply IH, exec_knowledge_base_NoDup.
Qed.
End QueueSteps.

(** ** Two threads under the lock *)

Section Serial.
Context {Json : Type} `{!JsonNull Json}.
Implicit Types (th a b : Thread Json) (st s sb : State Json) (cfg : Config Json).

Lemma step_acquire tid th s :
  th_pc th = AtAcquire →
  thread_step tid th None s = Some (goto AtCheck th, Some (tid, 1%nat), s).
Proof. intros Hpc. unfold thread_step. by rewrite Hpc. Qed.

Lemma step_blocked tid owner n th s :
  th_pc th = AtAcquire → owner ≠ tid →
  thread_step tid th (Some (owner, n)) s = None.
Proof.
  intros Hpc Hne. unfold thread_step. rewrite Hpc. cbn.
  by rewrite decide_False.
Qed.

Lemma step_returned tid th lk s :
  th_pc th = Returned → thread_step tid th lk s = None.
Proof. intros Hpc. unfold thread_step. by rewrite Hpc. Qed.

Lemma find_task_to_claim_lookup task_id (q : list (WorkflowTask.t Json)) i task :
  find_task_to_claim task_id q = Some (i, task) → q !! i = Some task.
Proof.
  unfold find_task_to_claim.
  destruct (truthy task_id); intros (? & _ & _)%list_find_Some; done.
Qed.

Lemma step_in_body tid th sb s th' lk' s' :
  in_body th sb s →
  thread_step tid th (Some (tid, 1%nat)) s = Some (th', lk', s') →
  same_call th th'
  ∧ ((in_body th' sb s' ∧ lk' = Some (tid, 1%nat))
     ∨ (finished th' sb s' ∧ lk' = None)).
Proof.
  unfold in_body, finished, thread_step, call_of, claim_target.
  destruct (th_pc th) eqn:Hpc; try done.
  - intros [-> Hnone] Hstep.
    destruct (dict_get (agents sb) (th_agent_id th)) as [agent|] eqn:Hagent.
    + destruct (find_task_to_claim _ _) as [[i task]|] eqn:Hfind;
        injection Hstep as <- <- <-; (split; [done|]); left; (split; [|done]).
      * cbn. split; [done|]. by exists i, task, agent.
      * cbn. rewrite Hagent, Hfind. eexists. split; [done|]. split; [|done].
        by erewrite claim_workflow_task_none.
    + injection Hstep as <- <- <-. split; [done|]. left. split; [|done].
      cbn. rewrite Hagent. eexists. split; [done|]. split; [|done].
      by rewrite claim_workflow_task_unregistered.
  - intros [-> (i & task & agent & Hi & Hagent & Hfind)] Hstep.
    rewrite Hi, Hagent in Hstep.
    rewrite (find_task_to_claim_lookup _ _ _ _ Hfind) in Hstep.
    injection Hstep as <- <- <-. split; [done|]. left. split; [|done].
    cbn. rewrite Hagent, Hfind. eexists. split; [done|]. split; [|done].
    by erewrite claim_workflow_task_found.
  - intros (r & Hr & Hcall & Htgt) Hstep. cbn in Hstep.
    rewrite decide_True in Hstep by done.
    injection Hstep as <- <- <-. split; [done|]. right. split; [|done].
    split; [done|]. by exists r.
Qed.

Lemma step_in_body_progress tid th sb s :
  in_body th sb s → is_Some (thread_step tid th (Some (tid, 1%nat)) s).
Proof.
  unfold in_body, thread_step.
  destruct (th_pc th) eqn:Hpc; try done.
  - intros [-> _]. destruct (dict_get _ _); [|done].
    by destruct (find_task_to_claim _ _) as [[i task]|].
  - intros [-> (i & task & agent & Hi & Hagent & Hfind)].
    rewrite Hi, Hagent. by rewrite (find_task_to_claim_lookup _ _ _ _ Hfind).
  - intros _. cbn. by rewrite decide_True.
Qed.

Lemma in_body_locked th sb s : in_body th sb s → th_pc th ≠ AtAcquire ∧ th_pc th ≠ Returned.
Proof. unfold in_body. destruct (th_pc th); done. Qed.
Lemma same_call_trans th1 th2 th3 :
  same_call th1 th2 → same_call th2 th3 → same_call th1 th3.
Proof. unfold same_call. intros (? & ? & ?) (? & ? & ?). split_and!; congruence. Qed.

Lemma same_call_goto pc th : same_call th (goto pc th).
Proof. done. Qed.

Lemma in_body_goto_check th s : waiting th → in_body (goto AtCheck th) s s.
Proof. by intros [_ Hnone]. Qed.

Lemma waiting_acquire th : waiting th → th_pc th = AtAcquire.
Proof. by intros [? _]. Qed.

(** A step of one of two threads, spelled out. *)
Lemma sched_step_two tid s lk a b cfg' :
  sched_step tid (mkConfig s lk [a; b]) = Some cfg' →
  (tid = 0%nat ∧ ∃ a' lk' s', thread_step 0 a lk s = Some (a', lk', s')
     ∧ cfg' = mkConfig s' lk' [a'; b])
  ∨ (tid = 1%nat ∧ ∃ b' lk' s', thread_step 1 b lk s = Some (b', lk', s')
     ∧ cfg' = mkConfig s' lk' [a; b']).
Proof.
  unfold sched_step. cbn [threads lock shared].
  destruct tid as [|[|tid]]; cbn [lookup list_lookup]; [| |done].
  - destruct (thread_step 0 a lk s) as [[[a' lk'] s']|]; [|done].
    intros [= <-]. left. split; [done|]. by exists a', lk', s'.
  - destruct (thread_step 1 b lk s) as [[[b' lk'] s']|]; [|done].
    intros [= <-]. right. split; [done|]. by exists b', lk', s'.
Qed.

Lemma inv_step st0 a0 b0 cfg cfg' :
  inv st0 a0 b0 cfg → step cfg cfg' → inv st0 a0 b0 cfg'.
Proof.
  intros (a & b & Hth & Ha & Hb & Hph) [tid Hstep].
  destruct cfg as [s lk ths]. cbn [threads shared lock] in *. subst ths.
  apply sched_step_two in Hstep
    as [[-> (a' & lk' & s' & Hstep & ->)]|[-> (b' & lk' & s' & Hstep & ->)]];
    unfold inv; cbn [threads shared lock].
  - (* the first thread steps *)
    inversion Hph as [? ? Hpa Hpb|? ? ? Hin Hpb|? ? ? Hpa Hin|? ? ? Hfin Hpb
                     |? ? ? Hpa Hfin|? ? sa ? Hfin Hin|? ? sb ? Hfin Hin
                     |? ? sa ? Hfa Hfb|? ? sb ? Hfb Hfa]; subst.
    + rewrite step_acquire in Hstep by by apply waiting_acquire. injection Hstep as <- <- <-.
      exists (goto AtCheck a), b. split_and!; [done|done|done|].
      apply ph_body_l; [by apply in_body_goto_check|done].
    + destruct (step_in_body _ _ _ _ _ _ _ Hin Hstep) as [Hsame [[Hin' ->]|[Hfin' ->]]];
        exists a', b; (split_and!; [done|by eapply same_call_trans|done|]).
      * by apply ph_body_l.
      * by apply ph_done_l.
    + rewrite step_blocked in Hstep; [done|by apply waiting_acquire|done].
    + destruct Hfin as [Hpc _]. by rewrite step_returned in Hstep.
    + rewrite step_acquire in Hstep by by apply waiting_acquire. injection Hstep as <- <- <-.
      exists (goto AtCheck a), b. split_and!; [done|done|done|].
      eapply ph_done_body_rl; [done|by apply in_body_goto_check].
    + destruct Hfin as [Hpc _]. by rewrite step_returned in Hstep.
    + destruct (step_in_body _ _ _ _ _ _ _ Hin Hstep) as [Hsame [[Hin' ->]|[Hfin' ->]]];
        exists a', b; (split_and!; [done|by eapply same_call_trans|done|]).
      * by eapply ph_done_body_rl.
      * by eapply ph_done_rl.
    + destruct Hfa as [Hpc _]. by rewrite step_returned in Hstep.
    + destruct Hfa as [Hpc _]. by rewrite step_returned in Hstep.
  - (* the second thread steps *)
    inversion Hph as [? ? Hpa Hpb|? ? ? Hin Hpb|? ? ? Hpa Hin|? ? ? Hfin Hpb
                     |? ? ? Hpa Hfin|? ? sa ? Hfin Hin|? ? sb ? Hfin Hin
                     |? ? sa ? Hfa Hfb|? ? sb ? Hfb Hfa]; subst.
    + rewrite step_acquire in Hstep by by apply waiting_acquire. injection Hstep as <- <- <-.
      exists a, (goto AtCheck b). split_and!; [done|done|done|].
      apply ph_body_r; [done|by apply in_body_goto_check].
    + rewrite step_blocked in Hstep; [done|by apply waiting_acquire|done].
    + destruct (step_in_body _ _ _ _ _ _ _ Hin Hstep) as [Hsame [[Hin' ->]|[Hfin' ->]]];
        exists a, b'; (split_and!; [done|done|by eapply same_call_trans|]).
      * by apply ph_body_r.
      * by apply ph_done_r.
    + rewrite step_acquire in Hstep by by apply waiting_acquire. injection Hstep as <- <- <-.
      exists a, (goto AtCheck b). split_and!; [done|done|done|].
      eapply ph_done_body_lr; [done|by apply in_body_goto_check].
    + destruct Hfin as [Hpc _]. by rewrite step_returned in Hstep.
    + destruct (step_in_body _ _ _ _ _ _ _ Hin Hstep) as [Hsame [[Hin' ->]|[Hfin' ->]]];
        exists a, b'; (split_and!; [done|done|by eapply same_call_trans|]).
      * by eapply ph_done_body_lr.
      * by eapply ph_done_lr.
    + destruct Hfin as [Hpc _]. by rewrite step_returned in Hstep.
    + destruct Hfb as [Hpc _]. by rewrite step_returned in Hstep.
    + destruct Hfb as [Hpc _]. by rewrite step_returned in Hstep.
Qed.

Lemma inv_initial st0 a0 b0 :
  waiting a0 → waiting b0 →
  inv st0 a0 b0 (two_claims st0 a0 b0).
Proof.
  intros Ha Hb. exists a0, b0. split_and!; [done|done|done|]. by apply ph_idle.
Qed.

Lemma inv_reachable st0 a0 b0 cfg :
  waiting a0 → waiting b0 →
  rtc step (two_claims st0 a0 b0) cfg → inv st0 a0 b0 cfg.
Proof.
  intros Ha Hb Hrtc.
  assert (inv st0 a0 b0 (two_claims st0 a0 b0)) as Hinv by by apply inv_initial.
  induction Hrtc as [|x y z Hxy Hyz IH]; [done|].
  apply IH. by eapply inv_step.
Qed.

(** No reachable configuration is stuck: some thread can step unless both
    have returned. *)
Lemma inv_progress st0 a0 b0 cfg :
  inv st0 a0 b0 cfg → terminal cfg ∨ ∃ cfg', step cfg cfg'.
Proof.
  intros (a & b & Hth & _ & _ & Hph).
  destruct cfg as [s lk ths]. cbn [threads shared lock] in *. subst ths.
  assert (∀ tid th, [a; b] !! tid = Some th →
            is_Some (thread_step tid th lk s) →
            ∃ cfg', step (mkConfig s lk [a; b]) cfg') as Hgo.
  { intros tid th Hth [[[th' lk'] s'] Hs]. eexists. exists tid.
    unfold sched_step. cbn [threads shared lock]. by rewrite Hth, Hs. }
  inversion Hph as [? ? Hpa Hpb|? ? ? Hin Hpb|? ? ? Hpa Hin|? ? ? Hfin Hpb
                   |? ? ? Hpa Hfin|? ? sa ? Hfin Hin|? ? sb ? Hfin Hin
                   |? ? sa ? Hfa Hfb|? ? sb ? Hfb Hfa]; subst.
  - right. apply (Hgo 0%nat a); [done|]. rewrite step_acquire; [done|by apply waiting_acquire].
  - right. apply (Hgo 0%nat a); [done|]. by eapply step_in_body_progress.
  - right. apply (Hgo 1%nat b); [done|]. by eapply step_in_body_progress.
  - right. apply (Hgo 1%nat b); [done|]. rewrite step_acquire; [done|by apply waiting_acquire].
  - right. apply (Hgo 0%nat a); [done|]. rewrite step_acquire; [done|by apply waiting_acquire].
  - right. apply (Hgo 1%nat b); [done|]. by eapply step_in_body_progress.
  - right. apply (Hgo 0%nat a); [done|]. by eapply step_in_body_progress.
  - left. destruct Hfa, Hfb. by repeat constructor.
  - left. destruct Hfa, Hfb. by repeat constructor.
Qed.

Lemma thread_step_weight tid th lk s th' lk' s' :
  thread_step tid th lk s = Some (th', lk', s') →
  (pc_weight (th_pc th') < pc_weight (th_pc th))%nat.
Proof.
  unfold thread_step. destruct (th_pc th) eqn:Hpc; cbn [pc_weight].
  - destruct (acquire tid lk); intros [= <- <- <-]; cbn; lia.
  - destruct (dict_get _ _); [destruct (find_task_to_claim _ _) as [[i tk]|]|];
      intros [= <- <- <-]; cbn; lia.
  - destruct (th_task_to_claim th) as [i|]; [|done].
    destruct (task_queue s !! i); [|done]. destruct (dict_get _ _); [|done].
    intros [= <- <- <-]; cbn; lia.
  - destruct (release tid lk); intros [= <- <- <-]; cbn; lia.
  - done.
Qed.

Lemma sum_list_insert (l : list nat) i x y :
  l !! i = Some x → (y < x)%nat → (sum_list (<[i := y]> l) < sum_list l)%nat.
Proof.
  revert i. induction l as [|z l IH]; intros i Hi Hlt; [done|].
  destruct i as [|i]; simpl in *.
  - injection Hi as ->. lia.
  - specialize (IH i Hi Hlt). lia.
Qed.

Lemma step_weight cfg cfg' : step cfg cfg' → (weight cfg' < weight cfg)%nat.
Proof.
  intros [tid Hstep]. unfold sched_step in Hstep.
  destruct (threads cfg !! tid) as [th|] eqn:Hth; [|done].
  destruct (thread_step tid th (lock cfg) (shared cfg)) as [[[th' lk'] s']|] eqn:Hs; [|done].
  injection Hstep as <-. unfold weight. cbn [threads].
  rewrite list_fmap_insert. eapply sum_list_insert.
  - by rewrite list_lookup_fmap, Hth.
  - cbn. by eapply thread_step_weight.
Qed.

(** Every execution can be run to the end, where both threads have
    returned. *)
Lemma inv_terminates st0 a0 b0 cfg :
  inv st0 a0 b0 cfg → ∃ cfg', rtc step cfg cfg' ∧ terminal cfg'.
Proof.
  remember (weight cfg) as n eqn:Hn. revert cfg Hn.
  induction n as [n IH] using lt_wf_ind. intros cfg -> Hinv.
  destruct (inv_progress _ _ _ _ Hinv) as [Hterm|[cfg1 Hstep]].
  - by exists cfg.
  - destruct (IH (weight cfg1) (step_weight _ _ Hstep) cfg1 eq_refl) as (cfg' & Hrtc & Hterm).
    { by eapply inv_step. }
    exists cfg'. split; [|done]. by eapply rtc_l.
Qed.

(** The two calls are serialised: when both threads have returned, their
    responses, the tasks they claimed and the shared state are those of the
    two calls run one after the other, in one of the two orders. *)
Lemma inv_terminal st0 a0 b0 cfg :
  inv st0 a0 b0 cfg → terminal cfg →
  ∃ a b ra rb s1,
    threads cfg = [a; b]
    ∧ same_call a0 a ∧ same_call b0 b
    ∧ th_response a = Some ra ∧ th_response b = Some rb
    ∧ ((call_of a0 st0 = (ra, s1) ∧ call_of b0 s1 = (rb, shared cfg)
        ∧ th_task_to_claim a = claim_target a0 st0
        ∧ th_task_to_claim b = claim_target b0 s1)
       ∨ (call_of b0 st0 = (rb, s1) ∧ call_of a0 s1 = (ra, shared cfg)
          ∧ th_task_to_claim b = claim_target b0 st0
          ∧ th_task_to_claim a = claim_target a0 s1)).
Proof.
  intros (a & b & Hth & Ha & Hb & Hph) Hterm.
  unfold terminal in Hterm. rewrite Hth in Hterm.
  apply Forall_cons in Hterm as [Hta Htb%Forall_cons_1].
  destruct Htb as [Htb _].
  assert (∀ s, call_of a s = call_of a0 s ∧ claim_target a s = claim_target a0 s) as Hca.
  { intros s. unfold call_of, claim_target. by destruct Ha as (-> & -> & ->). }
  assert (∀ s, call_of b s = call_of b0 s ∧ claim_target b s = claim_target b0 s) as Hcb.
  { intros s. unfold call_of, claim_target. by destruct Hb as (-> & -> & ->). }
  inversion Hph as [? ? Hpa Hpb|? ? ? Hin Hpb|? ? ? Hpa Hin|? ? ? Hfin Hpb
                   |? ? ? Hpa Hfin|? ? sa ? Hfin Hin|? ? sb ? Hfin Hin
                   |? ? sa ? Hfa Hfb|? ? sb ? Hfb Hfa]; subst;
    try (apply waiting_acquire in Hpa; congruence);
    try (apply waiting_acquire in Hpb; congruence);
    try (apply in_body_locked in Hin as [? ?]; congruence).
  - destruct Hfa as (_ & ra & Hra & Hcalla & Hta'), Hfb as (_ & rb & Hrb & Hcallb & Htb').
    exists a, b, ra, rb, sa. split_and!; try done. left.
    destruct (Hca st0) as [<- <-], (Hcb sa) as [<- <-]. done.
  - destruct Hfa as (_ & ra & Hra & Hcalla & Hta'), Hfb as (_ & rb & Hrb & Hcallb & Htb').
    exists a, b, ra, rb, sb. split_and!; try done. right.
    destruct (Hcb st0) as [<- <-], (Hca sb) as [<- <-]. done.
Qed.
End Serial.

(** ** Concurrent claims *)

Section ConcurrentClaims.
Context {Json : Type} `{!JsonNull Json}.
Implicit Types (st : State Json) (cfg : Config Json) (task : WorkflowTask.t Json).

Lemma run_schedule_rtc schedule : ∀ cfg cfg',
  run_schedule schedule cfg = Some cfg' → rtc step cfg cfg'.
Proof.
  induction schedule as [|tid schedule IH]; intros cfg cfg' Hrun; cbn in Hrun.
  - injection Hrun as ->. done.
  - destruct (sched_step tid cfg) as [cfg1|] eqn:Hstep; [|done].
    eapply rtc_l; [by exists tid|]. by apply IH.
Qed.

(** After a claim, the claimed task is no longer one a claim can find. *)
Lemma claimed_not_found now agent_id i task agent st task_id j task' :
  task_queue st !! i = Some task →
  find_task_to_claim task_id
    (task_queue (claimed_state now agent_id i task agent st)) = Some (j, task') →
  j ≠ i.
Proof.
  intros Hi Hfind ->.
  assert (WorkflowTask.status task' = Pending) as Hp.
  { unfold find_task_to_claim in Hfind.
    destruct (truthy task_id); apply list_find_Some in Hfind as (_ & Hc & _);
      by destruct Hc. }
  apply find_task_to_claim_lookup in Hfind. cbn [claimed_state task_queue] in Hfind.
  rewrite list_lookup_insert_eq in Hfind by by eapply lookup_lt_Some.
  injection Hfind as <-. done.
Qed.

(** A registered agent stays registered through a claim. *)
Lemma claimed_state_registered now agent_id i task agent st other :
  is_Some (dict_get (agents st) other) →
  is_Some (dict_get (agents (claimed_state now agent_id i task agent st)) other).
Proof.
  intros Hother. cbn [claimed_state agents].
  destruct (decide (agent_id = other)) as [->|Hne].
  - by rewrite dict_get_set_eq.
  - by rewrite dict_get_set_ne.
Qed.

(** With one task to claim, the first of two calls in a row claims it and
    the second finds nothing. *)
Lemma claim_then_claim now1 now2 a1 a2 agent1 st i task :
  dict_get (agents st) a1 = Some agent1 →
  is_Some (dict_get (agents st) a2) →
  task_queue st !! i = Some task →
  claimable_auto task →
  (∀ j task', task_queue st !! j = Some task' → j ≠ i → ¬ claimable_auto task') →
  claim_workflow_task now1 a1 EmptyString st =
    (claimed_response task, claimed_state now1 a1 i task agent1 st)
  ∧ claim_workflow_task now2 a2 EmptyString (claimed_state now1 a1 i task agent1 st) =
      (error "No available tasks to claim", claimed_state now1 a1 i task agent1 st).
Proof.
  intros Ha1 Ha2 Hi Hc Hothers. split.
  - apply claim_workflow_task_found; [done|].
    unfold find_task_to_claim. rewrite truthy_empty.
    apply list_find_Some. split_and!; [done|done|].
    intros j task' Hj Hlt. apply (Hothers j task' Hj). lia.
  - destruct (claimed_state_registered now1 a1 i task agent1 st a2 Ha2) as [agent2 Hagent2].
    eapply claim_workflow_task_none; [done|].
    unfold find_task_to_claim. rewrite truthy_empty.
    apply list_find_None, Forall_forall.
    intros task' [j Hj]%list_elem_of_lookup. cbn [claimed_state task_queue] in Hj.
    apply list_lookup_insert_Some in Hj as [(-> & <- & _)|[Hne Hj]].
    + intros [Hp _]. done.
    + by eapply Hothers.
Qed.

(** C1, amended.  Two registered agents claim concurrently, with no task
    id, from a queue in which exactly one task is pending and has no
    assigned agent.  Every interleaving of the two calls can be run to the
    end, where both have returned; and whenever both have returned, one of
    them has the success response for this task and the other the error
    "No available tasks to claim", the shared state being the one that the
    claim of the task by the successful caller leaves.  The two calls never
    both succeed.  (For any two concurrent claims, whatever the queue and
    the arguments, see [concurrent_claims_distinct_tasks] below.) *)
Theorem concurrent_claims_one_task (now1 now2 : Clock) (a1 a2 : string)
    (agent1 agent2 : AgentSession.t Json) st (i : nat) task cfg :
  dict_get (agents st) a1 = Some agent1 →
  dict_get (agents st) a2 = Some agent2 →
  task_queue st !! i = Some task →
  claimable_auto task →
  (∀ j task', task_queue st !! j = Some task' → j ≠ i → ¬ claimable_auto task') →
  rtc step
    (two_claims st (spawn a1 EmptyString now1) (spawn a2 EmptyString now2)) cfg →
  (∃ cfg', rtc step cfg cfg' ∧ terminal cfg')
  ∧ (terminal cfg →
     one_claims_other_none task cfg
     ∧ (shared cfg = claimed_state now1 a1 i task agent1 st
        ∨ shared cfg = claimed_state now2 a2 i task agent2 st)).
Proof.
  intros Ha1 Ha2 Hi Hc Hothers Hreach.
  apply inv_reachable in Hreach; [|done|done].
  split; [by eapply inv_terminates|].
  intros Hterm.
  destruct (inv_terminal _ _ _ _ Hreach Hterm)
    as (a & b & ra & rb & s1 & Hth & _ & _ & Hra & Hrb & Horder).
  unfold call_of in Horder. cbn [spawn th_now th_agent_id th_task_id] in Horder.
  destruct Horder as [(H1 & H2 & _)|(H1 & H2 & _)].
  - destruct (claim_then_claim now1 now2 a1 a2 agent1 st i task) as [E1 E2];
      [done|by rewrite Ha2|done|done|done|].
    rewrite E1 in H1. injection H1 as <- <-. rewrite E2 in H2. injection H2 as <- <-.
    split; [|by left]. exists a, b. split; [done|]. by left.
  - destruct (claim_then_claim now2 now1 a2 a1 agent2 st i task) as [E1 E2];
      [done|by rewrite Ha1|done|done|done|].
    rewrite E1 in H1. injection H1 as <- <-. rewrite E2 in H2. injection H2 as <- <-.
    split; [|by right]. exists a, b. split; [done|]. by right.
Qed.

(** Any two concurrent claims, whatever their arguments and the state: the
    outcome is that of the two calls run one after the other, and the second
    of them cannot find the task the first one claimed. *)
Lemma concurrent_claims_serialised (now1 now2 : Clock)
    (a1 t1 a2 t2 : string) st cfg :
  rtc step (two_claims st (spawn a1 t1 now1) (spawn a2 t2 now2)) cfg →
  terminal cfg →
  ∃ th1 th2 r1 r2 s1,
    threads cfg = [th1; th2]
    ∧ th_response th1 = Some r1 ∧ th_response th2 = Some r2
    ∧ ((claim_workflow_task now1 a1 t1 st = (r1, s1)
        ∧ claim_workflow_task now2 a2 t2 s1 = (r2, shared cfg))
       ∨ (claim_workflow_task now2 a2 t2 st = (r2, s1)
          ∧ claim_workflow_task now1 a1 t1 s1 = (r1, shared cfg))).
Proof.
  intros Hreach Hterm. apply inv_reachable in Hreach; [|done|done].
  destruct (inv_terminal _ _ _ _ Hreach Hterm)
    as (a & b & ra & rb & s1 & Hth & _ & _ & Hra & Hrb & Horder).
  exists a, b, ra, rb, s1. split_and!; [done|done|done|].
  destruct Horder as [(H1 & H2 & _)|(H1 & H2 & _)]; [by left|by right].
Qed.

(** What [claim_target] says of the call: with a target, the call claims
    the task at this position ... *)
Lemma claim_target_Some (th : Thread Json) st i :
  claim_target th st = Some i →
  ∃ task agent,
    task_queue st !! i = Some task
    ∧ WorkflowTask.status task = Pending
    ∧ call_of th st =
        (claimed_response task,
         claimed_state (th_now th) (th_agent_id th) i task agent st).
Proof.
  unfold claim_target, call_of.
  destruct (dict_get (agents st) (th_agent_id th)) as [agent|] eqn:Hagent; [|done].
  destruct (find_task_to_claim (th_task_id th) (task_queue st)) as [[j task]|] eqn:Hfind;
    [|done].
  intros [= ->]. exists task, agent. split_and!.
  - by eapply find_task_to_claim_lookup.
  - unfold find_task_to_claim in Hfind.
    destruct (truthy (th_task_id th)); apply list_find_Some in Hfind as (_ & Hc & _);
      by destruct Hc.
  - by apply claim_workflow_task_found.
Qed.

(** ... and without a target, the call answers with an error and changes
    nothing. *)
Lemma claim_target_None (th : Thread Json) st :
  claim_target th st = None →
  ∃ msg, call_of th st = (error msg, st).
Proof.
  unfold claim_target, call_of.
  destruct (dict_get (agents st) (th_agent_id th)) as [agent|] eqn:Hagent.
  - destruct (find_task_to_claim (th_task_id th) (task_queue st)) as [[j task]|] eqn:Hfind;
      [done|].
    intros _. eexists. by eapply claim_workflow_task_none.
  - intros _. eexists. by apply claim_workflow_task_unregistered.
Qed.

(** Any two concurrent claims, whatever their arguments and the state: when
    both have returned, they have not both claimed the same task. *)
Lemma concurrent_claims_distinct_tasks (now1 now2 : Clock)
    (a1 t1 a2 t2 : string) st cfg :
  rtc step (two_claims st (spawn a1 t1 now1) (spawn a2 t2 now2)) cfg →
  terminal cfg →
  ∃ th1 th2,
    threads cfg = [th1; th2]
    ∧ ∀ i j, th_task_to_claim th1 = Some i → th_task_to_claim th2 = Some j → i ≠ j.
Proof.
  intros Hreach Hterm. apply inv_reachable in Hreach; [|done|done].
  destruct (inv_terminal _ _ _ _ Hreach Hterm)
    as (a & b & ra & rb & s1 & Hth & _ & _ & Hra & Hrb & Horder).
  exists a, b. split; [done|]. intros i j Hi Hj.
  assert (∀ (th th' : Thread Json) s s' r k k',
            call_of th s = (r, s') →
            claim_target th s = Some k →
            claim_target th' s' = Some k' → k' ≠ k) as Hseq.
  { intros th th' s s' r k k' Hcall Hk Hk'.
    apply claim_target_Some in Hk as (task & agent & Hlook & _ & Hcall').
    rewrite Hcall' in Hcall. injection Hcall as _ <-.
    unfold claim_target in Hk'.
    destruct (dict_get _ (th_agent_id th')); [|done].
    destruct (find_task_to_claim (th_task_id th') _) as [[k0 task']|] eqn:Hfind; [|done].
    injection Hk' as ->. by eapply claimed_not_found. }
  destruct Horder as [(H1 & H2 & Ta & Tb)|(H1 & H2 & Tb & Ta)].
  - rewrite Ta in Hi. rewrite Tb in Hj. apply not_eq_sym.
    eapply Hseq; [exact H1|exact Hi|exact Hj].
  - rewrite Ta in Hi. rewrite Tb in Hj.
    eapply Hseq; [exact H1|exact Hj|exact Hi].
Qed.
End ConcurrentClaims.

(** ** Generated ids *)

Section Ids.
Context {Json : Type} `{!JsonNull Json}.
Variable json_loads : string → Loaded Json.
Variable empty_dict : Json.

(** C2.  Generated ids are not unique.  Two share-knowledge calls with
    the same knowledge type that read the same millisecond both succeed and
    return the same atom id; the second atom takes the place of the first
    in the store, which does not grow.  Two create-task calls that read the
    same millisecond both succeed and return the same task id, and the
    queue then holds two distinct tasks with this id. *)
Theorem generated_ids_collide (now1 now2 : Clock) (time_ms : Z)
    (knowledge_type source1 source2 task_type1 task_type2 : string)
    (priority1 priority2 : Z) (st : State Json) :
  let share1 :=
    share_knowledge json_loads empty_dict now1 time_ms
      knowledge_type EmptyString source1 EmptyString st in
  let share2 :=
    share_knowledge json_loads empty_dict now2 time_ms
      knowledge_type EmptyString source2 EmptyString (snd share1) in
  let create1 :=
    create_workflow_task json_loads empty_dict now1 time_ms
      task_type1 EmptyString EmptyString priority1 st in
  let create2 :=
    create_workflow_task json_loads empty_dict now2 time_ms
      task_type2 EmptyString EmptyString priority2 (snd create1) in
  (∃ response1 response2,
     fst share1 = Returns response1
     ∧ fst share2 = Returns response2
     ∧ field "status" response1 = Some (VStr "success")
     ∧ field "status" response2 = Some (VStr "success")
     ∧ field "atom_id" response1 = Some (VStr (knowledge_type +:+ "_" +:+ pretty time_ms))
     ∧ field "atom_id" response2 = field "atom_id" response1
     ∧ length (knowledge_base (snd share2)) = length (knowledge_base (snd share1))
     ∧ (KnowledgeAtom.source_agent
          <$> dict_get (knowledge_base (snd share2))
                (knowledge_type +:+ "_" +:+ pretty time_ms)) = Some (Some source2))
  ∧ (∃ response1 response2,
       fst create1 = Returns response1
       ∧ fst create2 = Returns response2
       ∧ field "status" response1 = Some (VStr "success")
       ∧ field "status" response2 = Some (VStr "success")
       ∧ field "task_id" response1 = Some (VStr ("task_" +:+ pretty time_ms))
       ∧ field "task_id" response2 = field "task_id" response1
       ∧ ∃ task1 task2,
           task1 ∈ task_queue (snd create2)
           ∧ task2 ∈ task_queue (snd create2)
           ∧ WorkflowTask.oid task1 ≠ WorkflowTask.oid task2
           ∧ WorkflowTask.task_id task1 = WorkflowTask.task_id task2).
Proof.
  cbv zeta. unfold share_knowledge, create_workflow_task.
  rewrite !loads_or_empty_empty. cbn [fst snd knowledge_base set_knowledge_base task_queue next_oid].
  split.
  - eexists _, _. split; [reflexivity|]. split; [reflexivity|].
    split_and!; try done.
    + apply dict_set_length_present. by rewrite dict_get_set_eq.
    + by rewrite dict_get_set_eq.
  - eexists _, _. split; [reflexivity|]. split; [reflexivity|].
    split_and!; try done.
    eexists (WorkflowTask.init (next_oid st) now1 _ task_type1 empty_dict (Some EmptyString) priority1),
            (WorkflowTask.init (S (next_oid st)) now2 _ task_type2 empty_dict (Some EmptyString) priority2).
    split_and!.
    + rewrite sort_by_priority_perm, elem_of_app, sort_by_priority_perm, elem_of_app.
      left. right. by apply list_elem_of_singleton.
    + rewrite sort_by_priority_perm, elem_of_app.
      right. by apply list_elem_of_singleton.
    + cbn. lia.
    + done.
Qed.
End Ids.

(** ** The sample runs *)

Example sample_one_task_queue : task_queue sample_one_task = [sample_task].
Proof. reflexivity. Qed.

(** While the first thread is in the [with] block, the second one waits. *)
Example sample_second_thread_waits :
  let cfg0 :=
    two_claims sample_one_task
      (spawn "alice" EmptyString (sample_clock "a"))
      (spawn "bob" EmptyString (sample_clock "b")) in
  run_schedule [0; 1]%nat cfg0 = None
  ∧ run_schedule [0; 0; 1]%nat cfg0 = None
  ∧ run_schedule [0; 0; 0; 1]%nat cfg0 = None
  ∧ is_Some (run_schedule [0; 0; 0; 0; 1]%nat cfg0).
Proof. split_and!; [reflexivity..|]. eexists. reflexivity. Qed.

(** C1 does not hold for callers that are not registered: with one pending
    unassigned task in the queue, both calls return the error
    "Agent ghost not registered" and the task stays pending. *)
Lemma concurrent_claims_unregistered :
  let cfg0 :=
    two_claims sample_no_agent
      (spawn "ghost" EmptyString (sample_clock "a"))
      (spawn "ghost" EmptyString (sample_clock "b")) in
  task_queue sample_no_agent = [sample_task]
  ∧ claimable_auto sample_task
  ∧ ¬ (∀ cfg, rtc step cfg0 cfg → terminal cfg →
         ∃ task, one_claims_other_none task cfg).
Proof.
  split_and!; [reflexivity|by split|].
  intros Hclaim.
  destruct (Hclaim
    (mkConfig sample_no_agent None
       [mkThread "ghost" EmptyString (sample_clock "a") Returned None
          (Some (error "Agent ghost not registered"));
        mkThread "ghost" EmptyString (sample_clock "b") Returned None
          (Some (error "Agent ghost not registered"))]))
    as (task & th1 & th2 & Hth & Hresp).
  - apply (run_schedule_rtc [0; 0; 0; 1; 1; 1]%nat). reflexivity.
  - by repeat constructor.
  - cbn in Hth. injection Hth as <- <-. cbn in Hresp.
    destruct Hresp as [[H _]|[H _]]; discriminate H.
Qed.

(** C3 does not hold as a chain pending, claimed, completed or failed: a
    completion moves the pending sample task to completed without a claim,
    and a second completion moves it from completed to failed. *)
Lemma complete_workflow_task_unguarded :
  let st1 :=
    snd (sample_exec (sample_env "c1" 2001)
           (CompleteWorkflowTask "task_1003" "true" true) sample_one_task) in
  let st2 :=
    snd (sample_exec (sample_env "c2" 2002)
           (CompleteWorkflowTask "task_1003" "null" false) st1) in
  (WorkflowTask.oid <$> task_queue sample_one_task) = [0%nat]
  ∧ (WorkflowTask.status <$> task_queue sample_one_task) = [Pending]
  ∧ (WorkflowTask.oid <$> task_queue st1) = [0%nat]
  ∧ (WorkflowTask.status <$> task_queue st1) = [Completed]
  ∧ (WorkflowTask.oid <$> task_queue st2) = [0%nat]
  ∧ (WorkflowTask.status <$> task_queue st2) = [Failed].
Proof. vm_compute. done. Qed.

(** C8 does not hold as it stands.  A completion that names an unknown
    task answers a result that is not JSON with "Task task_1 not found",
    which is not one of the "Invalid JSON in ..." errors.  And a thousand
    opening brackets, which are not JSON either, make [json.loads] raise
    [RecursionError], which no tool catches: [share_knowledge] returns no
    result at all. *)
Lemma malformed_payload_other_outcomes :
  let completion :=
    fst (sample_exec (sample_env "c1" 2001)
           (CompleteWorkflowTask "task_1" "{oops" true) sample_one_task) in
  let sharing :=
    fst (sample_exec (sample_env "s1" 2002)
           (ShareKnowledge "actor" deep_brackets "alice" EmptyString) sample_atoms) in
  rejected sample_loads "{oops"
  ∧ completion = Returns (error "Task task_1 not found")
  ∧ ¬ MalformedPayload (Json:=json) (error "Task task_1 not found")
  ∧ rejected sample_loads deep_brackets
  ∧ sharing = Raises "RecursionError".
Proof.
  split_and!.
  - split; [done|]. intros v. vm_compute. discriminate.
  - reflexivity.
  - intros (what & e & H). vm_compute in H. discriminate H.
  - split.
    + intros H. vm_compute in H. discriminate H.
    + intros v. vm_compute. discriminate.
  - vm_compute. reflexivity.
Qed.

(** ** The theorems at work on the samples *)

Lemma concurrent_claims_one_task_witness :
  ∃ cfg,
    run_schedule [0; 0; 0; 0; 1; 1; 1]%nat
      (two_claims sample_one_task
         (spawn "alice" EmptyString (sample_clock "a"))
         (spawn "bob" EmptyString (sample_clock "b"))) = Some cfg
    ∧ terminal cfg
    ∧ one_claims_other_none sample_task cfg.
Proof.
  eexists. split; [reflexivity|]. split; [by repeat constructor|].
  eapply (concurrent_claims_one_task (sample_clock "a") (sample_clock "b")
            "alice" "bob" _ _ sample_one_task 0 sample_task).
  - reflexivity.
  - reflexivity.
  - reflexivity.
  - split; reflexivity.
  - intros [|j] task' Hj Hne; [done|]. discriminate Hj.
  - apply (run_schedule_rtc [0; 0; 0; 0; 1; 1; 1]%nat). reflexivity.
  - by repeat constructor.
Defined.

Lemma task_status_moves_forward_witness :
  (status_rank (WorkflowTask.status sample_task)
   ≤ status_rank (WorkflowTask.status sample_task_done))%nat.
Proof.
  apply (task_status_moves_forward sample_loads (JObj [])
    [(sample_env "t1" 1001, RegisterAgent "alice" "cursor" "blueprint_creation, level_design");
     (sample_env "t2" 1002, RegisterAgent "bob" "windsurf" EmptyString);
     (sample_env "t3" 1003, CreateWorkflowTask "create_actor" "{}" EmptyString 5)]
    [(sample_env "c1" 2001, ClaimWorkflowTask "alice" EmptyString);
     (sample_env "c2" 2002, CompleteWorkflowTask "task_1003" "true" true)]
    sample_task sample_task_done).
  - apply list_elem_of_lookup. exists 0%nat. reflexivity.
  - apply list_elem_of_lookup. exists 0%nat. reflexivity.
  - reflexivity.
Defined.

Lemma task_queue_priority_order_witness :
  let st := sample_run sample_four_tasks initial_state in
  (WorkflowTask.task_type <$> task_queue st) = ["B"; "C"; "D"; "A"]
  ∧ ∀ x y, task_queue st !! 1%nat = Some x → task_queue st !! 2%nat = Some y →
      WorkflowTask.priority y < WorkflowTask.priority x
      ∨ (WorkflowTask.priority x = WorkflowTask.priority y
         ∧ (WorkflowTask.oid x < WorkflowTask.oid y)%nat).
Proof.
  split; [reflexivity|]. intros x y Hx Hy.
  destruct (task_queue_priority_order sample_loads (JObj []) sample_four_tasks
              EmptyString EmptyString) as (_ & Hall & Horder).
  eapply (Horder 1%nat 2%nat).
  - rewrite (Hall eq_refl eq_refl). exact Hx.
  - rewrite (Hall eq_refl eq_refl). exact Hy.
  - lia.
Defined.

Lemma query_knowledge_access_tracking_witness :
  let st' := snd (query_knowledge (sample_clock "q") "actor" EmptyString 1 sample_atoms) in
  (KnowledgeAtom.access_count <$> dict_get (knowledge_base st') "actor_1001") = Some 1%nat
  ∧ (KnowledgeAtom.last_accessed <$> dict_get (knowledge_base st') "actor_1001")
    = Some (Some "q#0")
  ∧ (KnowledgeAtom.access_count <$> dict_get (knowledge_base st') "blueprint_1002") = Some 0%nat
  ∧ (KnowledgeAtom.access_count <$> dict_get (knowledge_base st') "actor_1003") = Some 0%nat.
Proof.
  intros st'.
  destruct (query_knowledge_access_tracking (sample_clock "q") "actor" EmptyString 1
              sample_atoms) as (_ & _ & Hatoms).
  { apply (bool_decide_unpack _). vm_compute. reflexivity. }
  destruct (dict_get (knowledge_base sample_atoms) "actor_1001") as [a1|] eqn:H1;
    [|discriminate H1].
  destruct (dict_get (knowledge_base sample_atoms) "blueprint_1002") as [a2|] eqn:H2;
    [|discriminate H2].
  destruct (dict_get (knowledge_base sample_atoms) "actor_1003") as [a3|] eqn:H3;
    [|discriminate H3].
  destruct (Hatoms _ _ H1) as [Hin1 _].
  destruct (Hatoms _ _ H2) as [_ Hout2].
  destruct (Hatoms _ _ H3) as [_ Hout3].
  subst st'. rewrite (Hin1 0%nat eq_refl).
  rewrite Hout2, Hout3; cycle 1.
  { vm_compute. intros Hin. apply list_elem_of_singleton in Hin. discriminate Hin. }
  { vm_compute. intros Hin. apply list_elem_of_singleton in Hin. discriminate Hin. }
  injection H1 as <-. injection H2 as <-. injection H3 as <-.
  split_and!; reflexivity.
Defined.

Lemma claim_workflow_task_auto_witness :
  ∃ agent,
    dict_get (agents sample_one_task) "alice" = Some agent
    ∧ claim_workflow_task (sample_clock "c1") "alice" EmptyString sample_one_task =
        (claimed_response sample_task,
         claimed_state (sample_clock "c1") "alice" 0 sample_task agent sample_one_task)
    ∧ claim_workflow_task (sample_clock "c1") "alice" EmptyString
        (set_task_queue [] sample_one_task) =
        (error "No available tasks to claim", set_task_queue [] sample_one_task).
Proof.
  eexists. split; [reflexivity|]. split.
  - eapply (proj1 (claim_workflow_task_auto (sample_clock "c1") "alice"
                     sample_one_task _ eq_refl) 0%nat sample_task).
    + reflexivity.
    + split; reflexivity.
    + intros j task' _ Hlt. lia.
  - eapply (proj2 (claim_workflow_task_auto (sample_clock "c1") "alice"
                     (set_task_queue [] sample_one_task) _ eq_refl)).
    intros task Hin. by apply elem_of_nil in Hin.
Defined.


Lemma malformed_payload_rejected_witness :
  let call := ShareKnowledge "actor" "{oops" "alice" EmptyString in
  let deep := CreateWorkflowTask "create_actor" deep_brackets EmptyString 5 in
  snd (sample_exec (sample_env "s" 3000) call sample_atoms) = sample_atoms
  ∧ reports_malformed sample_loads call
      (fst (sample_exec (sample_env "s" 3000) call sample_atoms))
  ∧ snd (sample_exec (sample_env "t" 3001) deep sample_one_task) = sample_one_task
  ∧ raises_from_loads sample_loads deep
      (fst (sample_exec (sample_env "t" 3001) deep sample_one_task)).
Proof.
  intros call deep.
  destruct (malformed_payload_rejected sample_loads (JObj []) (sample_env "s" 3000)
              call sample_atoms) as (Hsame & Hbad & _).
  { left. split; [discriminate|]. intros v. vm_compute. discriminate. }
  destruct (malformed_payload_rejected sample_loads (JObj []) (sample_env "t" 3001)
              deep sample_one_task) as (Hsame' & Hbad' & _).
  { split.
    - intros H. vm_compute in H. discriminate H.
    - intros v. vm_compute. discriminate. }
  split_and!; [exact Hsame| |exact Hsame'|].
  - destruct Hbad as [Hreport|(exc & payload & Heq & _)]; [by intros []|exact Hreport|].
    vm_compute in Heq. discriminate Heq.
  - destruct Hbad' as [(response & payload & e & Heq & _)|Hraise];
      [by intros []| |exact Hraise].
    vm_compute in Heq. discriminate Heq.
Defined.

Lemma register_agent_existing_witness :
  let st' :=
    snd (register_agent (sample_clock "r") "alice" "custom" "ui_design" sample_one_task) in
  (AgentSession.agent_type <$> dict_get (agents st') "alice") = Some "cursor"
  ∧ (AgentSession.capabilities <$> dict_get (agents st') "alice")
    = Some ["blueprint_creation"; "level_design"]
  ∧ (AgentSession.last_active <$> dict_get (agents st') "alice") = Some "r#0".
Proof.
  intros st'.
  destruct (register_agent_existing (sample_clock "r") "alice" "custom" "ui_design"
              sample_one_task
              (AgentSession.init (sample_clock "t1") "alice" "cursor"
                 (Some ["blueprint_creation"; "level_design"])))
    as (Hagent & _).
  { reflexivity. }
  subst st'. rewrite Hagent. split_and!; reflexivity.
Defined.

Lemma query_knowledge_limit_witness :
  let response0 :=
    fst (query_knowledge (sample_clock "q") EmptyString EmptyString 0 sample_atoms) in
  let response_neg :=
    fst (query_knowledge (sample_clock "q") "blueprint" EmptyString (-3) sample_atoms) in
  (returned_ids response0 = ["actor_1001"]
   ∧ total_results response0 = Some 1
   ∧ 0 < Z.of_nat (length (returned_atoms response0)))
  ∧ (returned_ids response_neg = ["blueprint_1002"]
     ∧ total_results response_neg = Some 1
     ∧ -3 < Z.of_nat (length (returned_atoms response_neg))).
Proof.
  split.
  - destruct (query_knowledge_limit (sample_clock "q") EmptyString EmptyString 0
                sample_atoms) as (Htotal & _ & Hzero).
    destruct Hzero as [Hone Hmore]; [lia| |].
    { eexists "actor_1001", _. split; [|reflexivity].
      apply list_elem_of_lookup. exists 0%nat. reflexivity. }
    split_and!; [reflexivity| |exact Hmore].
    rewrite Htotal, Hone. reflexivity.
  - destruct (query_knowledge_limit (sample_clock "q") "blueprint" EmptyString (-3)
                sample_atoms) as (Htotal & _ & Hneg).
    destruct Hneg as [Hone Hmore]; [lia| |].
    { eexists "blueprint_1002", _. split.
      - apply list_elem_of_lookup. exists 1%nat. reflexivity.
      - reflexivity. }
    split_and!; [reflexivity| |exact Hmore].
    rewrite Htotal, Hone. reflexivity.
Defined.

(** * Further properties of the tools *)

(** ** What a query returns *)

Section QueryResults.
Context {Json : Type} `{!JsonNull Json}.
Variable json_loads : string → Loaded Json.
Variable empty_dict : Json.
Implicit Types (st : State Json) (atom : KnowledgeAtom.t Json)
  (items : list (string * KnowledgeAtom.t Json)) (results : list (Val Json)).

Lemma hit_entries_ids now r (hits : list (string * KnowledgeAtom.t Json)) :
  omap entry_atom_id (hit_entries now r hits) = hits.*1.
Proof.
  revert r. induction hits as [|[id a] hits IH]; intros r; [done|].
  cbn [hit_entries omap list_omap]. rewrite entry_atom_id_atom_entry.
  cbn. by rewrite IH.
Qed.

Lemma hit_entries_length now r (hits : list (string * KnowledgeAtom.t Json)) :
  length (hit_entries now r hits) = length hits.
Proof.
  revert r. induction hits as [|[id a] hits IH]; intros r; [done|].
  cbn. by rewrite IH.
Qed.

(** The loop appends the entries of the first atoms that pass the filters:
    as many as the limit leaves room for, and one when it leaves none. *)
Lemma query_loop_results now kt sa limit items : ∀ results,
  (query_loop now kt sa limit items results).2 =
    results ++ hit_entries now (length results)
                 (take (query_bound (limit - Z.of_nat (length results)))
                    (matching_items kt sa items)).
Proof.
  unfold matching_items, query_bound.
  induction items as [|[id a] items IH]; intros results.
  - cbn. by rewrite take_nil, app_nil_r.
  - cbn [query_loop]. destruct (query_skips kt sa a) eqn:Hskip.
    + rewrite filter_cons_False by (cbn; congruence).
      specialize (IH results).
      destruct (query_loop now kt sa limit items results) as [rest' res']. apply IH.
    + rewrite filter_cons_True by done.
      set (e := atom_entry id (KnowledgeAtom.touch (now (length results)) a)).
      destruct (Z.of_nat (length (results ++ [e])) >=? limit) eqn:Hlim.
      * cbn [snd]. rewrite Z.geb_leb in Hlim. apply Z.leb_le in Hlim.
        rewrite length_app in Hlim. cbn in Hlim.
        replace (Z.to_nat (Z.max 1 (limit - Z.of_nat (length results)))) with 1%nat by lia.
        cbn. done.
      * rewrite Z.geb_leb in Hlim. apply Z.leb_gt in Hlim.
        rewrite length_app in Hlim. cbn in Hlim.
        specialize (IH (results ++ [e])).
        destruct (query_loop now kt sa limit items (results ++ [e])) as [rest' res'].
        cbn [snd] in *. rewrite IH, <- app_assoc. f_equal.
        rewrite length_app. cbn [length].
        replace (Z.to_nat (Z.max 1 (limit - Z.of_nat (length results))))
          with (S (Z.to_nat (Z.max 1 (limit - Z.of_nat (length results + 1))))) by lia.
        cbn. rewrite Nat.add_1_r. done.
Qed.

Lemma query_knowledge_atoms now kt sa limit st :
  returned_atoms (query_knowledge now kt sa limit st).1 =
    (query_loop now kt sa limit (knowledge_base st) []).2
  ∧ total_results (query_knowledge now kt sa limit st).1 =
      Some (Z.of_nat (length (query_loop now kt sa limit (knowledge_base st) []).2)).
Proof. by rewrite query_knowledge_unfold. Qed.

(** X1.  A query returns the first atoms of the store that pass its
    filters, in the order of the store: as many as the limit says, and one
    when the limit is below one.  The reported total is their number. *)
Theorem query_knowledge_first_matches (now : Clock)
    (knowledge_type source_agent : string) (limit : Z) st :
  let response := fst (query_knowledge now knowledge_type source_agent limit st) in
  returned_ids response =
    take (query_bound limit) (matching_ids knowledge_type source_agent (knowledge_base st))
  ∧ returned_atoms response =
      hit_entries now 0
        (take (query_bound limit)
           (matching_items knowledge_type source_agent (knowledge_base st)))
  ∧ total_results response =
      Some (Z.of_nat (query_bound limit
                      `min` length (matching_ids knowledge_type source_agent
                                      (knowledge_base st)))).
Proof.
  intros response. subst response.
  destruct (query_knowledge_atoms now knowledge_type source_agent limit st)
    as [Hatoms Htotal].
  unfold returned_ids. rewrite Htotal, Hatoms, query_loop_results.
  cbn [app length]. rewrite Z.sub_0_r. unfold matching_ids.
  split_and!.
  - by rewrite hit_entries_ids, fmap_take.
  - done.
  - by rewrite hit_entries_length, length_take, length_fmap.
Qed.

Lemma hit_entries_lookup now (hits : list (string * KnowledgeAtom.t Json)) : ∀ r k atom_id atom,
  hits !! k = Some (atom_id, atom) →
  hit_entries now r hits !! k =
    Some (atom_entry atom_id (KnowledgeAtom.touch (now (r + k)%nat) atom)).
Proof.
  induction hits as [|[id a] hits IH]; intros r k atom_id atom Hk; [done|].
  destruct k as [|k]; cbn [hit_entries].
  - injection Hk as -> ->. by rewrite Nat.add_0_r.
  - etrans; [exact (IH (S r) k atom_id atom Hk)|]. do 3 f_equal; lia.
Qed.

(** X2.  What is shared can be looked up and queried back.  A
    share-knowledge call whose payloads are accepted stores, under the id it
    returns, an atom with the parsed content and metadata, the given type
    and source, and no access yet; the atoms under other ids are untouched.
    A query for this type and source whose limit is at least the size of
    the store then returns the atom, with its content and one access. *)
Theorem share_knowledge_then_query (now_s now_q : Clock) (time_ms : Z)
    (knowledge_type knowledge_content source_agent metadata : string)
    (limit : Z) st (content meta : Json) :
  loads_or_empty json_loads empty_dict knowledge_content = Value content →
  loads_or_empty json_loads empty_dict metadata = Value meta →
  let atom_id := knowledge_type +:+ "_" +:+ pretty time_ms in
  let shared :=
    share_knowledge json_loads empty_dict now_s time_ms
      knowledge_type knowledge_content source_agent metadata st in
  let atom :=
    {| KnowledgeAtom.atom_type := knowledge_type;
       KnowledgeAtom.content := content;
       KnowledgeAtom.source_agent := Some source_agent;
       KnowledgeAtom.created_at := now_s 0%nat;
       KnowledgeAtom.access_count := 0;
       KnowledgeAtom.last_accessed := None;
       KnowledgeAtom.metadata := Some meta |} in
  (∃ response,
     fst shared = Returns response
     ∧ response_status response = Some "success"
     ∧ field "atom_id" response = Some (VStr atom_id))
  ∧ dict_get (knowledge_base (snd shared)) atom_id = Some atom
  ∧ (∀ other, other ≠ atom_id →
       dict_get (knowledge_base (snd shared)) other = dict_get (knowledge_base st) other)
  ∧ (Z.of_nat (length (knowledge_base (snd shared))) ≤ limit →
     ∃ k,
       returned_atoms
         (fst (query_knowledge now_q knowledge_type source_agent limit (snd shared))) !! k
       = Some (atom_entry atom_id (KnowledgeAtom.touch (now_q k) atom))).
Proof.
  intros Hcontent Hmeta atom_id shared atom. subst shared.
  unfold share_knowledge. rewrite Hcontent, Hmeta. cbn [fst snd].
  fold atom_id. cbn [knowledge_base set_knowledge_base].
  change (KnowledgeAtom.set_metadata meta
            (KnowledgeAtom.init now_s knowledge_type content (Some source_agent)))
    with atom.
  split_and!; [by eexists| | |].
  - by rewrite dict_get_set_eq.
  - intros other Hne. by rewrite dict_get_set_ne.
  - intros Hlimit.
    set (st' := set_knowledge_base (dict_set (knowledge_base st) atom_id atom) st).
    destruct (query_knowledge_atoms now_q knowledge_type source_agent limit st')
      as [-> _].
    rewrite query_loop_results. cbn [app length]. rewrite Z.sub_0_r.
    assert ((atom_id, atom) ∈ matching_items knowledge_type source_agent
                                (knowledge_base st')) as Hin.
    { apply list_elem_of_filter. split.
      - unfold query_skips. cbn. rewrite !bool_decide_eq_true_2 by done.
        by rewrite !andb_false_r.
      - apply dict_get_Some_elem. cbn. by rewrite dict_get_set_eq. }
    apply list_elem_of_lookup in Hin as [k Hk]. exists k.
    rewrite take_ge.
    + by rewrite (hit_entries_lookup _ _ 0 k atom_id atom Hk).
    + unfold query_bound, matching_items.
      pose proof (length_filter (λ item : string * KnowledgeAtom.t Json,
                     query_skips knowledge_type source_agent item.2 = false)
                    (knowledge_base st')) as Hle.
      cbn [knowledge_base set_knowledge_base st'] in *. lia.
Qed.
End QueryResults.

(** ** Agents that leave, and come back *)

Section AgentFacts.
Context {Json : Type} `{!JsonNull Json}.
Implicit Types (st : State Json) (agent : AgentSession.t Json).

Lemma listed_agents_list_active_agents st :
  listed_agents (fst (list_active_agents st)) =
    (λ item, (AgentSession.agent_id item.2,
              AgentStatus_str (AgentSession.status item.2))) <$> agents st.
Proof.
  unfold listed_agents.
  change (list_field "agents" (fst (list_active_agents st)))
    with ((λ '(_, agent),
             VDict [("id", VStr (AgentSession.agent_id agent));
                    ("type", VStr (AgentSession.agent_type agent));
                    ("status", VStr (AgentStatus_str (AgentSession.status agent)));
                    ("capabilities", VList (VStr <$> AgentSession.capabilities agent));
                    ("task_count", VInt (Z.of_nat (AgentSession.task_count agent)));
                    ("created_at", VStr (AgentSession.created_at agent));
                    ("last_active", VStr (AgentSession.last_active agent))] : Val Json)
          <$> agents st).
  induction (agents st) as [|[k a] l IH]; [done|].
  rewrite !fmap_cons. cbn [omap list_omap]. rewrite IH. done.
Qed.

(** X3.  Deregistering marks the session inactive and removes nothing.
    For an id that is not registered the call answers "Agent ... not found"
    and changes nothing.  For a registered one, the session keeps its place
    in the registry and all its attributes but the status, which becomes
    inactive; the other sessions and the other stores are unchanged. *)
Theorem deregister_agent_marks_inactive (agent_id : string) st :
  let response := fst (deregister_agent agent_id st) in
  let st' := snd (deregister_agent agent_id st) in
  match dict_get (agents st) agent_id with
  | None =>
      response = error ("Agent " +:+ agent_id +:+ " not found") ∧ st' = st
  | Some agent =>
      response_status response = Some "success"
      ∧ dict_get (agents st') agent_id =
          Some {| AgentSession.agent_id := AgentSession.agent_id agent;
                  AgentSession.agent_type := AgentSession.agent_type agent;
                  AgentSession.capabilities := AgentSession.capabilities agent;
                  AgentSession.created_at := AgentSession.created_at agent;
                  AgentSession.last_active := AgentSession.last_active agent;
                  AgentSession.status := Inactive;
                  AgentSession.task_count := AgentSession.task_count agent;
                  AgentSession.metadata := AgentSession.metadata agent |}
      ∧ (∀ other, other ≠ agent_id →
           dict_get (agents st') other = dict_get (agents st) other)
      ∧ (agents st').*1 = (agents st).*1
      ∧ knowledge_base st' = knowledge_base st
      ∧ task_queue st' = task_queue st
      ∧ workflow_history st' = workflow_history st
  end.
Proof.
  cbv zeta. unfold deregister_agent.
  destruct (dict_get (agents st) agent_id) as [agent|] eqn:Hget; [|done].
  cbn [fst snd agents set_agents knowledge_base task_queue workflow_history].
  split_and!; try done.
  - by rewrite dict_get_set_eq.
  - intros other Hne. by rewrite dict_get_set_ne.
  - apply dict_set_keys. by rewrite Hget.
Qed.

(** X4.  A claim looks at neither the status nor the capabilities of the
    caller: an agent that was deregistered claims as before.  The response
    and the queue after a claim are those the claim would have given without
    the deregistration, and the claim does not make the agent active
    again. *)
Theorem claim_workflow_task_after_deregister (now : Clock)
    (agent_id task_id : string) st agent :
  dict_get (agents st) agent_id = Some agent →
  let left := snd (deregister_agent agent_id st) in
  fst (claim_workflow_task now agent_id task_id left) =
    fst (claim_workflow_task now agent_id task_id st)
  ∧ task_queue (snd (claim_workflow_task now agent_id task_id left)) =
      task_queue (snd (claim_workflow_task now agent_id task_id st))
  ∧ (AgentSession.status
       <$> dict_get (agents (snd (claim_workflow_task now agent_id task_id left))) agent_id)
    = Some Inactive.
Proof.
  intros Hget left. subst left. unfold deregister_agent. rewrite Hget. cbn [snd].
  unfold claim_workflow_task. cbn [agents set_agents task_queue].
  rewrite dict_get_set_eq, Hget.
  destruct (find_task_to_claim task_id (task_queue st)) as [[i task]|];
    cbn [fst snd agents set_agents task_queue set_task_queue].
  - split_and!; [done|done|]. by rewrite dict_get_set_eq.
  - split_and!; [done|done|]. by rewrite dict_get_set_eq.
Qed.

(** X5.  [list_active_agents] lists every registered agent, active or not,
    in the order of the registry: after a deregistration the agent is still
    listed, as inactive, and the number of agents reported is the same. *)
Theorem list_active_agents_lists_inactive (agent_id : string) st agent :
  dict_get (agents st) agent_id = Some agent →
  let left := snd (deregister_agent agent_id st) in
  let response := fst (list_active_agents left) in
  (AgentSession.agent_id agent, "inactive") ∈ listed_agents response
  ∧ length (listed_agents response) = length (agents st)
  ∧ int_field "total_agents" response = Some (Z.of_nat (length (agents st)))
  ∧ snd (list_active_agents left) = left.
Proof.
  intros Hget left response. subst response.
  rewrite listed_agents_list_active_agents.
  assert (length (agents left) = length (agents st)) as Hlen.
  { subst left. unfold deregister_agent. rewrite Hget. cbn.
    apply dict_set_length_present. by rewrite Hget. }
  split_and!.
  - apply list_elem_of_fmap.
    exists (agent_id, AgentSession.set_status Inactive agent). split; [done|].
    apply dict_get_Some_elem. subst left. unfold deregister_agent.
    rewrite Hget. cbn. by rewrite dict_get_set_eq.
  - by rewrite length_fmap.
  - assert (∀ (a b : Val Json) n,
              int_field "total_agents"
                (VDict [("status", a); ("total_agents", VInt n); ("agents", b)])
              = Some n) as Hfield by reflexivity.
    unfold list_active_agents. cbn [fst]. by rewrite Hfield, length_fmap, Hlen.
  - done.
Qed.
End AgentFacts.

(** ** One call, and a run of calls *)

Section DictMore.
Context {V : Type}.
Implicit Types (d : list (string * V)) (k : string) (v : V).

Lemma dict_set_Forall (P : string * V → Prop) d k v :
  Forall P d → P (k, v) → Forall P (dict_set d k v).
Proof.
  intros Hd Hv. induction d as [|[k0 v0] d IH]; cbn.
  - by constructor.
  - apply Forall_cons in Hd as [H0 Hd]. destruct (decide (k0 = k)).
    + by constructor.
    + constructor; [done|]. by apply IH.
Qed.

Lemma dict_get_set_is_Some d k v k' :
  is_Some (dict_get d k') → is_Some (dict_get (dict_set d k v) k').
Proof.
  intros H. destruct (decide (k = k')) as [->|Hne].
  - by rewrite dict_get_set_eq.
  - by rewrite dict_get_set_ne.
Qed.

Lemma sum_dict_set_present (f : V → nat) d k v old :
  dict_get d k = Some old →
  (sum_list ((λ item, f item.2) <$> dict_set d k v) + f old
   = sum_list ((λ item, f item.2) <$> d) + f v)%nat.
Proof.
  induction d as [|[k0 v0] d IH]; cbn; [done|].
  destruct (decide (k0 = k)) as [->|Hne]; cbn.
  - intros [= ->]. lia.
  - intros H. specialize (IH H). lia.
Qed.

Lemma sum_dict_set_new (f : V → nat) d k v :
  dict_get d k = None →
  sum_list ((λ item, f item.2) <$> dict_set d k v)
  = (sum_list ((λ item, f item.2) <$> d) + f v)%nat.
Proof.
  induction d as [|[k0 v0] d IH]; cbn; [lia|].
  destruct (decide (k0 = k)) as [->|Hne]; cbn; [done|].
  intros H. rewrite (IH H). lia.
Qed.
End DictMore.

Lemma filter_insert_length {A} (P : A → Prop) `{!∀ x, Decision (P x)}
    (l : list A) i x y :
  l !! i = Some x →
  (length (filter P (<[i := y]> l)) + (if decide (P x) then 1 else 0)
   = length (filter P l) + (if decide (P y) then 1 else 0))%nat.
Proof.
  revert i. induction l as [|z l IH]; intros i Hi; [done|].
  destruct i as [|i]; cbn in Hi.
  - injection Hi as ->. change (<[0%nat := y]> (x :: l)) with (y :: l).
    rewrite !filter_cons.
    destruct (decide (P x)), (decide (P y)); cbn [length]; lia.
  - specialize (IH i Hi). change (<[S i := y]> (z :: l)) with (z :: <[i := y]> l).
    rewrite !filter_cons.
    destruct (decide (P z)); cbn [length]; lia.
Qed.

Section UpdateFacts.
Context {Json : Type} `{!JsonNull Json}.
Variable json_loads : string → Loaded Json.
Variable empty_dict : Json.
Implicit Types (st : State Json) (agent : AgentSession.t Json)
  (task : WorkflowTask.t Json) (q : list (WorkflowTask.t Json)).

Lemma find_task_to_claim_pending task_id q i task :
  find_task_to_claim task_id q = Some (i, task) →
  q !! i = Some task ∧ WorkflowTask.status task = Pending.
Proof.
  unfold find_task_to_claim.
  destruct (truthy task_id); intros (? & Hc & _)%list_find_Some; by destruct Hc.
Qed.

(** Every call is one of the updates, or a confirmed clear. *)
Lemma exec_update env c st :
  update st (snd (exec json_loads empty_dict env c st))
  ∨ (clears c ∧ snd (exec json_loads empty_dict env c st) = cleared st).
Proof.
  destruct c; cbn [exec returns snd].
  - left. unfold register_agent.
    destruct (dict_get (agents st) agent_id) as [agent|] eqn:Hget; cbn [snd].
    + eapply update_session; [done| |done]. by repeat split.
    + eapply update_registered; [done| | |done]; done.
  - left. by apply update_none.
  - left. unfold deregister_agent.
    destruct (dict_get (agents st) agent_id) as [agent|] eqn:Hget; cbn [snd].
    + eapply update_session; [done| |done]. by repeat split.
    + by apply update_none.
  - left. unfold share_knowledge.
    destruct (loads_or_empty _ _ knowledge_content); [|by apply update_none..].
    destruct (loads_or_empty _ _ metadata); [|by apply update_none..].
    by eapply update_knowledge.
  - left. rewrite query_knowledge_unfold. by eapply update_knowledge.
  - left. unfold create_workflow_task.
    destruct (loads_or_empty _ _ task_params); [|by apply update_none..].
    by eapply update_created.
  - left. unfold claim_workflow_task.
    destruct (dict_get (agents st) agent_id) as [agent|] eqn:Hget;
      [|by apply update_none].
    destruct (find_task_to_claim task_id (task_queue st)) as [[i task]|] eqn:Hfind;
      [|by apply update_none].
    apply find_task_to_claim_pending in Hfind as [Hi Hp].
    by eapply (update_claimed _ _ (now env)).
  - left. unfold complete_workflow_task.
    destruct (list_find _ _) as [[i task]|] eqn:Hfind; [|by apply update_none].
    apply list_find_Some in Hfind as (Hi & _ & _).
    destruct (loads_or_empty _ _ result); [|by apply update_none..].
    by eapply update_completed.
  - left. by apply update_none.
  - left. by apply update_none.
  - unfold clear_orchestration_state. destruct confirm; cbn.
    + by right.
    + left. by apply update_none.
Qed.

Lemma exec_update_no_clear env c st :
  ¬ clears c → update st (snd (exec json_loads empty_dict env c st)).
Proof. intros Hc. by destruct (exec_update env c st) as [?|[? _]]. Qed.

Lemma task_fields_fit_mono st st' task :
  (∀ a, is_Some (dict_get (agents st) a) → is_Some (dict_get (agents st') a)) →
  task_fields_fit st task → task_fields_fit st' task.
Proof.
  intros Hmono. unfold task_fields_fit.
  destruct (WorkflowTask.status task); try done.
  intros (? & ? & ? & a & ? & ?). split_and!; try done.
  exists a. split; [done|]. by apply Hmono.
Qed.

Lemma consistent_initial : consistent (@initial_state Json).
Proof. split_and!; cbn; try constructor. Qed.

Lemma consistent_cleared st : consistent (cleared st).
Proof. split_and!; cbn; try constructor. Qed.

Lemma update_consistent st st' : update st st' → consistent st → consistent st'.
Proof.
  intros Hup (Hid & Hnd & Hfit & Hcount & Hhist).
  unfold total_task_count, started_tasks, finished_tasks in *.
  destruct Hup as [->|kb ->|agent_id agent Hnone Haid Htc ->
                  |agent_id agent agent' Hget Hsame ->
                  |now task_id task_type params assigned priority ->
                  |now agent_id i task agent Hget Hi Hp ->
                  |i task success ts result_data entry Hi ->];
    unfold consistent, total_task_count, started_tasks, finished_tasks.
  - done.
  - cbn. by split_and!.
  - cbn. split_and!; try done.
    + by apply dict_set_Forall.
    + by apply dict_set_NoDup.
    + eapply Forall_impl; [done|]. intros t. apply task_fields_fit_mono.
      intros a. apply dict_get_set_is_Some.
    + rewrite (sum_dict_set_new AgentSession.task_count) by done. lia.
  - cbn. destruct Hsame as (Hsid & _ & _ & _ & Hstc & _). split_and!; try done.
    + apply dict_set_Forall; [done|]. cbn. rewrite Hsid.
      rewrite Forall_forall in Hid.
      apply (Hid (agent_id, agent)). by apply dict_get_Some_elem.
    + by apply dict_set_NoDup.
    + eapply Forall_impl; [done|]. intros t. apply task_fields_fit_mono.
      intros a. apply dict_get_set_is_Some.
    + pose proof (sum_dict_set_present AgentSession.task_count
                    (agents st) agent_id agent' agent Hget). lia.
  - cbn. split_and!; try done.
    + apply Forall_forall. intros t Ht. rewrite sort_by_priority_perm in Ht.
      apply elem_of_app in Ht as [Ht| ->%list_elem_of_singleton].
      * rewrite Forall_forall in Hfit. by apply Hfit.
      * done.
    + rewrite sort_by_priority_perm, filter_app, length_app, Hcount.
      rewrite filter_cons_False by apply is_Some_None. cbn. lia.
    + rewrite sort_by_priority_perm, filter_app, length_app.
      rewrite filter_cons_False by done. cbn. lia.
  - assert (task_fields_fit st task) as Hfit_task.
    { rewrite Forall_forall in Hfit. apply Hfit. by eapply list_elem_of_lookup_2. }
    unfold task_fields_fit in Hfit_task. rewrite Hp in Hfit_task.
    destruct Hfit_task as (Hstart & Hcompl & Hres).
    cbn [claimed_state agents task_queue workflow_history]. split_and!; try done.
    + apply dict_set_Forall; [done|]. cbn.
      rewrite Forall_forall in Hid.
      apply (Hid (agent_id, agent)). by apply dict_get_Some_elem.
    + by apply dict_set_NoDup.
    + apply Forall_forall. intros t [->|Ht]%elem_of_insert_inv.
      * unfold task_fields_fit. cbn. split_and!; try done.
        exists agent_id. split; [done|]. by rewrite dict_get_set_eq.
      * rewrite Forall_forall in Hfit. eapply task_fields_fit_mono; [|by apply Hfit].
        intros a. cbn. apply dict_get_set_is_Some.
    + pose proof (sum_dict_set_present AgentSession.task_count (agents st) agent_id
                    {| AgentSession.agent_id := AgentSession.agent_id agent;
                       AgentSession.agent_type := AgentSession.agent_type agent;
                       AgentSession.capabilities := AgentSession.capabilities agent;
                       AgentSession.created_at := AgentSession.created_at agent;
                       AgentSession.last_active := now 1%nat;
                       AgentSession.status := AgentSession.status agent;
                       AgentSession.task_count := S (AgentSession.task_count agent);
                       AgentSession.metadata := AgentSession.metadata agent |}
                    agent Hget) as Hsum.
      cbn [AgentSession.task_count] in Hsum.
      pose proof (filter_insert_length
                    (λ t : WorkflowTask.t Json, is_Some (WorkflowTask.started_at t))
                    (task_queue st) i task
                    (WorkflowTask.claim agent_id (now 0%nat) task) Hi) as Hlen.
      rewrite decide_False in Hlen by (rewrite Hstart; apply is_Some_None).
      rewrite decide_True in Hlen by (cbn; by eexists).
      unfold WorkflowTask.claim in Hlen. lia.
    + pose proof (filter_insert_length
                    (λ t : WorkflowTask.t Json,
                       is_finished (WorkflowTask.status t) = true)
                    (task_queue st) i task
                    (WorkflowTask.claim agent_id (now 0%nat) task) Hi) as Hlen.
      rewrite decide_False in Hlen by (by rewrite Hp).
      rewrite decide_False in Hlen by done.
      unfold WorkflowTask.claim in Hlen. lia.
  - cbn [set_workflow_history set_task_queue agents task_queue workflow_history].
    split_and!; try done.
    + apply Forall_forall. intros t [->|Ht]%elem_of_insert_inv.
      * unfold task_fields_fit. cbn. by destruct success.
      * rewrite Forall_forall in Hfit. by apply Hfit.
    + pose proof (filter_insert_length
                    (λ t : WorkflowTask.t Json, is_Some (WorkflowTask.started_at t))
                    (task_queue st) i task
                    (WorkflowTask.complete success ts result_data task) Hi) as Hlen.
      cbn [WorkflowTask.complete WorkflowTask.started_at] in Hlen.
      destruct (decide (is_Some (WorkflowTask.started_at task))); lia.
    + pose proof (filter_insert_length
                    (λ t : WorkflowTask.t Json,
                       is_finished (WorkflowTask.status t) = true)
                    (task_queue st) i task
                    (WorkflowTask.complete success ts result_data task) Hi) as Hlen.
      rewrite length_app. cbn [length].
      destruct (decide (is_finished (WorkflowTask.status task) = true)),
        (decide (is_finished
                   (WorkflowTask.status
                      (WorkflowTask.complete success ts result_data task)) = true));
        lia.
Qed.

Lemma exec_consistent env c st :
  consistent st → consistent (snd (exec json_loads empty_dict env c st)).
Proof.
  intros Hst. destruct (exec_update env c st) as [Hup|[_ ->]].
  - by eapply update_consistent.
  - apply consistent_cleared.
Qed.

Lemma run_consistent calls : ∀ st,
  consistent st → consistent (run json_loads empty_dict calls st).
Proof.
  induction calls as [|[env c] calls IH]; intros st Hst; [done|].
  cbn [run]. by apply IH, exec_consistent.
Qed.
End UpdateFacts.

(** ** What holds in every state the tools can reach *)

Section Reachable.
Context {Json : Type} `{!JsonNull Json}.
Variable json_loads : string → Loaded Json.
Variable empty_dict : Json.
Implicit Types (st : State Json) (agent : AgentSession.t Json)
  (task : WorkflowTask.t Json) (calls : list (Env * Call)).

(** X6.  In every state the tools can reach, each session is stored under
    its own agent id and no id has two sessions, so that the agents
    [list_active_agents] lists have distinct ids. *)
Theorem registry_ids_distinct calls :
  let st := run json_loads empty_dict calls initial_state in
  (∀ agent_id agent,
     dict_get (agents st) agent_id = Some agent →
     AgentSession.agent_id agent = agent_id)
  ∧ NoDup (agents st).*1
  ∧ NoDup (listed_agents (fst (list_active_agents st))).*1.
Proof.
  intros st.
  destruct (run_consistent json_loads empty_dict calls initial_state
              consistent_initial) as (Hid & Hnd & _).
  fold st in Hid, Hnd. rewrite Forall_forall in Hid.
  split_and!; [|done|].
  - intros agent_id agent Hget.
    apply (Hid (agent_id, agent)). by apply dict_get_Some_elem.
  - rewrite listed_agents_list_active_agents, <- list_fmap_compose.
    erewrite list_fmap_ext; [exact Hnd|].
    intros i [k a] Hi. cbn. apply (Hid (k, a)). by eapply list_elem_of_lookup_2.
Qed.

(** X7.  In every state the tools can reach, the attributes of a task fit
    its status: a pending task has no start time and no completion time,
    and its result is [None]; a claimed task has a start time, no
    completion time and the result [None], and is assigned to a registered
    agent; a completed or failed task has a completion time. *)
Theorem task_fields_fit_status calls :
  let st := run json_loads empty_dict calls initial_state in
  Forall (task_fields_fit st) (task_queue st).
Proof.
  intros st.
  by destruct (run_consistent json_loads empty_dict calls initial_state
                 consistent_initial) as (_ & _ & Hfit & _).
Qed.

(** X8.  In every state the tools can reach, the task counts of the
    registered agents add up to the number of tasks of the queue that have
    been claimed (those with a start time): every claim counts once, for the
    agent that made it, and nothing else changes a count. *)
Theorem task_counts_add_up calls :
  let st := run json_loads empty_dict calls initial_state in
  total_task_count st = length (started_tasks st).
Proof.
  intros st.
  by destruct (run_consistent json_loads empty_dict calls initial_state
                 consistent_initial) as (_ & _ & _ & Hcount & _).
Qed.

(** X9.  The [completed_tasks] that [get_orchestration_status] reports is
    the length of the history.  In every state the tools can reach it is at
    least the number of tasks of the queue that are completed or failed:
    it counts failed tasks too, and a task once for each of its
    completions. *)
Theorem completed_tasks_counts_history calls :
  let st := run json_loads empty_dict calls initial_state in
  orchestration_count "completed_tasks" (fst (get_orchestration_status st))
    = Some (Z.of_nat (length (workflow_history st)))
  ∧ (length (finished_tasks st) ≤ length (workflow_history st))%nat.
Proof.
  intros st. split; [done|].
  by destruct (run_consistent json_loads empty_dict calls initial_state
                 consistent_initial) as (_ & _ & _ & _ & Hhist).
Qed.
End Reachable.

(** ** What only a clear takes away *)

Section Persistence.
Context {Json : Type} `{!JsonNull Json}.
Variable json_loads : string → Loaded Json.
Variable empty_dict : Json.
Implicit Types (st : State Json) (agent : AgentSession.t Json)
  (task : WorkflowTask.t Json) (calls : list (Env * Call)).

Lemma same_identity_refl task : same_identity task task.
Proof. by repeat split. Qed.

Lemma same_identity_trans task1 task2 task3 :
  same_identity task1 task2 → same_identity task2 task3 → same_identity task1 task3.
Proof.
  intros (? & ? & ? & ? & ? & ?) (? & ? & ? & ? & ? & ?).
  repeat split; congruence.
Qed.

Lemma session_continues_refl agent : session_continues agent agent.
Proof. by repeat split. Qed.

Lemma session_continues_trans agent1 agent2 agent3 :
  session_continues agent1 agent2 → session_continues agent2 agent3 →
  session_continues agent1 agent3.
Proof.
  intros (? & ? & ? & ? & ? & ?) (? & ? & ? & ? & ? & ?).
  repeat split; try congruence. lia.
Qed.

Lemma update_history st st' :
  update st st' → workflow_history st `prefix_of` workflow_history st'.
Proof.
  intros [->|kb ->|agent_id agent Hnone Haid Htc ->
         |agent_id agent agent' Hget Hsame ->
         |now task_id task_type params assigned priority ->
         |now agent_id i task agent Hget Hi Hp ->
         |i task success ts result_data entry Hi ->]; cbn; try done.
  by apply prefix_app_r.
Qed.

Lemma update_task st st' task :
  update st st' → task ∈ task_queue st →
  ∃ task', task' ∈ task_queue st' ∧ same_identity task task'.
Proof.
  intros [->|kb ->|agent_id agent Hnone Haid Htc ->
         |agent_id agent agent' Hget Hsame ->
         |now task_id task_type params assigned priority ->
         |now agent_id i task0 agent Hget Hi Hp ->
         |i task0 success ts result_data entry Hi ->] Hin; cbn;
    try (exists task; split; [done|apply same_identity_refl]).
  - exists task. split; [|apply same_identity_refl].
    rewrite sort_by_priority_perm. apply elem_of_app. by left.
  - apply list_elem_of_lookup in Hin as [j Hj].
    destruct (decide (j = i)) as [->|Hne].
    + rewrite Hi in Hj. injection Hj as ->. eexists. split.
      * apply list_elem_of_lookup. exists i.
        apply list_lookup_insert_eq. by eapply lookup_lt_Some.
      * by repeat split.
    + exists task. split; [|apply same_identity_refl].
      apply list_elem_of_lookup. exists j. by rewrite list_lookup_insert_ne.
  - apply list_elem_of_lookup in Hin as [j Hj].
    destruct (decide (j = i)) as [->|Hne].
    + rewrite Hi in Hj. injection Hj as ->. eexists. split.
      * apply list_elem_of_lookup. exists i.
        apply list_lookup_insert_eq. by eapply lookup_lt_Some.
      * by repeat split.
    + exists task. split; [|apply same_identity_refl].
      apply list_elem_of_lookup. exists j. by rewrite list_lookup_insert_ne.
Qed.

Lemma update_agent st st' agent_id agent :
  update st st' → dict_get (agents st) agent_id = Some agent →
  ∃ agent', dict_get (agents st') agent_id = Some agent'
    ∧ session_continues agent agent'.
Proof.
  intros [->|kb ->|k agent0 Hnone Haid Htc ->
         |k agent0 agent' Hget Hsame ->
         |now task_id task_type params assigned priority ->
         |now k i task0 agent0 Hget Hi Hp ->
         |i task0 success ts result_data entry Hi ->] Hagent; cbn;
    try (exists agent; split; [done|apply session_continues_refl]).
  - exists agent. split; [|apply session_continues_refl].
    rewrite dict_get_set_ne; [done|]. intros ->. congruence.
  - destruct (decide (k = agent_id)) as [->|Hne].
    + rewrite Hget in Hagent. injection Hagent as ->. exists agent'.
      split; [by rewrite dict_get_set_eq|].
      destruct Hsame as (? & ? & ? & ? & ? & ?). repeat split; try done. lia.
    + exists agent. split; [|apply session_continues_refl].
      by rewrite dict_get_set_ne.
  - destruct (decide (k = agent_id)) as [->|Hne].
    + rewrite Hget in Hagent. injection Hagent as ->. eexists.
      split; [by rewrite dict_get_set_eq|].
      repeat split; cbn; lia.
    + exists agent. split; [|apply session_continues_refl].
      by rewrite dict_get_set_ne.
Qed.

Lemma run_no_clear (R : State Json → State Json → Prop) calls :
  (∀ st, R st st) →
  (∀ st1 st2 st3, R st1 st2 → R st2 st3 → R st1 st3) →
  (∀ st st', update st st' → R st st') →
  no_clear calls →
  ∀ st, R st (run json_loads empty_dict calls st).
Proof.
  intros Hrefl Htrans Hup. induction 1 as [|[env c] calls Hc Hcalls IH]; intros st.
  - apply Hrefl.
  - cbn [run]. eapply Htrans; [|apply IH].
    apply Hup. by apply exec_update_no_clear.
Qed.

(** X10.  The history only grows at its end.  Through every sequence of
    calls with no confirmed clear among them, the records of the history
    stay where they are, unchanged; a call can only add records behind
    them. *)
Theorem workflow_history_append_only calls st :
  no_clear calls →
  workflow_history st `prefix_of`
    workflow_history (run json_loads empty_dict calls st).
Proof.
  intros Hcalls.
  apply (run_no_clear (λ s s', workflow_history s `prefix_of` workflow_history s'));
    [done| |apply update_history|done].
  intros s1 s2 s3. apply PreOrder_Transitive.
Qed.

(** X11.  No call removes a task or changes what identifies it.  Through
    every sequence of calls with no confirmed clear among them, a task of
    the queue stays in the queue, with its id, type, parameters, priority
    and creation time. *)
Theorem tasks_stay_in_queue calls st task :
  no_clear calls →
  task ∈ task_queue st →
  ∃ task',
    task' ∈ task_queue (run json_loads empty_dict calls st)
    ∧ same_identity task task'.
Proof.
  intros Hcalls. revert task.
  apply (run_no_clear
           (λ s s', ∀ task, task ∈ task_queue s →
              ∃ task', task' ∈ task_queue s' ∧ same_identity task task'));
    [| |intros s s' Hup task; by apply update_task|done].
  - intros s task Hin. exists task. split; [done|apply same_identity_refl].
  - intros s1 s2 s3 H12 H23 task Hin.
    destruct (H12 task Hin) as (task2 & Hin2 & Hsame2).
    destruct (H23 task2 Hin2) as (task3 & Hin3 & Hsame3).
    exists task3. split; [done|]. by eapply same_identity_trans.
Qed.

(** X12.  No call removes an agent: a deregistration only marks it
    inactive.  Through every sequence of calls with no confirmed clear among
    them, a registered agent stays registered under its id, with its type,
    capabilities, creation time and metadata, and its task count never goes
    down. *)
Theorem agents_stay_registered calls st agent_id agent :
  no_clear calls →
  dict_get (agents st) agent_id = Some agent →
  ∃ agent',
    dict_get (agents (run json_loads empty_dict calls st)) agent_id = Some agent'
    ∧ session_continues agent agent'.
Proof.
  intros Hcalls. revert agent.
  apply (run_no_clear
           (λ s s', ∀ agent, dict_get (agents s) agent_id = Some agent →
              ∃ agent', dict_get (agents s') agent_id = Some agent'
                ∧ session_continues agent agent'));
    [| |intros s s' Hup agent; by apply update_agent|done].
  - intros s agent Hget. exists agent. split; [done|apply session_continues_refl].
  - intros s1 s2 s3 H12 H23 agent Hget.
    destruct (H12 agent Hget) as (agent2 & Hget2 & Hc2).
    destruct (H23 agent2 Hget2) as (agent3 & Hget3 & Hc3).
    exists agent3. split; [done|]. by eapply session_continues_trans.
Qed.
End Persistence.

(** ** Where a new task goes, and which task a claim takes *)

Section QueueMore.
Context {Json : Type} `{!JsonNull Json}.
Variable json_loads : string → Loaded Json.
Variable empty_dict : Json.
Implicit Types (st : State Json) (agent : AgentSession.t Json)
  (t x y task : WorkflowTask.t Json) (l q : list (WorkflowTask.t Json))
  (calls : list (Env * Call)).

Lemma insert_by_priority_head x l :
  Forall (λ y, WorkflowTask.priority y ≤ WorkflowTask.priority x) l →
  insert_by_priority x l = x :: l.
Proof.
  destruct l as [|y l]; [done|]. intros [Hy _]%Forall_cons. cbn.
  destruct (Z.leb_spec (WorkflowTask.priority y) (WorkflowTask.priority x)); [done|lia].
Qed.

(** Sorting a queue that is in order with one more task at its end. *)
Lemma sort_append_split l t :
  StronglySorted (λ x y, WorkflowTask.priority y ≤ WorkflowTask.priority x) l →
  ∃ l1 l2,
    l = l1 ++ l2
    ∧ sort_by_priority (l ++ [t]) = l1 ++ t :: l2
    ∧ Forall (λ x, WorkflowTask.priority t ≤ WorkflowTask.priority x) l1
    ∧ Forall (λ x, WorkflowTask.priority x < WorkflowTask.priority t) l2.
Proof.
  induction l as [|x l IH]; intros Hs.
  - exists [], []. by split_and!.
  - apply StronglySorted_inv in Hs as [Hs Hx].
    destruct (IH Hs) as (l1 & l2 & -> & Hsort & H1 & H2).
    cbn [app sort_by_priority]. rewrite Hsort.
    destruct l1 as [|y l1].
    + cbn [app] in *. cbn [insert_by_priority].
      destruct (Z.leb_spec (WorkflowTask.priority t) (WorkflowTask.priority x)) as [Hle|Hgt].
      * exists [x], l2. split_and!; try done. by repeat constructor.
      * exists [], (x :: l2). rewrite insert_by_priority_head by done.
        split_and!; try done. by constructor.
    + apply Forall_cons in Hx as [Hy Hx]. apply Forall_cons in H1 as [Hty H1].
      cbn [app insert_by_priority].
      destruct (Z.leb_spec (WorkflowTask.priority y) (WorkflowTask.priority x)) as [Hle|Hgt];
        [|lia].
      exists (x :: y :: l1), l2. split_and!; try done.
      constructor; [lia|]. by constructor.
Qed.

Lemma sorted_descending l :
  StronglySorted task_before l →
  StronglySorted (λ x y, WorkflowTask.priority y ≤ WorkflowTask.priority x) l.
Proof.
  induction 1 as [|x l Hl IH Hx]; constructor; [done|].
  eapply Forall_impl; [done|]. intros y. unfold task_before. cbn. lia.
Qed.

(** X13.  A new task goes behind the tasks whose priority is as high as
    its own or higher, and in front of those whose priority is lower; the
    tasks that were in the queue keep their order.  This holds in every
    state the tools can reach, for a call whose parameters are accepted. *)
Theorem create_workflow_task_position calls (now : Clock) (time_ms : Z)
    (task_type task_params assigned_agent : string) (priority : Z) (params : Json) :
  loads_or_empty json_loads empty_dict task_params = Value params →
  let st := run json_loads empty_dict calls initial_state in
  let st' :=
    snd (create_workflow_task json_loads empty_dict now time_ms
           task_type task_params assigned_agent priority st) in
  let new :=
    WorkflowTask.init (next_oid st) now ("task_" +:+ pretty time_ms) task_type params
      (Some assigned_agent) priority in
  ∃ before after,
    task_queue st = before ++ after
    ∧ task_queue st' = before ++ new :: after
    ∧ Forall (λ task, priority ≤ WorkflowTask.priority task) before
    ∧ Forall (λ task, WorkflowTask.priority task < priority) after.
Proof.
  intros Hparams st st' new. subst st'. unfold create_workflow_task.
  rewrite Hparams. cbn [snd task_queue]. fold new.
  assert (queue_inv st) as (Hs & _ & _).
  { apply run_inv, queue_inv_initial. }
  apply sorted_descending in Hs.
  destruct (sort_append_split (task_queue st) new Hs) as (l1 & l2 & Hq & Hsort & H1 & H2).
  exists l1, l2. by split_and!.
Qed.

(** X14.  A claim with no task id takes a task of the highest priority
    among those that can be claimed, and the oldest one of this priority.
    In every state the tools can reach, if some task is pending and has no
    assigned agent, the claim of a registered agent succeeds for a task that
    no other such task precedes in priority or, at equal priority, in
    age. *)
Theorem claim_workflow_task_highest_priority calls (now : Clock)
    (agent_id : string) agent :
  let st := run json_loads empty_dict calls initial_state in
  dict_get (agents st) agent_id = Some agent →
  (∃ t, t ∈ task_queue st ∧ claimable_auto t) →
  ∃ i task,
    task_queue st !! i = Some task
    ∧ claimable_auto task
    ∧ claim_workflow_task now agent_id EmptyString st =
        (claimed_response task, claimed_state now agent_id i task agent st)
    ∧ ∀ t, t ∈ task_queue st → claimable_auto t →
        WorkflowTask.priority t ≤ WorkflowTask.priority task
        ∧ (WorkflowTask.priority t = WorkflowTask.priority task →
           (WorkflowTask.oid task ≤ WorkflowTask.oid t)%nat).
Proof.
  intros st Hagent (t0 & Hin0 & Hc0).
  destruct (list_find_elem_of claimable_auto (task_queue st) t0 Hin0 Hc0)
    as [[i task] Hfind].
  pose proof Hfind as (Hi & Hc & Hfirst)%list_find_Some.
  exists i, task. split_and!; [done|done| |].
  - apply claim_workflow_task_found; [done|].
    unfold find_task_to_claim. by rewrite truthy_empty.
  - assert (queue_inv st) as (Hs & _ & _).
    { apply run_inv, queue_inv_initial. }
    intros t [j Hj]%list_elem_of_lookup Hct.
    destruct (decide (j < i)%nat) as [Hlt|Hge].
    { exfalso. by eapply Hfirst. }
    destruct (decide (j = i)) as [->|Hne].
    { rewrite Hi in Hj. injection Hj as ->. split; [lia|]. intros _. lia. }
    assert (task_before task t) as Hbefore.
    { eapply (StronglySorted_lookup task_before); [done|exact Hi|exact Hj|lia]. }
    unfold task_before in Hbefore. lia.
Qed.

(** X15.  A task is claimed by its id at most once.  When the id names
    one task of the queue, and this task is pending, a claim by this id
    succeeds, and every further claim by this id, by the same agent or by
    another registered one, answers "No available tasks to claim" and
    changes nothing. *)
Theorem claim_workflow_task_by_id_once (now1 now2 : Clock)
    (agent1_id agent2_id task_id : string) st agent1 (i : nat) task :
  dict_get (agents st) agent1_id = Some agent1 →
  is_Some (dict_get (agents st) agent2_id) →
  task_id ≠ EmptyString →
  task_queue st !! i = Some task →
  WorkflowTask.task_id task = task_id →
  WorkflowTask.status task = Pending →
  (∀ j task', task_queue st !! j = Some task' → j ≠ i →
     WorkflowTask.task_id task' ≠ task_id) →
  let st1 := claimed_state now1 agent1_id i task agent1 st in
  claim_workflow_task now1 agent1_id task_id st = (claimed_response task, st1)
  ∧ claim_workflow_task now2 agent2_id task_id st1 =
      (error "No available tasks to claim", st1).
Proof.
  intros Ha1 Ha2 Hid Hi Htid Hp Hothers st1. apply truthy_true in Hid. split.
  - apply claim_workflow_task_found; [done|].
    unfold find_task_to_claim. rewrite Hid.
    apply list_find_Some. split_and!; [done|done|].
    intros j task' Hj Hlt [Hid' _]. eapply (Hothers j task'); [done|lia|done].
  - destruct (claimed_state_registered now1 agent1_id i task agent1 st agent2_id Ha2)
      as [agent2 Hagent2].
    eapply claim_workflow_task_none; [done|].
    unfold find_task_to_claim. rewrite Hid.
    apply list_find_None, Forall_forall.
    intros task' [j Hj]%list_elem_of_lookup. subst st1.
    cbn [claimed_state task_queue] in Hj.
    apply list_lookup_insert_Some in Hj as [(-> & <- & _)|[Hne Hj]].
    + by intros [_ ?].
    + intros [Hid' _]. by eapply (Hothers j task').
Qed.
End QueueMore.

(** ** Responses *)

Section ResponseFacts.
Context {Json : Type} `{!JsonNull Json}.
Variable json_loads : string → Loaded Json.
Variable empty_dict : Json.
Implicit Types (st : State Json) (task : WorkflowTask.t Json).

Lemma response_status_head (s : string) (rest : list (string * Val Json)) :
  response_status (VDict (("status", VStr s) :: rest)) = Some s.
Proof. reflexivity. Qed.

Lemma list_skips_status (s : TaskStatus) task :
  list_skips (TaskStatus_str s) EmptyString task = false
  ↔ WorkflowTask.status task = s.
Proof.
  unfold list_skips.
  destruct s, (WorkflowTask.status task); vm_compute; split; congruence.
Qed.

Lemma count_if_length {A} (test : A → bool) (P : A → Prop) `{!∀ x, Decision (P x)}
    (xs : list A) :
  (∀ x, test x = true ↔ P x) →
  count_if test xs = Z.of_nat (length (filter P xs)).
Proof.
  intros Hiff. unfold count_if. do 2 f_equal. by apply list_filter_iff.
Qed.

(** X16.  The counts of [get_orchestration_status] are those of the
    listings: its pending and claimed tasks are as many as
    [list_workflow_tasks] lists for these statuses, its agents as many as
    [list_active_agents] lists, and its active agents as many as are listed
    with the status "active".  None of the three tools changes the
    state. *)
Theorem status_counts_match_listings st :
  let status := fst (get_orchestration_status st) in
  orchestration_count "pending_tasks" status =
    int_field "total_tasks" (fst (list_workflow_tasks "pending" EmptyString st))
  ∧ orchestration_count "claimed_tasks" status =
      int_field "total_tasks" (fst (list_workflow_tasks "claimed" EmptyString st))
  ∧ orchestration_count "total_agents" status =
      int_field "total_agents" (fst (list_active_agents st))
  ∧ orchestration_count "active_agents" status =
      Some (Z.of_nat
              (length (filter (λ listed, listed.2 = "active")
                         (listed_agents (fst (list_active_agents st))))))
  ∧ snd (get_orchestration_status st) = st
  ∧ snd (list_workflow_tasks "pending" EmptyString st) = st
  ∧ snd (list_active_agents st) = st.
Proof.
  intros status. subst status.
  assert (∀ s,
            int_field "total_tasks"
              (fst (list_workflow_tasks (TaskStatus_str s) EmptyString st))
            = Some (Z.of_nat (length (filter (λ t, WorkflowTask.status t = s)
                                        (task_queue st))))) as Hlist.
  { intros s.
    change (int_field "total_tasks"
              (fst (list_workflow_tasks (TaskStatus_str s) EmptyString st)))
      with (Some (Z.of_nat
                    (length (task_entry <$>
                               filter (λ t, list_skips (TaskStatus_str s) EmptyString t = false)
                                 (task_queue st))))).
    rewrite length_fmap. do 3 f_equal. apply list_filter_iff, list_skips_status. }
  split_and!; try done.
  - pose proof (Hlist Pending) as Hp. cbn [TaskStatus_str] in Hp. rewrite Hp.
    change (orchestration_count "pending_tasks" (fst (get_orchestration_status st)))
      with (Some (count_if (λ t, bool_decide (WorkflowTask.status t = Pending))
                    (task_queue st))).
    f_equal. apply count_if_length. intros t. apply bool_decide_eq_true.
  - pose proof (Hlist Claimed) as Hp. cbn [TaskStatus_str] in Hp. rewrite Hp.
    change (orchestration_count "claimed_tasks" (fst (get_orchestration_status st)))
      with (Some (count_if (λ t, bool_decide (WorkflowTask.status t = Claimed))
                    (task_queue st))).
    f_equal. apply count_if_length. intros t. apply bool_decide_eq_true.
  - assert (∀ (a b : Val Json) n,
              int_field "total_agents"
                (VDict [("status", a); ("total_agents", VInt n); ("agents", b)])
              = Some n) as Hfield by reflexivity.
    unfold list_active_agents. cbn [fst]. rewrite Hfield, length_fmap. done.
  - rewrite listed_agents_list_active_agents.
    change (orchestration_count "active_agents" (fst (get_orchestration_status st)))
      with (Some (count_if (λ '(_, a), bool_decide (AgentSession.status a = Active))
                    (agents st))).
    f_equal. unfold count_if. f_equal.
    induction (agents st) as [|[k a] l IH]; [done|].
    rewrite fmap_cons, !filter_cons. cbn [fst snd].
    destruct (decide (bool_decide (AgentSession.status a = Active) = true)) as [H1|H1],
      (decide (AgentStatus_str (AgentSession.status a) = "active")) as [H2|H2];
      cbn [length]; rewrite ?IH; try done; exfalso.
    + apply bool_decide_eq_true in H1. apply H2. by rewrite H1.
    + destruct (AgentSession.status a); [by apply H1|discriminate H2].
Qed.

Lemma loads_or_empty_raised payload exc :
  loads_or_empty json_loads empty_dict payload = Raised exc →
  payload ≠ EmptyString ∧ json_loads payload = Raised exc.
Proof.
  intros Hload.
  destruct (loads_or_empty_failed json_loads empty_dict payload) as [Hne Heq].
  - intros v. by rewrite Hload.
  - split; [done|]. by rewrite <- Heq.
Qed.

(** X17.  A call changes the state only when it succeeds.  Every call ends
    in one of three ways: it returns a response with the status "success";
    or it returns an error, which is the status "error" with a message, and
    has changed nothing; or it returns nothing, because [json.loads] has
    raised on one of its payloads an exception that is no
    [JSONDecodeError], and has changed nothing either. *)
Theorem error_leaves_state_unchanged (env : Env) (c : Call) st :
  let outcome := fst (exec json_loads empty_dict env c st) in
  let st' := snd (exec json_loads empty_dict env c st) in
  (∃ response,
     outcome = Returns response ∧ response_status response = Some "success")
  ∨ (st' = st
     ∧ ((∃ msg, outcome = Returns (error msg))
        ∨ raises_from_loads json_loads c outcome)).
Proof.
  cbv zeta.
  assert (∀ (rest : list (string * Val Json)) (st' : State Json) (P : Prop),
            (∃ response,
               Returns (VDict (("status", VStr "success") :: rest)) = Returns response
               ∧ response_status response = Some "success")
            ∨ P) as Hsuccess.
  { intros rest st' P. left. by eexists. }
  assert (∀ (msg : string) (P Q : Prop),
            P ∨ (st = st ∧ ((∃ msg', Returns (@error Json msg) = Returns (error msg')) ∨ Q)))
    as Herror.
  { intros msg P Q. right. split; [done|]. left. by exists msg. }
  assert (∀ (payload exc : string) (P Q : Prop),
            payload ∈ payloads c →
            loads_or_empty json_loads empty_dict payload = Raised exc →
            P ∨ (st = st ∧ (Q ∨ raises_from_loads json_loads c (Raises exc))))
    as Hraise.
  { intros payload exc P Q Hin Hload. right. split; [done|]. right.
    apply loads_or_empty_raised in Hload as [Hne Hload].
    by exists exc, payload. }
  destruct c; cbn [exec returns fst snd].
  - unfold register_agent. destruct (dict_get _ _); by apply Hsuccess.
  - by apply Hsuccess.
  - unfold deregister_agent. destruct (dict_get _ _); [by apply Hsuccess|apply Herror].
  - unfold share_knowledge.
    destruct (loads_or_empty _ _ knowledge_content) eqn:Hkc;
      [|apply Herror|eapply Hraise; [|exact Hkc]; repeat constructor].
    destruct (loads_or_empty _ _ metadata) eqn:Hmd;
      [by apply Hsuccess|apply Herror|eapply Hraise; [|exact Hmd]; repeat constructor].
  - rewrite query_knowledge_unfold. by apply Hsuccess.
  - unfold create_workflow_task.
    destruct (loads_or_empty _ _ task_params) eqn:Htp;
      [by apply Hsuccess|apply Herror|eapply Hraise; [|exact Htp]; repeat constructor].
  - unfold claim_workflow_task. destruct (dict_get _ _); [|apply Herror].
    destruct (find_task_to_claim _ _) as [[i task]|]; [by apply Hsuccess|apply Herror].
  - unfold complete_workflow_task.
    destruct (list_find _ _) as [[i task]|]; [|apply Herror].
    destruct (loads_or_empty _ _ result) eqn:Hr;
      [by apply Hsuccess|apply Herror|eapply Hraise; [|exact Hr]; repeat constructor].
  - by apply Hsuccess.
  - by apply Hsuccess.
  - unfold clear_orchestration_state. destruct confirm; [by apply Hsuccess|apply Herror].
Qed.

(** X18.  A completion reaches the first task that has the id, whatever
    its status, and no other: when the result is accepted, this task gets
    the final status, the completion time and the result, the tasks at the
    other places of the queue (a later task with the same id among them)
    and the agents are untouched, and the history gets one more record, for
    this completion. *)
Theorem complete_workflow_task_first_match (now : Clock) (task_id result : string)
    (success : bool) st (i : nat) task (result_data : Json) :
  task_queue st !! i = Some task →
  WorkflowTask.task_id task = task_id →
  (∀ j task', task_queue st !! j = Some task' → (j < i)%nat →
     WorkflowTask.task_id task' ≠ task_id) →
  loads_or_empty json_loads empty_dict result = Value result_data →
  let outcome := fst (complete_workflow_task json_loads empty_dict now task_id result success st) in
  let st' := snd (complete_workflow_task json_loads empty_dict now task_id result success st) in
  let final := if success then Completed else Failed in
  (∃ response,
     outcome = Returns response
     ∧ response_status response = Some "success"
     ∧ field "task_status" response = Some (VStr (TaskStatus_str final)))
  ∧ task_queue st' !! i =
      Some {| WorkflowTask.oid := WorkflowTask.oid task;
              WorkflowTask.task_id := WorkflowTask.task_id task;
              WorkflowTask.task_type := WorkflowTask.task_type task;
              WorkflowTask.params := WorkflowTask.params task;
              WorkflowTask.assigned_agent := WorkflowTask.assigned_agent task;
              WorkflowTask.priority := WorkflowTask.priority task;
              WorkflowTask.status := final;
              WorkflowTask.created_at := WorkflowTask.created_at task;
              WorkflowTask.started_at := WorkflowTask.started_at task;
              WorkflowTask.completed_at := Some (now 0%nat);
              WorkflowTask.result := result_data |}
  ∧ (∀ j, j ≠ i → task_queue st' !! j = task_queue st !! j)
  ∧ workflow_history st' =
      workflow_history st ++
        [VDict [("task_id", VStr task_id);
                ("task_type", VStr (WorkflowTask.task_type task));
                ("agent", VOptStr (WorkflowTask.assigned_agent task));
                ("status", VStr (TaskStatus_str final));
                ("completed_at", VStr (now 0%nat));
                ("result", VJson result_data)]]
  ∧ agents st' = agents st
  ∧ knowledge_base st' = knowledge_base st.
Proof.
  intros Hi Hid Hfirst Hresult outcome st' final. subst outcome st' final.
  unfold complete_workflow_task.
  assert (list_find (λ t, WorkflowTask.task_id t = task_id) (task_queue st)
          = Some (i, task)) as ->.
  { apply list_find_Some. split_and!; done. }
  rewrite Hresult. cbn [fst snd].
  split_and!; try done.
  - by eexists.
  - cbn. apply list_lookup_insert_eq. by eapply lookup_lt_Some.
  - intros j Hne. cbn. by rewrite list_lookup_insert_ne.
Qed.
End ResponseFacts.

(** ** The lock *)

Section LockFacts.
Context {Json : Type} `{!JsonNull Json}.
Implicit Types (th a b : Thread Json) (st s sb : State Json) (cfg : Config Json).

Lemma in_body_inside th sb s : in_body th sb s → inside th.
Proof.
  unfold in_body, inside. destruct (th_pc th); try done; intros _; auto.
Qed.

Lemma waiting_outside th : waiting th → ¬ inside th.
Proof. intros [Hpc _] [H|[H|H]]; congruence. Qed.

Lemma finished_outside th sb s : finished th sb s → ¬ inside th.
Proof. intros [Hpc _] [H|[H|H]]; congruence. Qed.

(** X19.  The lock keeps the two calls apart.  In every configuration two
    concurrent claims can reach, at most one thread is inside the [with]
    block; the lock is held by this thread, once, and is free when neither
    is inside. *)
Theorem lock_excludes (now1 now2 : Clock) (a1 t1 a2 t2 : string) st cfg :
  rtc step (two_claims st (spawn a1 t1 now1) (spawn a2 t2 now2)) cfg →
  ∃ th1 th2,
    threads cfg = [th1; th2]
    ∧ ¬ (inside th1 ∧ inside th2)
    ∧ (inside th1 → lock cfg = Some (0%nat, 1%nat))
    ∧ (inside th2 → lock cfg = Some (1%nat, 1%nat))
    ∧ (¬ inside th1 → ¬ inside th2 → lock cfg = None).
Proof.
  intros Hreach. apply inv_reachable in Hreach; [|done|done].
  destruct Hreach as (a & b & Hth & _ & _ & Hph).
  exists a, b. split; [done|].
  inversion Hph as [? ? Hpa Hpb|? ? ? Hin Hpb|? ? ? Hpa Hin|? ? ? Hfin Hpb
                   |? ? ? Hpa Hfin|? ? sa ? Hfin Hin|? ? sb ? Hfin Hin
                   |? ? sa ? Hfa Hfb|? ? sb ? Hfb Hfa]; subst;
    repeat match goal with
           | H : waiting _ |- _ => apply waiting_outside in H
           | H : finished _ _ _ |- _ => apply finished_outside in H
           | H : in_body _ _ _ |- _ => apply in_body_inside in H
           end;
    split_and!; try done; try tauto.
Qed.
End LockFacts.

(** ** Capabilities *)

Section StringFacts.
Implicit Types (s t w x y p c : string) (a b sep : ascii) (chars : list string).

Lemma append_cons a s t : String a s +:+ t = String a (s +:+ t).
Proof. reflexivity. Qed.

Lemma append_nil_l s : EmptyString +:+ s = s.
Proof. reflexivity. Qed.

Lemma append_nil_r s : s +:+ EmptyString = s.
Proof. induction s as [|a s IH]; [done|]. by rewrite append_cons, IH. Qed.

Lemma append_assoc x y t : (x +:+ y) +:+ t = x +:+ (y +:+ t).
Proof. induction x as [|a x IH]; [done|]. by rewrite !append_cons, IH. Qed.

Lemma length_append x y :
  String.length (x +:+ y) = (String.length x + String.length y)%nat.
Proof.
  induction x as [|a x IH]; [done|].
  rewrite append_cons. cbn [String.length]. by rewrite IH.
Qed.

Lemma rev_app_append s : ∀ t, String.rev_app s t = String.rev s +:+ t.
Proof.
  unfold String.rev. induction s as [|a s IH]; intros t; [done|].
  cbn [String.rev_app].
  rewrite (IH (String a t)), (IH (String a EmptyString)), append_assoc. done.
Qed.

Lemma rev_app_of_append x y : ∀ t,
  String.rev_app (x +:+ y) t = String.rev_app y (String.rev_app x t).
Proof.
  induction x as [|a x IH]; intros t; [done|].
  rewrite append_cons. cbn [String.rev_app]. by rewrite IH.
Qed.

Lemma rev_append x y : String.rev (x +:+ y) = String.rev y +:+ String.rev x.
Proof. unfold String.rev at 1. by rewrite rev_app_of_append, rev_app_append. Qed.

Lemma rev_cons a s : String.rev (String a s) = String.rev s +:+ String a EmptyString.
Proof. unfold String.rev at 1. cbn [String.rev_app]. apply rev_app_append. Qed.

Lemma rev_involutive s : String.rev (String.rev s) = s.
Proof.
  induction s as [|a s IH]; [done|]. by rewrite rev_cons, rev_append, IH.
Qed.

Lemma count_char_append a x y :
  count_char a (x +:+ y) = (count_char a x + count_char a y)%nat.
Proof.
  induction x as [|b x IH]; [done|].
  rewrite append_cons. cbn [count_char]. rewrite IH. lia.
Qed.

(** *** [split] *)

Lemma split_length sep s : length (split sep s) = S (count_char sep s).
Proof.
  induction s as [|a s IH]; [done|]. cbn [split count_char].
  destruct (decide (a = sep)); [cbn [length]; by rewrite IH|].
  destruct (split sep s); cbn [length] in *; [done|]. done.
Qed.

Lemma split_no_sep sep s : Forall (λ w, count_char sep w = 0%nat) (split sep s).
Proof.
  induction s as [|a s IH]; [by repeat constructor|]. cbn [split].
  destruct (decide (a = sep)) as [->|Hne]; [by constructor|].
  destruct (split sep s) as [|w ws].
  - repeat constructor. cbn [count_char]. by rewrite decide_False.
  - apply Forall_cons in IH as [Hw Hws]. constructor; [|done].
    cbn [count_char]. by rewrite decide_False.
Qed.

(** Joining what was split gives the string back. *)
Lemma concat_split sep s :
  String.concat (String sep EmptyString) (split sep s) = s.
Proof.
  induction s as [|a s IH]; [done|]. cbn [split].
  pose proof (split_length sep s) as Hlen.
  destruct (split sep s) as [|w ws]; [discriminate Hlen|].
  destruct (decide (a = sep)) as [->|Hne].
  - change (String.concat (String sep EmptyString) (EmptyString :: w :: ws))
      with (EmptyString +:+ String sep EmptyString
              +:+ String.concat (String sep EmptyString) (w :: ws)).
    by rewrite IH.
  - destruct ws as [|w' ws].
    + cbn [String.concat] in *. by rewrite IH.
    + change (String.concat (String sep EmptyString) (String a w :: w' :: ws))
        with (String a w +:+ String sep EmptyString
                +:+ String.concat (String sep EmptyString) (w' :: ws)).
      change (String.concat (String sep EmptyString) (w :: w' :: ws))
        with (w +:+ String sep EmptyString
                +:+ String.concat (String sep EmptyString) (w' :: ws)) in IH.
      by rewrite append_cons, IH.
Qed.

(** *** [strip] *)

Lemma drop_prefix_Some p : ∀ s t, drop_prefix p s = Some t ↔ s = p +:+ t.
Proof.
  induction p as [|a p IH]; intros s t; cbn [drop_prefix].
  - rewrite append_nil_l. split; [by intros [= ->]|by intros ->].
  - destruct s as [|b s].
    + split; [done|]. rewrite append_cons. discriminate.
    + rewrite append_cons. destruct (decide (a = b)) as [->|Hne].
      * rewrite IH. split; [by intros ->|by intros [= ->]].
      * split; [done|]. intros [= -> _]. done.
Qed.

Lemma skip_char_Some chars s t :
  skip_char chars s = Some t → ∃ c, c ∈ chars ∧ s = c +:+ t.
Proof.
  induction chars as [|c chars IH]; [done|]. cbn [skip_char].
  destruct (drop_prefix c s) as [t'|] eqn:Hdrop.
  - intros [= ->]. exists c. split; [by left|]. by apply drop_prefix_Some.
  - intros Hskip. destruct (IH Hskip) as (c' & Hin & Heq).
    exists c'. split; [by right|done].
Qed.

Lemma skip_char_None chars s c rest :
  skip_char chars s = None → c ∈ chars → s ≠ c +:+ rest.
Proof.
  induction chars as [|c' chars IH]; [by intros _ ?%elem_of_nil|].
  cbn [skip_char]. destruct (drop_prefix c' s) as [t'|] eqn:Hdrop; [done|].
  intros Hskip [->|Hin]%elem_of_cons Heq.
  - apply drop_prefix_Some in Heq. congruence.
  - by apply (IH Hskip Hin).
Qed.

(** The loop has turns enough: it stops where no character of [chars] is
    at the front, and what it has skipped is made of such characters. *)
Lemma strip_loop_spec chars :
  Forall (λ c, c ≠ EmptyString) chars →
  ∀ fuel s, (String.length s ≤ fuel)%nat →
    ∃ skipped,
      s = skipped +:+ strip_loop chars fuel s
      ∧ made_of chars skipped
      ∧ skip_char chars (strip_loop chars fuel s) = None.
Proof.
  intros Hchars. induction fuel as [|fuel IH]; intros s Hlen; cbn [strip_loop].
  - exists EmptyString. split; [done|]. split; [constructor|].
    destruct s as [|a s]; [|cbn in Hlen; lia].
    destruct (skip_char chars EmptyString) as [t|] eqn:Hskip; [|done].
    apply skip_char_Some in Hskip as (c & Hin & Heq).
    rewrite Forall_forall in Hchars. destruct c as [|a c]; [by destruct (Hchars _ Hin)|].
    rewrite append_cons in Heq. discriminate Heq.
  - destruct (skip_char chars s) as [t|] eqn:Hskip.
    + apply skip_char_Some in Hskip as (c & Hin & ->).
      rewrite Forall_forall in Hchars. pose proof (Hchars _ Hin) as Hne.
      rewrite length_append in Hlen.
      destruct c as [|a c]; [done|]. cbn [String.length] in Hlen.
      destruct (IH t) as (skipped & Heq & Hmade & Hstop); [lia|].
      exists (String a c +:+ skipped). split_and!; [|by constructor|done].
      by rewrite append_assoc, <- Heq.
    + exists EmptyString. split; [done|]. split; [constructor|done].
Qed.

Lemma made_of_app chars x y : made_of chars x → made_of chars y → made_of chars (x +:+ y).
Proof.
  induction 1 as [|c s Hc Hs IH]; intros Hy; [done|].
  rewrite append_assoc. constructor; [done|]. by apply IH.
Qed.

Lemma made_of_rev chars s :
  made_of (String.rev <$> chars) s → made_of chars (String.rev s).
Proof.
  induction 1 as [|c s Hc Hs IH]; [constructor|].
  apply list_elem_of_fmap in Hc as (c' & -> & Hc').
  rewrite rev_append, rev_involutive. apply made_of_app; [done|].
  rewrite <- (append_nil_r c'). constructor; [done|constructor].
Qed.

Lemma whitespace_not_empty : Forall (λ c, c ≠ EmptyString) whitespace.
Proof. apply (bool_decide_unpack _). vm_compute. reflexivity. Qed.

Lemma whitespace_rev_not_empty :
  Forall (λ c, c ≠ EmptyString) (String.rev <$> whitespace).
Proof. apply (bool_decide_unpack _). vm_compute. reflexivity. Qed.

Lemma lstrip_spec s :
  ∃ skipped,
    s = skipped +:+ lstrip s
    ∧ made_of whitespace skipped
    ∧ ¬ starts_with_space (lstrip s).
Proof.
  destruct (strip_loop_spec whitespace whitespace_not_empty (String.length s) s)
    as (skipped & Heq & Hmade & Hstop); [done|].
  exists skipped. split_and!; [done|done|].
  intros (c & rest & Hin & Hstart). by eapply skip_char_None.
Qed.

Lemma rstrip_spec s :
  ∃ skipped,
    s = rstrip s +:+ skipped
    ∧ made_of whitespace skipped
    ∧ ¬ ends_with_space (rstrip s).
Proof.
  unfold rstrip.
  destruct (strip_loop_spec (String.rev <$> whitespace) whitespace_rev_not_empty
              (String.length s) (String.rev s))
    as (skipped & Heq & Hmade & Hstop).
  { clear. induction s as [|a s IH]; [done|].
    rewrite rev_cons, length_append. cbn [String.length]. lia. }
  exists (String.rev skipped). split_and!.
  - rewrite <- rev_append, <- Heq. by rewrite rev_involutive.
  - by apply made_of_rev.
  - intros (c & rest & Hin & Hend).
    eapply (skip_char_None _ _ (String.rev c) (String.rev rest)); [done| |].
    + apply list_elem_of_fmap. by exists c.
    + by rewrite <- rev_append, <- Hend, rev_involutive.
Qed.

(** What [strip] keeps of a string, and what it leaves out. *)
Lemma strip_spec s : stripped_of s (strip s).
Proof.
  unfold strip.
  destruct (lstrip_spec s) as (left & Hleft & Hmade_left & Hstart).
  destruct (rstrip_spec (lstrip s)) as (right & Hright & Hmade_right & Hend).
  exists left, right. split_and!; [|done|done| |done].
  - by rewrite <- Hright.
  - intros (c & rest & Hin & Heq). apply Hstart.
    exists c, (rest +:+ right). split; [done|].
    by rewrite Hright, Heq, append_assoc.
Qed.
End StringFacts.

Section CapabilityFacts.
Context {Json : Type} `{!JsonNull Json}.
Implicit Types (st : State Json) (agent : AgentSession.t Json).

(** X20.  A first registration stores the capabilities that the string
    lists between its commas.  An empty string gives no capability.  Any
    other string is cut at its commas, into one piece for each comma and
    one more, pieces that hold no comma and that, joined by commas, give
    the string back; the capabilities are these pieces, in this order, each
    without the whitespace at its two ends (an empty capability where a
    piece is empty or all whitespace).  The new session has the given type,
    no task and the status active. *)
Theorem register_agent_capabilities (now : Clock)
    (agent_id agent_type capabilities : string) st :
  dict_get (agents st) agent_id = None →
  ∃ agent,
    dict_get (agents (snd (register_agent now agent_id agent_type capabilities st)))
      agent_id = Some agent
    ∧ AgentSession.agent_type agent = agent_type
    ∧ AgentSession.task_count agent = 0%nat
    ∧ AgentSession.status agent = Active
    ∧ (capabilities = EmptyString → AgentSession.capabilities agent = [])
    ∧ (capabilities ≠ EmptyString →
       ∃ pieces,
         String.concat "," pieces = capabilities
         ∧ length pieces = S (count_char "," capabilities)
         ∧ Forall (λ piece, count_char "," piece = 0%nat) pieces
         ∧ Forall2 stripped_of pieces (AgentSession.capabilities agent)).
Proof.
  intros Hnone. unfold register_agent. rewrite Hnone. cbn [snd agents set_agents].
  eexists. split; [by rewrite dict_get_set_eq|].
  cbn [AgentSession.init AgentSession.agent_type AgentSession.task_count
       AgentSession.status AgentSession.capabilities default].
  split_and!; try done.
  - by intros ->.
  - intros Hne. apply truthy_true in Hne. rewrite Hne. unfold id.
    exists (split "," capabilities). split_and!.
    + apply concat_split.
    + apply split_length.
    + apply split_no_sep.
    + apply Forall2_fmap_r, Forall_Forall2_diag, Forall_forall.
      intros piece _. apply strip_spec.
Qed.
End CapabilityFacts.

(** ** The further properties at work on the samples *)

Lemma share_knowledge_then_query_witness :
  let shared :=
    share_knowledge sample_loads (JObj []) (sample_clock "s") 1004
      "actor" "{}" "alice" EmptyString sample_atoms in
  dict_get (knowledge_base (snd shared)) "actor_1004" =
    Some {| KnowledgeAtom.atom_type := "actor";
            KnowledgeAtom.content := JObj [];
            KnowledgeAtom.source_agent := Some "alice";
            KnowledgeAtom.created_at := "s#0";
            KnowledgeAtom.access_count := 0;
            KnowledgeAtom.last_accessed := None;
            KnowledgeAtom.metadata := Some (JObj []) |}
  ∧ ∃ k entry,
      returned_atoms
        (fst (query_knowledge (sample_clock "q") "actor" "alice" 10 (snd shared))) !! k
        = Some entry
      ∧ field "atom_id" entry = Some (VStr "actor_1004")
      ∧ field "access_count" entry = Some (VInt 1).
Proof.
  destruct (share_knowledge_then_query sample_loads (JObj [])
              (sample_clock "s") (sample_clock "q") 1004
              "actor" "{}" "alice" EmptyString 10 sample_atoms (JObj []) (JObj [])
              eq_refl eq_refl) as (_ & Hget & _ & Hquery).
  split; [exact Hget|].
  destruct Hquery as [k Hk]; [vm_compute; discriminate|].
  exists k. eexists. split; [exact Hk|]. split; reflexivity.
Defined.

Lemma claim_workflow_task_after_deregister_witness :
  let left := snd (deregister_agent "alice" sample_one_task) in
  fst (claim_workflow_task (sample_clock "c") "alice" EmptyString left) =
    claimed_response sample_task
  ∧ (AgentSession.status
       <$> dict_get
             (agents (snd (claim_workflow_task (sample_clock "c") "alice" EmptyString left)))
             "alice")
    = Some Inactive.
Proof.
  destruct (claim_workflow_task_after_deregister (sample_clock "c")
              "alice" EmptyString sample_one_task sample_alice eq_refl)
    as (Hresponse & _ & Hstatus).
  split; [|exact Hstatus].
  etrans; [exact Hresponse|]. reflexivity.
Defined.

Lemma list_active_agents_lists_inactive_witness :
  let left := snd (deregister_agent "alice" sample_one_task) in
  ("alice", "inactive") ∈ listed_agents (fst (list_active_agents left))
  ∧ int_field "total_agents" (fst (list_active_agents left)) = Some 2.
Proof.
  destruct (list_active_agents_lists_inactive "alice" sample_one_task
              sample_alice eq_refl) as (Hlisted & _ & Htotal & _).
  split; [exact Hlisted|exact Htotal].
Defined.

Lemma workflow_history_append_only_witness :
  length (workflow_history sample_worked) = 1%nat
  ∧ workflow_history sample_worked
      `prefix_of` workflow_history (sample_run sample_more_work sample_worked).
Proof.
  split; [reflexivity|].
  apply (workflow_history_append_only sample_loads (JObj []) sample_more_work).
  repeat constructor; discriminate.
Defined.

Lemma tasks_stay_in_queue_witness :
  ∃ task',
    task' ∈ task_queue (sample_run (sample_work ++ sample_more_work) sample_one_task)
    ∧ same_identity sample_task task'.
Proof.
  apply (tasks_stay_in_queue sample_loads (JObj [])
           (sample_work ++ sample_more_work) sample_one_task sample_task).
  - repeat constructor; discriminate.
  - apply list_elem_of_lookup. exists 0%nat. reflexivity.
Defined.

Lemma agents_stay_registered_witness :
  ∃ agent',
    dict_get (agents (sample_run (sample_work ++ sample_more_work) sample_one_task))
      "alice" = Some agent'
    ∧ session_continues sample_alice agent'.
Proof.
  apply (agents_stay_registered sample_loads (JObj [])
           (sample_work ++ sample_more_work) sample_one_task "alice" sample_alice).
  - repeat constructor; discriminate.
  - reflexivity.
Defined.

Lemma create_workflow_task_position_witness :
  let st := sample_run sample_four_tasks initial_state in
  let st' :=
    snd (create_workflow_task sample_loads (JObj []) (sample_clock "t5") 1005
           "E" "{}" EmptyString 5 st) in
  (WorkflowTask.task_type <$> task_queue st) = ["B"; "C"; "D"; "A"]
  ∧ ∃ before after,
      task_queue st = before ++ after
      ∧ task_queue st' =
          before
          ++ WorkflowTask.init (next_oid st) (sample_clock "t5") "task_1005" "E"
               (JObj []) (Some EmptyString) 5
             :: after
      ∧ Forall (λ task, 5 ≤ WorkflowTask.priority task) before
      ∧ Forall (λ task, WorkflowTask.priority task < 5) after.
Proof.
  split; [reflexivity|].
  apply (create_workflow_task_position sample_loads (JObj []) sample_four_tasks
           (sample_clock "t5") 1005 "E" "{}" EmptyString 5 (JObj [])).
  reflexivity.
Defined.

Lemma claim_workflow_task_highest_priority_witness :
  let st := sample_run sample_four_tasks_one_agent initial_state in
  (WorkflowTask.task_type <$> task_queue st) = ["B"; "C"; "D"; "A"]
  ∧ ∃ i task,
      task_queue st !! i = Some task
      ∧ claimable_auto task
      ∧ fst (claim_workflow_task (sample_clock "c") "alice" EmptyString st) =
          claimed_response task
      ∧ ∀ t, t ∈ task_queue st → claimable_auto t →
          WorkflowTask.priority t ≤ WorkflowTask.priority task.
Proof.
  split; [reflexivity|].
  destruct (claim_workflow_task_highest_priority sample_loads (JObj [])
              sample_four_tasks_one_agent (sample_clock "c") "alice"
              {| AgentSession.agent_id := "alice";
                 AgentSession.agent_type := "cursor";
                 AgentSession.capabilities := [];
                 AgentSession.created_at := "t5#0";
                 AgentSession.last_active := "t5#1";
                 AgentSession.status := Active;
                 AgentSession.task_count := 0;
                 AgentSession.metadata := [] |})
    as (i & task & Hi & Hauto & Hclaim & Hbest).
  - reflexivity.
  - eexists. split; [apply list_elem_of_lookup; exists 0%nat; reflexivity|].
    split; reflexivity.
  - exists i, task. split_and!; [exact Hi|exact Hauto|exact (f_equal fst Hclaim)|].
    intros t Ht Hta. by destruct (Hbest t Ht Hta).
Defined.

Lemma claim_workflow_task_by_id_once_witness :
  let st1 := claimed_state (sample_clock "c1") "alice" 0 sample_task sample_alice sample_one_task in
  claim_workflow_task (sample_clock "c1") "alice" "task_1003" sample_one_task =
    (claimed_response sample_task, st1)
  ∧ claim_workflow_task (sample_clock "c2") "bob" "task_1003" st1 =
      (error "No available tasks to claim", st1).
Proof.
  apply (claim_workflow_task_by_id_once (sample_clock "c1") (sample_clock "c2")
           "alice" "bob" "task_1003" sample_one_task sample_alice 0 sample_task).
  - reflexivity.
  - eexists. reflexivity.
  - discriminate.
  - reflexivity.
  - reflexivity.
  - reflexivity.
  - intros [|j] task' Hj Hne; [done|]. discriminate Hj.
Defined.

Lemma error_leaves_state_unchanged_witness :
  let refused :=
    exec sample_loads (JObj []) (sample_env "e1" 2001)
      (DeregisterAgent "carol") sample_one_task in
  let raised :=
    exec sample_loads (JObj []) (sample_env "e2" 2002)
      (CreateWorkflowTask "create_actor" long_number EmptyString 5) sample_one_task in
  fst refused = Returns (error "Agent carol not found")
  ∧ snd refused = sample_one_task
  ∧ fst raised = Raises "ValueError"
  ∧ snd raised = sample_one_task.
Proof.
  intros refused raised.
  destruct (error_leaves_state_unchanged sample_loads (JObj []) (sample_env "e1" 2001)
              (DeregisterAgent "carol") sample_one_task)
    as [(response & Hreturns & Hstatus)|[Hsame _]].
  { vm_compute in Hreturns. injection Hreturns as <-. discriminate Hstatus. }
  destruct (error_leaves_state_unchanged sample_loads (JObj []) (sample_env "e2" 2002)
              (CreateWorkflowTask "create_actor" long_number EmptyString 5)
              sample_one_task)
    as [(response & Hreturns & Hstatus)|[Hsame' _]].
  { vm_compute in Hreturns. discriminate Hreturns. }
  split_and!; [reflexivity|exact Hsame|vm_compute; reflexivity|exact Hsame'].
Defined.

Lemma complete_workflow_task_first_match_witness :
  let st' :=
    snd (complete_workflow_task sample_loads (JObj []) (sample_clock "c1")
           "task_1003" "true" false sample_one_task) in
  (WorkflowTask.status <$> task_queue st' !! 0%nat) = Some Failed
  ∧ (WorkflowTask.result <$> task_queue st' !! 0%nat) = Some (JBool true)
  ∧ length (workflow_history st') = 1%nat
  ∧ agents st' = agents sample_one_task.
Proof.
  destruct (complete_workflow_task_first_match sample_loads (JObj [])
              (sample_clock "c1") "task_1003" "true" false sample_one_task
              0 sample_task (JBool true))
    as (_ & Htask & _ & Hhistory & Hagents & _).
  - reflexivity.
  - reflexivity.
  - intros j task' _ Hj. lia.
  - reflexivity.
  - split_and!; [by rewrite Htask|by rewrite Htask|by rewrite Hhistory|exact Hagents].
Defined.

Lemma lock_excludes_witness :
  ∃ cfg th1 th2,
    run_schedule [0; 0; 0]%nat
      (two_claims sample_one_task
         (spawn "alice" EmptyString (sample_clock "a"))
         (spawn "bob" EmptyString (sample_clock "b"))) = Some cfg
    ∧ threads cfg = [th1; th2]
    ∧ inside th1
    ∧ ¬ inside th2
    ∧ lock cfg = Some (0%nat, 1%nat).
Proof.
  destruct (run_schedule [0; 0; 0]%nat
              (two_claims sample_one_task
                 (spawn "alice" EmptyString (sample_clock "a"))
                 (spawn "bob" EmptyString (sample_clock "b"))))
    as [cfg|] eqn:Hrun; [|vm_compute in Hrun; discriminate Hrun].
  exists cfg.
  destruct (lock_excludes (sample_clock "a") (sample_clock "b")
              "alice" EmptyString "bob" EmptyString sample_one_task cfg)
    as (th1 & th2 & Hth & Hnot & Hlock & _).
  { apply (run_schedule_rtc [0; 0; 0]%nat). exact Hrun. }
  exists th1, th2. split; [reflexivity|]. split; [exact Hth|].
  vm_compute in Hrun. injection Hrun as <-.
  vm_compute in Hth. injection Hth as <- <-.
  assert (inside (Json:=json)
            (mkThread "alice" EmptyString (sample_clock "a") AtRelease (Some 0%nat)
               (Some (claimed_response sample_task))))
    as Hin by (right; right; reflexivity).
  split; [exact Hin|]. split; [|exact (Hlock Hin)].
  intros Hin2. apply Hnot. by split.
Defined.

Lemma register_agent_capabilities_witness :
  ∃ (agent : AgentSession.t json) pieces,
    dict_get
      (agents (snd (register_agent (sample_clock "t1") "alice" "cursor"
                      "blueprint_creation, level_design" initial_state)))
      "alice" = Some agent
    ∧ String.concat "," pieces = "blueprint_creation, level_design"
    ∧ length pieces = 2%nat
    ∧ Forall2 stripped_of pieces (AgentSession.capabilities agent)
    ∧ AgentSession.capabilities agent = ["blueprint_creation"; "level_design"].
Proof.
  destruct (register_agent_capabilities (Json:=json) (sample_clock "t1") "alice" "cursor"
              "blueprint_creation, level_design" initial_state eq_refl)
    as (agent & Hget & _ & _ & _ & _ & Hcaps).
  destruct Hcaps as (pieces & Hjoin & Hlen & _ & Hstripped); [discriminate|].
  exists agent, pieces. split_and!; [exact Hget|exact Hjoin|exact Hlen|exact Hstripped|].
  vm_compute in Hget. injection Hget as <-. reflexivity.
Defined.

(** [strip] removes the whitespace of Unicode, not only that of ASCII:
    here a no-break space (U+00A0) and a tab in front, an em space (U+2003)
    and a line feed behind; the space inside stays. *)
Example strip_unicode_whitespace :
  strip (bytes [194; 160; 9]%nat +:+ "level design" +:+ bytes [226; 128; 131; 10]%nat)
  = "level design"
  ∧ strip (bytes [32; 227; 128; 128; 13]%nat) = EmptyString.
Proof. split; vm_compute; reflexivity. Qed.
